(** * Intelli_GPT: retrieval, score fusion and ingestion

    A shallow embedding of the query pipeline, the ingestion pipeline, the
    embedding services and the Qdrant repository of the Intelli_GPT
    backend, with the properties of its specification stated over it.

    Conventions.
    - Python [float] and [numpy.float32] are kept apart: the arithmetic is
      an interface ([FloatOps]) with two carriers, instantiated by the
      IEEE-754 binary64/binary32 operations of [SpecFloat] ([IEEE]) for
      running the code on concrete inputs, and by correctly rounded
      arithmetic on rationals ([Rnd]) where order properties are proved.
    - Exceptions are values ([exn]); a call either returns or raises
      ([result]).
    - The collaborators (PDF parser, embedding models, object storage,
      vector database client, answer model, uuid and clock) are oracles:
      functions of the history of calls made so far and of the arguments.
      The world is that history, so that what the code called, and in
      which order, can be read off the final world. *)

From Stdlib Require Import ZArith List Bool String Ascii Lia.
From Stdlib Require Import Floats.SpecFloat.
From Stdlib Require Import Reals.
From Stdlib Require Import QArith Qround Qabs Qpower.
From Stdlib Require Import Psatz.
From Stdlib Require Import Sorted Permutation.
From Stdlib Require DecimalString.
Import ListNotations.

Local Open Scope string_scope.
Local Open Scope list_scope.
Local Open Scope Z_scope.

(* ===================================================================== *)
(** * Python runtime                                                      *)
(* ===================================================================== *)

Module Py.

(** Exception classes the code raises or tells apart; collaborators may
    raise any other class. *)
Inductive exn_class : Type :=
| TypeError
| ValueError
| RuntimeError
| UnexpectedResponse
| OtherError (name : string).

Record exn : Type := mk_exn { exn_cls : exn_class; exn_msg : string }.

(** [str(e)] *)
Definition str (e : exn) : string := exn_msg e.

Inductive result (A : Type) : Type :=
| Ok (a : A)
| Raise (e : exn).
Arguments Ok {A} a.
Arguments Raise {A} e.

(** ** Strings *)

(** [needle in hay] *)
Fixpoint contains (needle hay : string) : bool :=
  String.prefix needle hay ||
  match hay with
  | EmptyString => false
  | String _ hay' => contains needle hay'
  end.

Definition lower_ascii (c : ascii) : ascii :=
  let n := nat_of_ascii c in
  if (Nat.leb 65 n && Nat.leb n 90)%bool then ascii_of_nat (n + 32) else c.

(** [s.lower()], on ASCII letters *)
Fixpoint lower (s : string) : string :=
  match s with
  | EmptyString => EmptyString
  | String c s' => String (lower_ascii c) (lower s')
  end.

(** [c.isspace()] for the characters below 128: tab, line feed, vertical
    tab, form feed, carriage return, the four separators 28..31, space. *)
Definition isspace (c : ascii) : bool :=
  let n := nat_of_ascii c in
  ((Nat.leb 9 n && Nat.leb n 13) || (Nat.leb 28 n && Nat.leb n 32))%bool.

Fixpoint lstrip (s : string) : string :=
  match s with
  | EmptyString => EmptyString
  | String c s' => if isspace c then lstrip s' else s
  end.

Fixpoint rstrip (s : string) : string :=
  match s with
  | EmptyString => EmptyString
  | String c s' =>
      match rstrip s' with
      | EmptyString => if isspace c then EmptyString else String c EmptyString
      | r => String c r
      end
  end.

(** [s.strip()] *)
Definition strip (s : string) : string := rstrip (lstrip s).

(** truthiness of a string *)
Definition nonempty (s : string) : bool :=
  match s with EmptyString => false | _ => true end.

(** [sep.join(parts)] *)
Definition join (sep : string) (parts : list string) : string :=
  String.concat sep parts.

(** [s[:n]] *)
Definition take (n : nat) (s : string) : string := String.substring 0 n s.

(** [str(n)] for an [int] *)
Definition str_of_int (n : Z) : string :=
  DecimalString.NilZero.string_of_int (Z.to_int n).

Definition nl : string := String (ascii_of_nat 10) EmptyString.

End Py.
Export Py.

(* ===================================================================== *)
(** * Floating-point arithmetic                                           *)
(* ===================================================================== *)

(** The two floating-point types of the code: Python floats ([F64]) and
    [numpy.float32] values ([F32]), with the conversions between them. *)
Class FloatTypes : Type := {
  F64 : Type;
  F32 : Type;
  (** [np.asarray(x, dtype=np.float32)], [astype(np.float32)] *)
  to_f32 : F64 -> F32;
  (** [float(x)], [tolist()] *)
  of_f32 : F32 -> F64
}.

(** The scalar operations of the score normalization and fusion. *)
Class FloatOps {T : FloatTypes} : Type := {
  add64 : F64 -> F64 -> F64;
  sub64 : F64 -> F64 -> F64;
  mul64 : F64 -> F64 -> F64;
  div64 : F64 -> F64 -> F64;
  ltb64 : F64 -> F64 -> bool;
  leb64 : F64 -> F64 -> bool;
  (** [round(x, 6)] *)
  round6 : F64 -> F64;
  (** one step of the reductions [ndarray.min] and [ndarray.max] *)
  min32 : F32 -> F32 -> F32;
  max32 : F32 -> F32 -> F32;
  lit_0 : F64;       (** [0.0] *)
  lit_1 : F64;       (** [1.0] *)
  lit_0_6 : F64;     (** [0.6] *)
  lit_0_4 : F64;     (** [0.4] *)
  lit_1e_12 : F64    (** [1e-12] *)
}.

(** The float32 array operations of the embedding services. *)
Class VecOps {T : FloatTypes} : Type := {
  div32 : F32 -> F32 -> F32;
  eqb32 : F32 -> F32 -> bool;
  (** [np.linalg.norm] of a float32 array, or of one row of a float32
      matrix: the float32 square root of the sum of the squares.  numpy
      adds the squares in an order of its own, which is not the same for
      an array and for the rows of a matrix; what is proved of the
      embedding services holds whatever this function is, and nothing
      compares the norm of an array with the norm of a row. *)
  norm32 : list F32 -> F32;
  zero32 : F32;
  one32 : F32
}.

(** ** IEEE-754 instance *)

Module IEEE.

Definition b64_add := SFadd 53 1024.
Definition b64_sub := SFsub 53 1024.
Definition b64_mul := SFmul 53 1024.
Definition b64_div := SFdiv 53 1024.
Definition b32_add := SFadd 24 128.
Definition b32_mul := SFmul 24 128.
Definition b32_div := SFdiv 24 128.
Definition b32_sqrt := SFsqrt 24 128.

(** The nearest binary64 to an integer. *)
Definition b64_of_Z (z : Z) : spec_float := binary_normalize 53 1024 z 0 false.

(** Rounding to binary32 (ties to even, overflow to infinity). *)
Definition narrow (x : spec_float) : spec_float :=
  match x with
  | S754_finite s m e => binary_round 24 128 s m e
  | _ => x
  end.

(** A binary32 value as a binary64 value: exact, only the
    representation changes. *)
Definition widen (x : spec_float) : spec_float :=
  match x with
  | S754_finite s m e => binary_round 53 1024 s m e
  | _ => x
  end.

(** [np.minimum], [np.maximum]: a NaN operand gives NaN. *)
Definition fmin (a b : spec_float) : spec_float :=
  match SFcompare a b with
  | None => S754_nan
  | Some Gt => b
  | Some _ => a
  end.

Definition fmax (a b : spec_float) : spec_float :=
  match SFcompare a b with
  | None => S754_nan
  | Some Lt => b
  | Some _ => a
  end.

(** Square root of the sum of the squares, accumulated from left to
    right in binary32.  numpy leaves the order of the additions to its
    dot product, so on an array with several non-zero entries the last
    bits may differ from this; the arrays that are run through this
    instance below have at most one non-zero entry, for which every
    order gives the same number. *)
Definition l2norm (v : list spec_float) : spec_float :=
  b32_sqrt (fold_left (fun acc x => b32_add acc (b32_mul x x)) v (S754_zero false)).

(** The integer nearest to [m * 2^e], ties to even. *)
Definition rne_scaled (m e : Z) : Z :=
  if 0 <=? e then m * 2 ^ e
  else
    let d := 2 ^ (- e) in
    let q := m / d in
    let r := m mod d in
    match 2 * r ?= d with
    | Lt => q
    | Gt => q + 1
    | Eq => if Z.even q then q else q + 1
    end.

(** [round(x, 6)]: the binary64 nearest to the six-decimal number
    nearest to [x]. *)
Definition round_6 (x : spec_float) : spec_float :=
  match x with
  | S754_finite s m e =>
      let n := rne_scaled (Zpos m * 1000000) e in
      match n with
      | Z0 => S754_zero s
      | _ => b64_div (b64_of_Z (if s then - n else n)) (b64_of_Z 1000000)
      end
  | _ => x
  end.

Definition f_0 : spec_float := S754_zero false.
Definition f_1 : spec_float := b64_of_Z 1.
(** Decimal literals denote the nearest binary64. *)
Definition f_0_6 : spec_float := b64_div (b64_of_Z 6) (b64_of_Z 10).
Definition f_0_4 : spec_float := b64_div (b64_of_Z 4) (b64_of_Z 10).
Definition f_1e_12 : spec_float := b64_div (b64_of_Z 1) (b64_of_Z (10 ^ 12)).

#[export] Instance types : FloatTypes := {|
  F64 := spec_float;
  F32 := spec_float;
  to_f32 := narrow;
  of_f32 := widen
|}.

#[export] Instance ops : FloatOps := {|
  add64 := b64_add;
  sub64 := b64_sub;
  mul64 := b64_mul;
  div64 := b64_div;
  ltb64 := SFltb;
  leb64 := SFleb;
  round6 := round_6;
  min32 := fmin;
  max32 := fmax;
  lit_0 := f_0;
  lit_1 := f_1;
  lit_0_6 := f_0_6;
  lit_0_4 := f_0_4;
  lit_1e_12 := f_1e_12
|}.

#[export] Instance vec_ops : VecOps := {|
  div32 := b32_div;
  eqb32 := SFeqb;
  norm32 := l2norm;
  zero32 := S754_zero false;
  one32 := narrow f_1
|}.

(** [n / d] as a Python expression on two integer-valued floats; used to
    write decimal literals such as [0.9]. *)
Definition dec (n d : Z) : spec_float := b64_div (b64_of_Z n) (b64_of_Z d).

End IEEE.

(** ** Correctly rounded arithmetic on rationals

    A finite floating-point number is a rational [m * 2^e] with [|m| <
    2^prec] and [e >= emin].  An operation returns the number of that form
    nearest to the exact result, ties going to the even [m].  Exponents
    are not bounded above, so nothing overflows, and there is neither NaN
    nor signed zero: this is IEEE-754 arithmetic on the finite values that
    do not overflow. *)

Module Rnd.

Local Open Scope Q_scope.

Definition pow2 (e : Z) : Q := 2 ^ e.

(** [floor (log2 q)] for [q > 0] *)
Definition ilog2 (q : Q) : Z :=
  let k := (Z.log2 (Qnum q) - Z.log2 (Zpos (Qden q)))%Z in
  if Qle_bool (pow2 k) q then k else (k - 1)%Z.

(** The nearest integer, ties to even. *)
Definition rne (q : Q) : Z :=
  let f := Qfloor q in
  match Qcompare (q - inject_Z f) (1 # 2) with
  | Lt => f
  | Gt => (f + 1)%Z
  | Eq => if Z.even f then f else (f + 1)%Z
  end.

(** The exponent of the format at [x >= 0]. *)
Definition cexp (prec emin : Z) (x : Q) : Z :=
  Z.max (ilog2 x - prec + 1) emin.

Definition round_pos (prec emin : Z) (x : Q) : Q :=
  let e := cexp prec emin x in
  inject_Z (rne (x / pow2 e)) * pow2 e.

(** Rounding to nearest, ties to even. *)
Definition round (prec emin : Z) (x : Q) : Q :=
  if Qle_bool 0 x then round_pos prec emin x
  else - round_pos prec emin (- x).

Definition r64 : Q -> Q := round 53 (-1074).
Definition r32 : Q -> Q := round 24 (-149).

Definition qmin (a b : Q) : Q := if Qle_bool a b then a else b.
Definition qmax (a b : Q) : Q := if Qle_bool a b then b else a.

(** Division by zero raises in Python; the code divides only by a
    difference it has tested to be above [1e-12].  Here [x / 0] is
    [0]. *)
#[export] Instance types : FloatTypes := {|
  F64 := Q;
  F32 := Q;
  to_f32 := r32;
  of_f32 := fun x => x
|}.

#[export] Instance ops : FloatOps := {|
  add64 := fun x y => r64 (x + y);
  sub64 := fun x y => r64 (x - y);
  mul64 := fun x y => r64 (x * y);
  div64 := fun x y => r64 (x / y);
  ltb64 := fun x y => negb (Qle_bool y x);
  leb64 := Qle_bool;
  round6 := fun x => r64 (inject_Z (rne (x * 1000000)) / 1000000);
  min32 := qmin;
  max32 := qmax;
  lit_0 := 0;
  lit_1 := 1;
  lit_0_6 := r64 (6 # 10);
  lit_0_4 := r64 (4 # 10);
  lit_1e_12 := r64 (1 # 1000000000000)
|}.

End Rnd.

(** ** Exact real arithmetic

    The float32 array operations without rounding, to say what
    normalization achieves up to rounding. *)

Module Exact.

Local Open Scope R_scope.

Definition sum_sq (v : list R) : R := fold_left (fun acc x => acc + x * x) v 0.

#[export] Instance types : FloatTypes := {|
  F64 := R;
  F32 := R;
  to_f32 := fun x => x;
  of_f32 := fun x => x
|}.

#[export] Instance vec_ops : VecOps := {|
  div32 := Rdiv;
  eqb32 := fun x y => if Req_dec_T x y then true else false;
  norm32 := fun v => sqrt (sum_sq v);
  zero32 := 0;
  one32 := 1
|}.

End Exact.

(** ** Order properties of the arithmetic

    What the ranking relies on: [<=] is a total preorder, [<] is its
    strict part, and subtraction, division by a positive number,
    multiplication by the two weights and addition are monotone.  These
    hold of IEEE-754 arithmetic away from NaN. *)
Record FloatLaws {T : FloatTypes} (O : FloatOps) : Prop := {
  leb_total : forall x y : F64, leb64 x y = true \/ leb64 y x = true;
  leb_trans : forall x y z : F64,
      leb64 x y = true -> leb64 y z = true -> leb64 x z = true;
  ltb_leb : forall x y : F64, ltb64 x y = negb (leb64 y x);
  eps_pos : ltb64 lit_0 lit_1e_12 = true;
  sub_mono : forall x y c : F64,
      leb64 x y = true -> leb64 (sub64 x c) (sub64 y c) = true;
  div_mono : forall x y d : F64,
      ltb64 lit_0 d = true -> leb64 x y = true ->
      leb64 (div64 x d) (div64 y d) = true;
  mul_0_6_mono : forall x y : F64,
      leb64 x y = true -> leb64 (mul64 lit_0_6 x) (mul64 lit_0_6 y) = true;
  mul_0_4_mono : forall x y : F64,
      leb64 x y = true -> leb64 (mul64 lit_0_4 x) (mul64 lit_0_4 y) = true;
  add_mono_l : forall x y c : F64,
      leb64 x y = true -> leb64 (add64 x c) (add64 y c) = true;
  add_mono_r : forall x y c : F64,
      leb64 x y = true -> leb64 (add64 c x) (add64 c y) = true
}.

(* ===================================================================== *)
(** * Data model                                                          *)
(* ===================================================================== *)

Definition bytes : Type := list Byte.byte.

Module Schema.

(** Payload of a text point, as [build_text_payload] returns it. *)
Record TextPayload : Type := {
  tp_id : string;
  tp_type : string;
  tp_source_pdf_id : string;
  tp_page_number : Z;
  tp_section_id : option string;
  tp_chunk_id : string;
  tp_chunk_text_preview : string;
  tp_chunk_start_char_index : Z;
  tp_chunk_end_char_index : Z;
  tp_language : option string;
  tp_doc_title : option string;
  tp_tags : list string;
  tp_modality : string;
  tp_embedding_model_name : string;
  tp_embedding_dim : Z;
  tp_created_at : string;
  tp_version : option string
}.

(** Payload of an image point, as [build_image_payload] returns it. *)
Record ImagePayload : Type := {
  ip_id : string;
  ip_type : string;
  ip_source_pdf_id : string;
  ip_page_number : Z;
  ip_figure_id : option string;
  ip_image_s3_key : string;
  ip_image_mime_type : string;
  ip_width_px : Z;
  ip_height_px : Z;
  ip_caption_text : option string;
  ip_alt_text : option string;
  ip_doc_title : option string;
  ip_tags : list string;
  ip_modality : string;
  ip_embedding_model_name : string;
  ip_embedding_dim : Z;
  ip_created_at : string;
  ip_version : option string
}.

Inductive Payload : Type :=
| TextP (p : TextPayload)
| ImageP (p : ImagePayload).

(** [list(tags) if tags else []] *)
Definition tags_or_empty (tags : option (list string)) : list string :=
  match tags with
  | Some l => l
  | None => []
  end.

(** [build_text_payload]; [now] is the value of [_now_iso()]. *)
Definition build_text_payload (now : string)
    (point_id source_pdf_id : string) (page_number : Z) (chunk_id : string)
    (chunk_text_preview : string) (char_start char_end : Z)
    (embedding_model_name : string) (doc_title : option string)
    (tags : option (list string)) : TextPayload :=
  {| tp_id := point_id;
     tp_type := "text";
     tp_source_pdf_id := source_pdf_id;
     tp_page_number := page_number;
     tp_section_id := None;
     tp_chunk_id := chunk_id;
     tp_chunk_text_preview := chunk_text_preview;
     tp_chunk_start_char_index := char_start;
     tp_chunk_end_char_index := char_end;
     tp_language := None;
     tp_doc_title := doc_title;
     tp_tags := tags_or_empty tags;
     tp_modality := "text";
     tp_embedding_model_name := embedding_model_name;
     tp_embedding_dim := 1024;
     tp_created_at := now;
     tp_version := None |}.

(** [build_image_payload] *)
Definition build_image_payload (now : string)
    (point_id source_pdf_id : string) (page_number : Z)
    (image_s3_key mime_type : string) (width_px height_px : Z)
    (embedding_model_name : string) (caption_text alt_text : option string)
    (doc_title : option string) (tags : option (list string)) : ImagePayload :=
  {| ip_id := point_id;
     ip_type := "image";
     ip_source_pdf_id := source_pdf_id;
     ip_page_number := page_number;
     ip_figure_id := None;
     ip_image_s3_key := image_s3_key;
     ip_image_mime_type := mime_type;
     ip_width_px := width_px;
     ip_height_px := height_px;
     ip_caption_text := caption_text;
     ip_alt_text := alt_text;
     ip_doc_title := doc_title;
     ip_tags := tags_or_empty tags;
     ip_modality := "image";
     ip_embedding_model_name := embedding_model_name;
     ip_embedding_dim := 768;
     ip_created_at := now;
     ip_version := None |}.

End Schema.

Section DataModel.
Context {T : FloatTypes}.

(** A point handed to the repository: [(id, vector, payload)]. *)
Definition Point : Type := (string * list F64 * Schema.Payload)%type.

(** The payload of a search hit is a dictionary; these are the keys the
    query pipeline reads with [.get], [None] standing for an absent key
    or a [None] value. *)
Record HitPayload : Type := {
  hp_id : option string;
  hp_chunk_text_preview : option string;
  hp_page_number : option Z;
  hp_section_id : option string;
  hp_image_s3_key : option string;
  hp_image_mime_type : option string;
  hp_caption_text : option string;
  hp_alt_text : option string;
  hp_embedding_model_name : option string
}.

(** A scored point returned by the vector database. *)
Record SearchHit : Type := {
  hit_id : string;
  hit_score : F64;
  hit_payload : option HitPayload
}.

(** [Filter(must=[FieldCondition(key, MatchValue(value)), ...])] *)
Definition Filter : Type := list (string * string).

(** The search methods of the client and the keyword spellings under
    which the vector and the filter are passed. *)
Inductive method : Type := m_search | m_query_points | m_search_points.
Inductive vec_kw : Type := kw_query_vector | kw_query | kw_vector.
Inductive flt_kw : Type := kw_query_filter | kw_filter.

Record SearchCall : Type := {
  sc_method : method;
  sc_collection : string;
  sc_vec_kw : vec_kw;
  sc_vector : list F64;
  sc_limit : Z;
  sc_flt_kw : flt_kw;
  sc_filter : option Filter
}.

(** A page of text and an extracted image, as the parser returns them. *)
Record TextBlock : Type := {
  tb_page_number : Z;
  tb_text : string;
  tb_char_start : option Z;
  tb_char_end : option Z
}.

Record ImageBlock : Type := {
  ib_page_number : Z;
  ib_image_bytes : bytes;
  ib_mime_type : string;
  ib_width_px : Z;
  ib_height_px : Z
}.

(** ** Collaborator calls *)

Inductive event : Type :=
| EvParseText (pdf : bytes)
| EvParseImages (pdf : bytes)
| EvEmbedTexts (texts : list string)
| EvEmbedImages (images : list bytes)
| EvUploadImage (image : bytes) (mime_type pdf_id : string) (page_number : Z)
| EvUuid4
| EvNow
| EvUpsert (collection : string) (points : list Point)
| EvSearch (c : SearchCall)
| EvEmbedContent (model contents : string)
| EvEncodeText (texts : list string)
| EvPresign (s3_key : string) (ttl_seconds : Z)
| EvGenerateContent (model prompt : string).

(** The world: the calls made so far, oldest first. *)
Definition World : Type := list event.

(** The collaborators.  Each answers from the history and the
    arguments. *)
Record Env : Type := {
  (** [PDFParser.parse_text], [PDFParser.parse_images] *)
  pdf_parse_text : World -> bytes -> result (list TextBlock);
  pdf_parse_images : World -> bytes -> result (list ImageBlock);
  (** the embedders held by the ingestion pipeline *)
  port_embed_texts : World -> list string -> result (list (list F64));
  port_embed_images : World -> list bytes -> result (list (list F64));
  (** [ImageStore.upload_image], returning the storage key *)
  s3_upload_image : World -> bytes -> string -> string -> Z -> result string;
  (** [uuid4().hex], [_now_iso()] *)
  uuid4_hex : World -> string;
  now_iso : World -> string;
  (** the Qdrant client: which search methods it has, what they answer,
      and [upsert] *)
  client_has : method -> bool;
  client_search : World -> SearchCall -> result (list SearchHit);
  client_upsert : World -> string -> list Point -> result unit;
  (** Gemini [embed_content]: the embedding found in the response, if
      any *)
  gemini_api_key : option string;
  gemini_embed_content : World -> string -> string -> result (option (list F64));
  (** the CLIP text encoder on tokenized texts: one float32 row per
      text *)
  clip_encode_text : World -> list string -> result (list (list F32));
  (** [generate_presigned_url] *)
  s3_presign : World -> string -> Z -> result string;
  (** [GenerativeModel(name).generate_content(prompt)]: the [text] of
      the response when it is a string *)
  llm_generate_content : World -> string -> string -> result (option string)
}.

(** ** Computations: world passing with exceptions *)

Definition M (A : Type) : Type := World -> result A * World.

Definition ret {A} (a : A) : M A := fun w => (Ok a, w).

Definition raise {A} (e : exn) : M A := fun w => (Raise e, w).

Definition bind {A B} (m : M A) (k : A -> M B) : M B :=
  fun w =>
    match m w with
    | (Ok a, w') => k a w'
    | (Raise e, w') => (Raise e, w')
    end.

(** [try: m except Exception as e: h e] *)
Definition try_except {A} (m : M A) (h : exn -> M A) : M A :=
  fun w =>
    match m w with
    | (Ok a, w') => (Ok a, w')
    | (Raise e, w') => h e w'
    end.

(** A call to a collaborator: the answer is computed from the history
    before the call, and the call is recorded. *)
Definition call {A} (ev : event) (oracle : World -> result A) : M A :=
  fun w => (oracle w, w ++ [ev]).

Definition call_total {A} (ev : event) (oracle : World -> A) : M A :=
  fun w => (Ok (oracle w), w ++ [ev]).

(** [for x in l: acc = f acc x] *)
Fixpoint foldM {A B} (f : B -> A -> M B) (l : list A) (acc : B) : M B :=
  match l with
  | [] => ret acc
  | x :: l' => bind (f acc x) (foldM f l')
  end.

End DataModel.

Declare Scope py_scope.
Delimit Scope py_scope with py.
Notation "x <- m ;; k" := (bind m (fun x => k))
  (at level 61, m at next level, right associativity) : py_scope.
Notation "m ;;; k" := (bind m (fun _ => k))
  (at level 61, right associativity) : py_scope.

Local Open Scope py_scope.

(* ===================================================================== *)
(** * services/embeddings/text_embeddings.py                              *)
(* ===================================================================== *)

Module TextEmbeddingService.
Section WithFloats.
Context {T : FloatTypes} {O : FloatOps} {V : VecOps}.

(** [self._expected_dim] *)
Definition _expected_dim : nat := 1024.

Definition zero_norm_error : exn :=
  mk_exn ValueError "Received zero-norm embedding".

Definition missing_key_error : exn :=
  mk_exn ValueError "GEMINI_API_KEY or GOOGLE_API_KEY is missing".

Definition missing_embedding_error : exn :=
  mk_exn RuntimeError "Embedding response missing 'embedding' field".

(** [_normalize]: cast to float32, divide by the L2 norm, raise when
    the norm is zero. *)
Definition _normalize (vec : list F64) : result (list F64) :=
  let arr := map to_f32 vec in
  let norm := norm32 arr in
  if eqb32 norm zero32 then Raise zero_norm_error
  else Ok (map of_f32 (map (fun x => div32 x norm) arr)).

(** [_ensure_client]: the key is looked up in the environment and the
    [.env] files; an absent or empty key raises. *)
Definition _ensure_client (env : Env) : M unit :=
  match gemini_api_key env with
  | Some (String _ _) => ret tt
  | _ => raise missing_key_error
  end.

(** [_reshape_to_expected]: pad with zeros or truncate to the expected
    dimension, then renormalize. *)
Definition _reshape_to_expected (vec : list F64) : result (list F64) :=
  let arr := map to_f32 vec in
  if Nat.eqb (List.length arr) _expected_dim then _normalize (map of_f32 arr)
  else
    let arr' :=
      if Nat.ltb (List.length arr) _expected_dim
      then arr ++ repeat zero32 (_expected_dim - List.length arr)
      else firstn _expected_dim arr in
    _normalize (map of_f32 arr').

Definition lift {A} (r : result A) : M A := fun w => (r, w).

(** [_extract_embedding] on the response of [embed_content] *)
Definition _extract_embedding (resp : option (list F64)) : result (list F64) :=
  match resp with
  | Some v => Ok v
  | None => Raise missing_embedding_error
  end.

(** The body shared by [embed_text] and the loop of [embed_texts]. *)
Definition embed_one (env : Env) (model_name text : string) : M (list F64) :=
  resp <- call (EvEmbedContent model_name text)
               (fun w => gemini_embed_content env w model_name text) ;;
  vector <- lift (_extract_embedding resp) ;;
  normalized <- lift (_normalize vector) ;;
  if negb (Nat.eqb (List.length normalized) _expected_dim)
  then lift (_reshape_to_expected normalized)
  else ret normalized.

Definition embed_text (env : Env) (model_name text : string) : M (list F64) :=
  match text with
  | EmptyString => raise (mk_exn ValueError "text must be non-empty")
  | _ =>
      _ensure_client env ;;;
      embed_one env model_name text
  end.

Definition embed_texts (env : Env) (model_name : string) (texts : list string)
  : M (list (list F64)) :=
  match texts with
  | [] => ret []
  | _ =>
      _ensure_client env ;;;
      foldM (fun results t =>
               normalized <- embed_one env model_name t ;;
               ret (results ++ [normalized]))
            texts []
  end.

End WithFloats.
End TextEmbeddingService.

(* ===================================================================== *)
(** * services/embeddings/image_embeddings.py                             *)
(* ===================================================================== *)

Module ImageEmbeddingService.
Section WithFloats.
Context {T : FloatTypes} {O : FloatOps} {V : VecOps}.

Definition zero_norm_error : exn :=
  mk_exn ValueError "Received zero-norm CLIP text embedding".

(** [feats.squeeze(0)]: the single row of a one-row array. *)
Definition squeeze0 (feats : list (list F32)) : result (list F32) :=
  match feats with
  | [row] => Ok row
  | _ => Raise (mk_exn ValueError
                  "cannot select an axis to squeeze out which has size not equal to one")
  end.

(** [embed_text_to_image_space] *)
Definition embed_text_to_image_space (env : Env) (text : string) : M (list F64) :=
  if negb (nonempty (strip text))
  then raise (mk_exn ValueError "text must be non-empty")
  else
    rows <- call (EvEncodeText [text]) (fun w => clip_encode_text env w [text]) ;;
    feats <- TextEmbeddingService.lift (squeeze0 rows) ;;
    let norm := norm32 feats in
    if eqb32 norm zero32 then raise zero_norm_error
    else ret (map of_f32 (map (fun x => div32 x norm) feats)).

(** One row of [feats / norms] after [norms[norms == 0.0] = 1.0];
    [norm32 row] is the entry of [np.linalg.norm(feats, axis=1)] for
    the row. *)
Definition normalize_row (row : list F32) : list F32 :=
  let n := norm32 row in
  let n' := if eqb32 n zero32 then one32 else n in
  map (fun x => div32 x n') row.

(** [embed_texts_to_image_space] *)
Definition embed_texts_to_image_space (env : Env) (texts : list string)
  : M (list (list F64)) :=
  match texts with
  | [] => ret []
  | _ =>
      feats <- call (EvEncodeText texts) (fun w => clip_encode_text env w texts) ;;
      ret (map (fun row => map of_f32 (normalize_row row)) feats)
  end.

End WithFloats.
End ImageEmbeddingService.

(* ===================================================================== *)
(** * services/vectordb_qdrant/queries.py                                 *)
(* ===================================================================== *)

Module QdrantRepository.
Section WithFloats.
Context {T : FloatTypes}.

(** [self.text_collection], [self.image_collection] *)
Record t : Type := {
  text_collection : string;
  image_collection : string
}.

(** The error text complains about [query_filter]. *)
Definition complains_query_filter (msg : string) : bool :=
  contains "query_filter" msg
  || contains "unexpected keyword argument 'query_filter'" msg
  || contains "unknown arguments: ['query_filter']" msg.

(** The error text complains about [filter]. *)
Definition complains_filter (msg : string) : bool :=
  contains "unknown arguments: ['filter']" msg
  || contains "unexpected keyword argument 'filter'" msg.

Definition no_method_error : exn :=
  mk_exn RuntimeError "Qdrant client does not support a known search method".

(** One call of a search method of the client. *)
Definition client_call (env : Env) (m : method) (collection : string)
    (vk : vec_kw) (vector : list F64) (top_k : Z) (fk : flt_kw)
    (flt : option Filter) : M (list SearchHit) :=
  let c := {| sc_method := m; sc_collection := collection; sc_vec_kw := vk;
              sc_vector := vector; sc_limit := top_k; sc_flt_kw := fk;
              sc_filter := flt |} in
  call (EvSearch c) (fun w => client_search env w c).

(** [_search].  The responses are modelled by the scored points they
    carry, so [getattr(resp, "points", resp)] is the identity. *)
Definition _search (env : Env) (collection : string) (vector : list F64)
    (top_k : Z) (flt : option Filter) : M (list SearchHit) :=
  let go m vk fk := client_call env m collection vk vector top_k fk flt in
  if client_has env m_search then
    try_except (go m_search kw_query_vector kw_query_filter)
      (fun e =>
         let msg := lower (str e) in
         if complains_query_filter msg then go m_search kw_query_vector kw_filter
         else if complains_filter msg then go m_search kw_query_vector kw_query_filter
         else raise e)
  else if client_has env m_query_points then
    try_except (go m_query_points kw_query kw_query_filter)
      (fun e =>
         let msg := lower (str e) in
         if complains_query_filter msg then
           try_except (go m_query_points kw_query kw_filter)
             (fun _ => go m_query_points kw_vector kw_filter)
         else if complains_filter msg then
           try_except (go m_query_points kw_query kw_query_filter)
             (fun _ => go m_query_points kw_vector kw_query_filter)
         else raise e)
  else if client_has env m_search_points then
    try_except (go m_search_points kw_query kw_query_filter)
      (fun e =>
         let msg := lower (str e) in
         if complains_query_filter msg then go m_search_points kw_query kw_filter
         else if complains_filter msg then go m_search_points kw_query kw_query_filter
         else raise e)
  else raise no_method_error.

(** The argument of the upsert methods: a list of points, or some other
    object. *)
Inductive points_arg : Type :=
| PointsList (points : list Point)
| NotAList.

Definition upsert_points (env : Env) (collection : string) (points : points_arg)
  : M unit :=
  match points with
  | NotAList => raise (mk_exn TypeError "points must be a list")
  | PointsList pts =>
      (* qdrant_points = [PointStruct(id=pid, vector=vec, payload=payload) ...] *)
      call (EvUpsert collection pts) (fun w => client_upsert env w collection pts)
  end.

(** [upsert_text_points] *)
Definition upsert_text_points (env : Env) (repo : t) (points : points_arg) : M unit :=
  upsert_points env (text_collection repo) points.

(** [upsert_image_points] *)
Definition upsert_image_points (env : Env) (repo : t) (points : points_arg) : M unit :=
  upsert_points env (image_collection repo) points.

(** [_build_filter] *)
Definition _build_filter (filters : option (list (string * string))) : option Filter :=
  match filters with
  | None | Some [] => None
  | Some conditions => Some conditions
  end.

Definition search_in (env : Env) (collection : string) (query_vector : list F64)
    (top_k : Z) (filters : option (list (string * string))) : M (list SearchHit) :=
  match query_vector with
  | [] => raise (mk_exn ValueError "query_vector must be a non-empty list of floats")
  | _ =>
      if top_k <=? 0 then raise (mk_exn ValueError "top_k must be a positive integer")
      else _search env collection query_vector top_k (_build_filter filters)
  end.

(** [search_text] *)
Definition search_text (env : Env) (repo : t) (query_vector : list F64) (top_k : Z)
    (filters : option (list (string * string))) : M (list SearchHit) :=
  search_in env (text_collection repo) query_vector top_k filters.

(** [search_images] *)
Definition search_images (env : Env) (repo : t) (query_vector : list F64) (top_k : Z)
    (filters : option (list (string * string))) : M (list SearchHit) :=
  search_in env (image_collection repo) query_vector top_k filters.

End WithFloats.
End QdrantRepository.

(* ===================================================================== *)
(** * The query response                                                  *)
(* ===================================================================== *)

Section ResponseModel.
Context {T : FloatTypes}.

Record Scores : Type := {
  text_score : F64;
  image_score : F64;
  fused_score : F64
}.

(** An entry of [context["text_chunks"]]. *)
Record TextChunk : Type := {
  tc_id : option string;
  tc_chunk_text_preview : option string;
  tc_page_number : option Z;
  tc_section_id : option string;
  tc_scores : Scores;
  tc_embedding_model_name : option string;
  tc_modality : string
}.

(** An entry of [images_resp]. *)
Record ImageItem : Type := {
  im_id : option string;
  im_presigned_url : string;
  im_ttl_seconds : Z;
  im_page_number : option Z;
  im_caption_text : option string;
  im_alt_text : option string;
  im_image_mime_type : option string;
  im_s3_key : string;
  im_scores : Scores;
  im_embedding_model_name : option string;
  im_modality : string
}.

Record Fusion : Type := {
  fu_strategy : string;
  fu_weight_text : F64;
  fu_weight_image : F64;
  fu_normalized : bool
}.

Record Context : Type := {
  ctx_text_chunks : list TextChunk;
  ctx_images : list ImageItem;
  ctx_fusion : Fusion
}.

Record Meta : Type := {
  meta_top_k_text : Z;
  meta_top_k_image : Z;
  meta_collection_text : string;
  meta_collection_image : string;
  meta_dim_text : Z;
  meta_dim_image : Z;
  meta_metric_text : string;
  meta_metric_image : string;
  meta_llm : string
}.

Record Response : Type := {
  request_id : string;
  question : string;
  answer_text : string;
  images : list ImageItem;
  context : Context;
  meta : Meta
}.

End ResponseModel.

(* ===================================================================== *)
(** * services/llm_gemini/answer_generator.py                             *)
(* ===================================================================== *)

Module GeminiAnswerGenerator.
Section WithFloats.
Context {T : FloatTypes}.

(** [self._model_name]; [self._genai is not None] *)
Record t : Type := {
  _model_name : string;
  _genai : bool
}.

(** [__init__]: the module is kept only when a key is set and the
    import and [configure] succeed. *)
Definition init (model_name : string) (api_key : option string)
    (genai_configures : bool) : t :=
  {| _model_name := model_name;
     _genai := match api_key with
               | Some (String _ _) => genai_configures
               | _ => false
               end |}.

(** [str(page)] for the value under ["page_number"] *)
Definition str_of_page (page : option Z) : string :=
  match page with
  | Some n => str_of_int n
  | None => "None"
  end.

Definition or_empty (s : option string) : string :=
  match s with Some x => x | None => "" end.

(** [_build_prompt] *)
Definition _build_prompt (question : string) (context : Context) : string :=
  let head :=
    [ "You are a helpful assistant. Answer ONLY using the provided context.";
      "If the answer isn't in the context, say you don't have enough information.";
      "Be concise and cite page numbers when helpful.";
      "";
      String.append "Question: " question;
      "";
      "Context snippets:" ] in
  let snippets :=
    flat_map (fun t =>
                let txt := strip (or_empty (tc_chunk_text_preview t)) in
                if nonempty txt
                then [String.concat ""
                        ["- [p"; str_of_page (tc_page_number t); "] "; txt]]
                else [])
             (firstn 6 (ctx_text_chunks context)) in
  join nl (head ++ snippets).

(** The stripped previews of the first three text chunks that have
    one. *)
Definition top_previews (context : Context) : list string :=
  flat_map (fun t =>
              let preview := or_empty (tc_chunk_text_preview t) in
              if nonempty preview then [strip preview] else [])
           (firstn 3 (ctx_text_chunks context)).

(** [X or "No relevant context found."] *)
Definition or_no_context (s : string) : string :=
  if nonempty s then s else "No relevant context found.".

(** The extractive fallback at the end of [generate]. *)
Definition extractive_fallback (context : Context) : string :=
  let body := or_no_context (join (String.append nl nl) (top_previews context)) in
  String.concat ""
    ["Based on the retrieved context, here are the most relevant excerpts:";
     nl; nl; body].

(** [generate] *)
Definition generate (env : Env) (g : t) (question : string) (context : Context)
  : M string :=
  let prompt := _build_prompt question context in
  let fallback := ret (extractive_fallback context) in
  if _genai g then
    try_except
      (resp <- call (EvGenerateContent (_model_name g) prompt)
                    (fun w => llm_generate_content env w (_model_name g) prompt) ;;
       let text := or_empty resp in
       if nonempty (strip text) then ret (strip text) else fallback)
      (fun _ => fallback)
  else fallback.

End WithFloats.
End GeminiAnswerGenerator.

(* ===================================================================== *)
(** * pipelines/query_pipeline.py                                         *)
(* ===================================================================== *)

Module QueryPipeline.
Section WithFloats.
Context {T : FloatTypes} {O : FloatOps} {V : VecOps}.

(** [self.answer_generator]: the Gemini wrapper, or the local
    [_Fallback] object when the wrapper cannot be imported. *)
Inductive AnswerGenerator : Type :=
| Gemini (g : GeminiAnswerGenerator.t)
| Fallback.

Record t : Type := {
  text_model_name : string;
  qdrant_repo : QdrantRepository.t;
  top_k_text : Z;
  top_k_image : Z;
  url_ttl : Z;
  answer_generator : AnswerGenerator;
  llm_name : string
}.

(** The last part of [__init__]. *)
Definition init_answer_generator (module_imports : bool) (model_name : string)
    (api_key : option string) (genai_configures : bool) : AnswerGenerator :=
  if module_imports
  then Gemini (GeminiAnswerGenerator.init model_name api_key genai_configures)
  else Fallback.

(** [_Fallback.generate] *)
Definition fallback_generate (question : string) (context : Context) : string :=
  let joined :=
    GeminiAnswerGenerator.or_no_context
      (join (String.append nl nl) (GeminiAnswerGenerator.top_previews context)) in
  String.concat ""
    ["Answer (no LLM available). Based only on retrieved context, here are the most relevant excerpts:";
     nl; nl; joined].

(** [self.answer_generator.generate(question=..., context=...)] *)
Definition generate (env : Env) (a : AnswerGenerator) (question : string)
    (context : Context) : M string :=
  match a with
  | Gemini g => GeminiAnswerGenerator.generate env g question context
  | Fallback => ret (fallback_generate question context)
  end.

(** [arr.min()], [arr.max()] of a non-empty float32 array *)
Definition array_min (a : F32) (arr : list F32) : F32 := fold_left min32 arr a.
Definition array_max (a : F32) (arr : list F32) : F32 := fold_left max32 arr a.

(** [_normalize_scores] *)
Definition _normalize_scores (scores : list F64) : list F64 :=
  match map to_f32 scores with
  | [] => []
  | a :: arr =>
      let min_v := of_f32 (array_min a arr) in
      let max_v := of_f32 (array_max a arr) in
      if leb64 (sub64 max_v min_v) lit_1e_12
      then map (fun _ => lit_1) scores
      else map (fun s => div64 (sub64 s min_v) (sub64 max_v min_v)) scores
  end.

(** [0.6 * ts + 0.4 * 0.0] and [0.6 * 0.0 + 0.4 * iscore] *)
Definition fuse_text (ts : F64) : F64 :=
  add64 (mul64 lit_0_6 ts) (mul64 lit_0_4 lit_0).
Definition fuse_image (iscore : F64) : F64 :=
  add64 (mul64 lit_0_6 lit_0) (mul64 lit_0_4 iscore).

(** A tuple [(hit, tscore, iscore, fscore)]. *)
Record Ranked : Type := {
  r_hit : SearchHit;
  r_text_norm : F64;
  r_image_norm : F64;
  r_fused : F64
}.

(** [l.sort(key=lambda x: x[3], reverse=True)]: a stable sort in
    decreasing order of the key; elements are compared with [<] on
    their keys and equal keys keep their order. *)
Fixpoint insert_desc (x : Ranked) (l : list Ranked) : list Ranked :=
  match l with
  | [] => [x]
  | y :: l' =>
      if ltb64 (r_fused x) (r_fused y) then y :: insert_desc x l'
      else x :: y :: l'
  end.

Definition sort_by_fused_desc (l : list Ranked) : list Ranked :=
  fold_right insert_desc [] l.

(** Steps 3 and 4 of [answer_question] for the text hits: the list of
    tuples [(hit, ts, 0.0, fs)] before it is sorted. *)
Definition text_tuples (text_hits : list SearchHit) : list Ranked :=
  let text_scores := map hit_score text_hits in
  let text_norm := _normalize_scores text_scores in
  let text_fused := map fuse_text text_norm in
  map (fun '(hit, (ts, fs)) =>
         {| r_hit := hit; r_text_norm := ts; r_image_norm := lit_0; r_fused := fs |})
      (combine text_hits (combine text_norm text_fused)).

(** [text_ranked] after [text_ranked.sort(...)] *)
Definition text_ranked (text_hits : list SearchHit) : list Ranked :=
  sort_by_fused_desc (text_tuples text_hits).

(** The same for the image hits: tuples [(hit, 0.0, iscore, fs)]. *)
Definition image_tuples (image_hits : list SearchHit) : list Ranked :=
  let image_scores := map hit_score image_hits in
  let image_norm := _normalize_scores image_scores in
  let image_fused := map fuse_image image_norm in
  map (fun '(hit, (iscore, fs)) =>
         {| r_hit := hit; r_text_norm := lit_0; r_image_norm := iscore; r_fused := fs |})
      (combine image_hits (combine image_norm image_fused)).

(** [image_ranked] after [image_ranked.sort(...)] *)
Definition image_ranked (image_hits : list SearchHit) : list Ranked :=
  sort_by_fused_desc (image_tuples image_hits).

(** [hit.payload or {}] *)
Definition empty_payload : HitPayload :=
  {| hp_id := None; hp_chunk_text_preview := None; hp_page_number := None;
     hp_section_id := None; hp_image_s3_key := None; hp_image_mime_type := None;
     hp_caption_text := None; hp_alt_text := None;
     hp_embedding_model_name := None |}.

Definition payload_of (hit : SearchHit) : HitPayload :=
  match hit_payload hit with
  | Some p => p
  | None => empty_payload
  end.

(** Step 6: one turn of the loop over [image_ranked]. *)
Definition image_item (env : Env) (p : t) (images_resp : list ImageItem) (r : Ranked)
  : M (list ImageItem) :=
  let payload := payload_of (r_hit r) in
  match hp_image_s3_key payload with
  | Some (String c k) =>
      let s3_key := String c k in
      url <- call (EvPresign s3_key (url_ttl p))
                  (fun w => s3_presign env w s3_key (url_ttl p)) ;;
      ret (images_resp ++
           [{| im_id := hp_id payload;
               im_presigned_url := url;
               im_ttl_seconds := url_ttl p;
               im_page_number := hp_page_number payload;
               im_caption_text := hp_caption_text payload;
               im_alt_text := hp_alt_text payload;
               im_image_mime_type := hp_image_mime_type payload;
               im_s3_key := s3_key;
               im_scores := {| image_score := round6 (r_image_norm r);
                               text_score := round6 (r_text_norm r);
                               fused_score := round6 (r_fused r) |};
               im_embedding_model_name := hp_embedding_model_name payload;
               im_modality := "image" |}])
  | _ => ret images_resp
  end.

(** Step 7: the entry of [text_ctx] for one ranked text hit. *)
Definition text_chunk (r : Ranked) : TextChunk :=
  let payload := payload_of (r_hit r) in
  {| tc_id := hp_id payload;
     tc_chunk_text_preview := hp_chunk_text_preview payload;
     tc_page_number := hp_page_number payload;
     tc_section_id := hp_section_id payload;
     tc_scores := {| text_score := round6 (r_text_norm r);
                     image_score := round6 (r_image_norm r);
                     fused_score := round6 (r_fused r) |};
     tc_embedding_model_name := hp_embedding_model_name payload;
     tc_modality := "text" |}.

Definition make_context (text_ctx : list TextChunk) (images_resp : list ImageItem)
  : Context :=
  {| ctx_text_chunks := text_ctx;
     ctx_images := images_resp;
     ctx_fusion := {| fu_strategy := "weighted_sum";
                      fu_weight_text := lit_0_6;
                      fu_weight_image := lit_0_4;
                      fu_normalized := true |} |}.

(** Steps 6 to 9 of [answer_question], from the two ranked lists. *)
Definition respond (env : Env) (p : t) (question : string)
    (text_rk image_rk : list Ranked) : M Response :=
  images_resp <- foldM (image_item env p) image_rk [] ;;
  let text_ctx := map text_chunk text_rk in
  let context := make_context text_ctx images_resp in
  answer_text <- generate env (answer_generator p) question context ;;
  rid <- call_total EvUuid4 (uuid4_hex env) ;;
  ret {| request_id := rid;
         question := question;
         answer_text := answer_text;
         images := images_resp;
         context := context;
         meta := {| meta_top_k_text := top_k_text p;
                    meta_top_k_image := top_k_image p;
                    meta_collection_text := QdrantRepository.text_collection (qdrant_repo p);
                    meta_collection_image := QdrantRepository.image_collection (qdrant_repo p);
                    meta_dim_text := 1024;
                    meta_dim_image := 768;
                    meta_metric_text := "cosine";
                    meta_metric_image := "cosine";
                    meta_llm := llm_name p |} |}.

(** [_embed_text_for_image_search] *)
Definition _embed_text_for_image_search (env : Env) (question : string) : M (list F64) :=
  ImageEmbeddingService.embed_text_to_image_space env question.

(** Steps 1 and 2 of [answer_question]: the two embeddings, then the
    two searches. *)
Definition retrieve (env : Env) (p : t) (question : string)
  : M (list SearchHit * list SearchHit) :=
  text_vec <- TextEmbeddingService.embed_text env (text_model_name p) question ;;
  image_query_vec <- _embed_text_for_image_search env question ;;
  text_hits <- QdrantRepository.search_text env (qdrant_repo p) text_vec
                 (top_k_text p) None ;;
  image_hits <- QdrantRepository.search_images env (qdrant_repo p) image_query_vec
                  (top_k_image p) None ;;
  ret (text_hits, image_hits).

(** [answer_question] *)
Definition answer_question (env : Env) (p : t) (question : string) : M Response :=
  if negb (nonempty (strip question))
  then raise (mk_exn ValueError "question must be a non-empty string")
  else
    hits <- retrieve env p question ;;
    respond env p question (text_ranked (fst hits)) (image_ranked (snd hits)).

End WithFloats.
End QueryPipeline.

(* ===================================================================== *)
(** * pipelines/ingestion_pipeline.py                                     *)
(* ===================================================================== *)

Module IngestionPipeline.
Section WithFloats.
Context {T : FloatTypes}.

Record t : Type := {
  (** [getattr(self.text_embedder, "_model_name", "text-embedding")] *)
  text_model_name : string;
  qdrant_repo : QdrantRepository.t
}.

Definition text_mismatch_error : exn :=
  mk_exn RuntimeError "Mismatch between text blocks and embeddings count".

Definition image_mismatch_error : exn :=
  mk_exn RuntimeError "Mismatch between image blocks and embeddings count".

(** The test of the [except] clause around the text embeddings. *)
Definition names_api_key (msg : string) : bool :=
  contains "GEMINI_API_KEY" msg || contains "GOOGLE_API_KEY" msg.

(** [[b for b in text_blocks if ... b["text"].strip()]] *)
Definition non_empty_text_blocks (text_blocks : list TextBlock) : list TextBlock :=
  filter (fun b => nonempty (strip (tb_text b))) text_blocks.

Definition or_default (x : option Z) (d : Z) : Z :=
  match x with Some v => v | None => d end.

(** One turn of the loop building the text points. *)
Definition text_point (env : Env) (p : t) (pdf_id : string) (doc_title : option string)
    (text_points : list Point) (bv : TextBlock * list F64) : M (list Point) :=
  let '(b, vec) := bv in
  let page_no := tb_page_number b in
  point_id <- call_total EvUuid4 (uuid4_hex env) ;;
  let chunk_id := String.append "p" (str_of_int page_no) in
  now <- call_total EvNow (now_iso env) ;;
  let payload :=
    Schema.build_text_payload now point_id pdf_id page_no chunk_id
      (take 500 (tb_text b))
      (or_default (tb_char_start b) 0)
      (or_default (tb_char_end b) (Z.of_nat (String.length (tb_text b))))
      (text_model_name p) doc_title None in
  ret (text_points ++ [(point_id, vec, Schema.TextP payload)]).

(** Step 2: the text points of the non-blank pages. *)
Definition text_phase (env : Env) (p : t) (pdf_id : string) (doc_title : option string)
    (text_blocks : list TextBlock) : M (list Point) :=
  let blocks := non_empty_text_blocks text_blocks in
  match blocks with
  | [] => ret []
  | _ =>
      try_except
        (let texts := map tb_text blocks in
         vectors <- call (EvEmbedTexts texts) (fun w => port_embed_texts env w texts) ;;
         if negb (Nat.eqb (List.length vectors) (List.length blocks))
         then raise text_mismatch_error
         else foldM (text_point env p pdf_id doc_title) (combine blocks vectors) [])
        (fun e =>
           let msg := str e in
           if names_api_key msg then ret [] else raise e)
  end.

(** One upload of the loop over the image blocks. *)
Definition upload_one (env : Env) (pdf_id : string) (s3_keys : list string)
    (img : ImageBlock) : M (list string) :=
  s3_key <- call (EvUploadImage (ib_image_bytes img) (ib_mime_type img) pdf_id
                    (ib_page_number img))
                 (fun w => s3_upload_image env w (ib_image_bytes img) (ib_mime_type img)
                             pdf_id (ib_page_number img)) ;;
  ret (s3_keys ++ [s3_key]).

(** One turn of the loop building the image points. *)
Definition image_point (env : Env) (pdf_id : string) (doc_title : option string)
    (image_points : list Point) (x : ImageBlock * (list F64 * string))
  : M (list Point) :=
  let '(img, (vec, s3_key)) := x in
  point_id <- call_total EvUuid4 (uuid4_hex env) ;;
  now <- call_total EvNow (now_iso env) ;;
  let payload :=
    Schema.build_image_payload now point_id pdf_id (ib_page_number img) s3_key
      (ib_mime_type img) (ib_width_px img) (ib_height_px img)
      "openclip-ViT-L-14-openai" None None doc_title None in
  ret (image_points ++ [(point_id, vec, Schema.ImageP payload)]).

(** Step 3: uploads, image embeddings, image points. *)
Definition image_phase (env : Env) (pdf_id : string) (doc_title : option string)
    (image_blocks : list ImageBlock) : M (list Point) :=
  match image_blocks with
  | [] => ret []
  | _ =>
      s3_keys <- foldM (upload_one env pdf_id) image_blocks [] ;;
      let img_bytes_list := map ib_image_bytes image_blocks in
      img_vectors <- call (EvEmbedImages img_bytes_list)
                          (fun w => port_embed_images env w img_bytes_list) ;;
      if negb (Nat.eqb (List.length img_vectors) (List.length image_blocks))
      then raise image_mismatch_error
      else foldM (image_point env pdf_id doc_title)
                 (combine image_blocks (combine img_vectors s3_keys)) []
  end.

(** Step 4: the two batch upserts; an empty batch is not sent. *)
Definition upsert_phase (env : Env) (p : t) (text_points image_points : list Point)
  : M unit :=
  match text_points with
   | [] => ret tt
   | _ => QdrantRepository.upsert_text_points env (qdrant_repo p)
            (QdrantRepository.PointsList text_points)
   end ;;;
  match image_points with
  | [] => ret tt
  | _ => QdrantRepository.upsert_image_points env (qdrant_repo p)
           (QdrantRepository.PointsList image_points)
  end.

(** [ingest_pdf] *)
Definition ingest_pdf (env : Env) (p : t) (pdf_bytes : bytes) (pdf_id : string)
    (doc_title : option string) : M unit :=
  match pdf_id with
  | EmptyString => raise (mk_exn ValueError "pdf_id must be a non-empty string")
  | _ =>
      text_blocks <- call (EvParseText pdf_bytes) (fun w => pdf_parse_text env w pdf_bytes) ;;
      image_blocks <- call (EvParseImages pdf_bytes)
                           (fun w => pdf_parse_images env w pdf_bytes) ;;
      text_points <- text_phase env p pdf_id doc_title text_blocks ;;
      image_points <- image_phase env pdf_id doc_title image_blocks ;;
      upsert_phase env p text_points image_points
  end.

End WithFloats.
End IngestionPipeline.

(* ===================================================================== *)
(** * services/pdf_parser/parser.py                                       *)
(* ===================================================================== *)

Module PDFParser.

(** What PyMuPDF gives for an embedded image: the values under
    ["image"], ["width"], ["height"] and ["ext"] of the dictionary of
    [extract_image]; a value of another type than the code asks for
    ([bytes], [int]) is [None]. *)
Record ImageInfo : Type := {
  ii_image : option bytes;
  ii_width : option Z;
  ii_height : option Z;
  ii_ext : option string
}.

(** A page of an opened document: [get_text("text")], and for each
    entry of [get_images(full=True)] the result of [extract_image],
    [None] when it is empty. *)
Record Page : Type := {
  pg_text : option string;
  pg_images : list (option ImageInfo)
}.

Definition Document : Type := list Page.

(** [for page_index in range(doc.page_count)], with [page_index + 1] *)
Fixpoint numbered (page_number : Z) (doc : Document) : list (Z * Page) :=
  match doc with
  | [] => []
  | pg :: doc' => (page_number, pg) :: numbered (page_number + 1) doc'
  end.

(** [parse_text]; [opened] is the outcome of [fitz.open]. *)
Definition parse_text (opened : result Document) : result (list TextBlock) :=
  match opened with
  | Raise e => Raise e
  | Ok doc =>
      Ok (map (fun '(page_number, pg) =>
                 let text := match pg_text pg with Some t => t | None => "" end in
                 {| tb_page_number := page_number;
                    tb_text := text;
                    tb_char_start := Some 0;
                    tb_char_end := Some (Z.of_nat (String.length text)) |})
              (numbered 1 doc))
  end.

(** [_mime_from_ext] *)
Definition _mime_from_ext (ext : option string) : string :=
  let ext := lower (match ext with Some e => e | None => "" end) in
  if String.eqb ext "jpg" || String.eqb ext "jpeg" then "image/jpeg"
  else if String.eqb ext "png" then "image/png"
  else if String.eqb ext "tiff" || String.eqb ext "tif" then "image/tiff"
  else if String.eqb ext "bmp" then "image/bmp"
  else if String.eqb ext "webp" then "image/webp"
  else String.append "image/" (if nonempty ext then ext else "octet-stream").

(** The body of the loop over the images of a page. *)
Definition image_item (page_number : Z) (img_info : option ImageInfo)
  : list ImageBlock :=
  match img_info with
  | None => []
  | Some info =>
      match ii_image info, ii_width info, ii_height info with
      | Some data, Some width, Some height =>
          if (width <? 64) || (height <? 64) then []
          else [{| ib_page_number := page_number;
                   ib_image_bytes := data;
                   ib_mime_type := _mime_from_ext (ii_ext info);
                   ib_width_px := width;
                   ib_height_px := height |}]
      | _, _, _ => []
      end
  end.

(** [parse_images] *)
Definition parse_images (opened : result Document) : result (list ImageBlock) :=
  match opened with
  | Raise e => Raise e
  | Ok doc =>
      Ok (flat_map (fun '(page_number, pg) =>
                      flat_map (image_item page_number) (pg_images pg))
                   (numbered 1 doc))
  end.

End PDFParser.

(* ===================================================================== *)
(** * services/image_s3/image_store.py                                    *)
(* ===================================================================== *)

Module ImageStore.

Definition BASE_PREFIX : string := "images".

(** The arguments of [put_object]. *)
Record PutObject : Type := {
  po_Bucket : string;
  po_Key : string;
  po_Body : bytes;
  po_ContentType : string;
  po_ACL : string
}.

(** [_mime_to_ext] *)
Definition _mime_to_ext (mime_type : string) : string :=
  let mt := strip (lower mime_type) in
  if String.eqb mt "image/jpeg" || String.eqb mt "image/jpg" then "jpg"
  else if String.eqb mt "image/png" then "png"
  else if String.eqb mt "image/webp" then "webp"
  else if String.eqb mt "image/tiff" || String.eqb mt "image/tif" then "tif"
  else if String.eqb mt "image/bmp" then "bmp"
  else "bin".

(** [f"{BASE_PREFIX}/{pdf_id}/page_{page_number}/{obj_id}.{ext}"] *)
Definition object_key (pdf_id : string) (page_number : Z) (obj_id ext : string)
  : string :=
  String.concat ""
    [BASE_PREFIX; "/"; pdf_id; "/page_"; str_of_int page_number; "/"; obj_id; "."; ext].

(** [upload_image]: the result and the [put_object] calls made.
    [bucket] is [self._bucket], [obj_id] the value of [uuid4().hex] and
    [put_object] the answer of the S3 client. *)
Definition upload_image (bucket obj_id : string)
    (put_object : PutObject -> result unit)
    (image_bytes : bytes) (mime_type pdf_id : string) (page_number : Z)
  : result string * list PutObject :=
  if negb (nonempty mime_type)
  then (Raise (mk_exn ValueError "mime_type must be a non-empty string"), [])
  else if negb (nonempty pdf_id)
  then (Raise (mk_exn ValueError "pdf_id must be a non-empty string"), [])
  else if page_number <? 1
  then (Raise (mk_exn ValueError "page_number must be an integer >= 1"), [])
  else
    let ext := _mime_to_ext mime_type in
    let key := object_key pdf_id page_number obj_id ext in
    let request := {| po_Bucket := bucket; po_Key := key; po_Body := image_bytes;
                      po_ContentType := mime_type; po_ACL := "private" |} in
    match put_object request with
    | Ok _ => (Ok key, [request])
    | Raise e => (Raise e, [request])
    end.

End ImageStore.

(* ===================================================================== *)
(** * api/routes_query.py                                                 *)
(* ===================================================================== *)

Module RoutesQuery.

(** The outcome of a route: the body it returns, or the
    [HTTPException] it raises. *)
Inductive outcome (A : Type) : Type :=
| Returns (body : A)
| HTTPException (status_code : Z) (detail : string).
Arguments Returns {A} body.
Arguments HTTPException {A} status_code detail.

Section WithFloats.
Context {T : FloatTypes} {O : FloatOps} {V : VecOps}.

(** [query]; [constructed] is the outcome of [QueryPipeline()]. *)
Definition query (env : Env) (constructed : result QueryPipeline.t)
    (req_question : string) (w : World) : outcome Response * World :=
  let question := strip req_question in
  if negb (nonempty question)
  then (HTTPException 400 "question must be a non-empty string", w)
  else
    match constructed with
    | Raise e => (HTTPException 500 (str e), w)
    | Ok pipeline =>
        match QueryPipeline.answer_question env pipeline question w with
        | (Ok response, w') => (Returns response, w')
        | (Raise e, w') => (HTTPException 500 (str e), w')
        end
    end.

End WithFloats.
End RoutesQuery.

(* ===================================================================== *)
(** * services/embeddings/text_embeddings.py: the model name              *)
(* ===================================================================== *)

Module TextEmbeddingInit.

(** [s.split("/")[-1]] *)
Fixpoint last_segment (s : string) : string :=
  match s with
  | EmptyString => EmptyString
  | String c s' =>
      if contains "/" s' then last_segment s'
      else if Ascii.eqb c "/" then s'
      else s
  end.

(** The [_model_name] that [__init__] sets; [env_value] is the value of
    [TEXT_EMBEDDING_MODEL_NAME] in the environment, if it is set. *)
Definition _model_name (env_value : option string) : string :=
  let raw_model :=
    match env_value with Some v => v | None => "text-embedding-004" end in
  if contains "/" raw_model then last_segment raw_model else raw_model.

End TextEmbeddingInit.

(* ===================================================================== *)
(** * api/routes_ingestion.py                                             *)
(* ===================================================================== *)

Module RoutesIngestion.
Section WithFloats.
Context {T : FloatTypes}.
Import RoutesQuery.

(** The body [{"pdf_id": pdf_id, "status": "ingested"}]. *)
Record Ingested : Type := {
  body_pdf_id : string;
  body_status : string
}.

(** [file.content_type != "application/pdf"] *)
Definition not_pdf (content_type : option string) : bool :=
  match content_type with
  | Some ct => negb (String.eqb ct "application/pdf")
  | None => true
  end.

(** [ingest_pdf]; [content_type] is [file.content_type], [data] what
    [file.read()] gives and [constructed] the outcome of
    [IngestionPipeline()]. *)
Definition ingest_pdf (env : Env) (constructed : result IngestionPipeline.t)
    (content_type : option string) (data : bytes) (w : World)
  : outcome Ingested * World :=
  if not_pdf content_type
  then (HTTPException 400 "Content-Type must be application/pdf", w)
  else
    match data with
    | [] => (HTTPException 400 "Empty PDF file", w)
    | _ =>
        let pdf_id := uuid4_hex env w in
        let w1 := w ++ [EvUuid4] in
        match constructed with
        | Raise e => (HTTPException 500 (str e), w1)
        | Ok pipeline =>
            match IngestionPipeline.ingest_pdf env pipeline data pdf_id None w1 with
            | (Ok _, w') =>
                (Returns {| body_pdf_id := pdf_id; body_status := "ingested" |}, w')
            | (Raise e, w') => (HTTPException 500 (str e), w')
            end
        end
    end.

End WithFloats.
End RoutesIngestion.

(* ===================================================================== *)
(** * services/image_s3/presigned_urls.py                                 *)
(* ===================================================================== *)

Module PresignedUrls.

(** The variables of the environment that the function reads. *)
Record Environ : Type := {
  AWS_S3_PRESIGNED_URL_TTL_SECONDS : option string;
  AWS_S3_BUCKET : option string;
  S3_BUCKET_NAME : option string
}.

(** The S3 client in use: the one of the region of the bucket, or the
    generic one. *)
Inductive Client : Type := BucketClient | GenericClient.

(** The arguments of [client.generate_presigned_url] for
    [ClientMethod="get_object"]. *)
Record GetObject : Type := {
  gp_Bucket : string;
  gp_Key : string;
  gp_ExpiresIn : Z
}.

(** The collaborators: [int] on a string, the two client factories and
    the signing call. *)
Record S3 : Type := {
  int_of_str : string -> result Z;
  get_s3_client_for_bucket : string -> result unit;
  get_s3_client : result unit;
  client_generate_presigned_url : Client -> GetObject -> result string
}.

(** [x or y] on values of the environment *)
Definition or_else (x y : option string) : option string :=
  match x with
  | Some (String _ _) => x
  | _ => y
  end.

(** [generate_presigned_url]: the result and the signing requests
    made. *)
Definition generate_presigned_url (environ : Environ) (s3 : S3)
    (s3_key : string) (ttl_seconds : option Z)
  : result string * list (Client * GetObject) :=
  let sign ttl :=
    match or_else (AWS_S3_BUCKET environ) (S3_BUCKET_NAME environ) with
    | Some (String c b) =>
        let bucket := String c b in
        let request := {| gp_Bucket := bucket; gp_Key := s3_key; gp_ExpiresIn := ttl |} in
        let go client :=
          (client_generate_presigned_url s3 client request, [(client, request)]) in
        match get_s3_client_for_bucket s3 bucket with
        | Ok _ => go BucketClient
        | Raise _ =>
            match get_s3_client s3 with
            | Ok _ => go GenericClient
            | Raise e => (Raise e, [])
            end
        end
    | _ => (Raise (mk_exn ValueError "AWS_S3_BUCKET is missing"), [])
    end in
  let from_env env_ttl :=
    match int_of_str s3 env_ttl with
    | Ok ttl => sign ttl
    | Raise e => (Raise e, [])
    end in
  match s3_key with
  | EmptyString => (Raise (mk_exn ValueError "s3_key must be a non-empty string"), [])
  | _ =>
      let env_ttl := AWS_S3_PRESIGNED_URL_TTL_SECONDS environ in
      match ttl_seconds with
      | None =>
          match env_ttl with
          | Some (String c t) => from_env (String c t)
          | _ => (Raise (mk_exn ValueError
                           "AWS_S3_PRESIGNED_URL_TTL_SECONDS is missing"), [])
          end
      | Some ttl =>
          if ttl <=? 0 then
            match env_ttl with
            | Some (String c t) => from_env (String c t)
            | _ => (Raise (mk_exn ValueError
                             "ttl_seconds must be a positive integer"), [])
            end
          else sign ttl
      end
  end.

End PresignedUrls.

(* ===================================================================== *)
(** * services/vectordb_qdrant/collections.py                             *)
(* ===================================================================== *)

Module Collections.

Inductive PayloadSchemaType : Type := KEYWORD | INTEGER.

(** The calls on the client after [get_collections]; the distance is
    always [Distance.COSINE]. *)
Inductive Call : Type :=
| create_collection (collection_name : string) (size : Z)
| create_payload_index (collection_name field_name : string)
                       (field_schema : PayloadSchemaType).

(** The calls are made in order until one raises. *)
Fixpoint run (client : list Call -> Call -> result unit) (done todo : list Call)
  : result unit * list Call :=
  match todo with
  | [] => (Ok tt, done)
  | c :: todo' =>
      match client done c with
      | Ok _ => run client (done ++ [c]) todo'
      | Raise e => (Raise e, done ++ [c])
      end
  end.

(** [name not in existing] *)
Definition missing (name : string) (existing : list string) : bool :=
  negb (existsb (String.eqb name) existing).

(** The creation of a collection with its two payload indexes. *)
Definition creation (name : string) (size : Z) : list Call :=
  [create_collection name size;
   create_payload_index name "source_pdf_id" KEYWORD;
   create_payload_index name "page_number" INTEGER].

(** [ensure_collections_exist]: the result and the calls made after
    [get_collections].  [text_name] and [image_name] are the two
    configured names, [text_dim] is
    [int(os.getenv("TEXT_EMBEDDING_DIM", "1024"))], evaluated only when
    the text collection is missing, [existing] the outcome of
    [_existing_collections], and [client] answers a call from the calls
    made before it. *)
Definition ensure_collections_exist (text_name image_name : string)
    (text_dim : result Z) (existing : result (list string))
    (client : list Call -> Call -> result unit) : result unit * list Call :=
  match existing with
  | Raise e => (Raise e, [])
  | Ok existing =>
      let image_part done :=
        if missing image_name existing
        then run client done (creation image_name 768)
        else (Ok tt, done) in
      if missing text_name existing then
        match text_dim with
        | Raise e => (Raise e, [])
        | Ok dim =>
            match run client [] (creation text_name dim) with
            | (Ok _, done) => image_part done
            | (Raise e, done) => (Raise e, done)
            end
        end
      else image_part []
  end.

End Collections.

(* ===================================================================== *)
(** * Vocabulary of the properties                                        *)
(* ===================================================================== *)

Section Vocabulary.
Context {T : FloatTypes}.

(** What a computation returns when it returns, and which calls it
    makes: started in any world, [m] appends calls that satisfy [P],
    and a returned value satisfies [Q]. *)
Definition triple {A} (m : M A) (Q : A -> Prop) (P : event -> Prop) : Prop :=
  forall w, exists evs,
    snd (m w) = w ++ evs /\ Forall P evs /\
    forall a, fst (m w) = Ok a -> Q a.


Definition is_upsert (ev : event) : bool :=
  match ev with EvUpsert _ _ => true | _ => false end.

Definition not_upsert (ev : event) : Prop := is_upsert ev = false.

(** The upsert calls recorded in a world. *)
Definition upserts (w : World) : list event := filter is_upsert w.


(** ** The search negotiation *)

(** The error text is one that [_search] takes for a complaint about
    the spelling of the filter parameter. *)
Definition is_shape_error (e : exn) : bool :=
  QdrantRepository.complains_query_filter (lower (str e))
  || QdrantRepository.complains_filter (lower (str e)).

(** The spelling of the filter parameter to retry with. *)
Definition retry_kw (e : exn) : flt_kw :=
  if QdrantRepository.complains_query_filter (lower (str e))
  then kw_filter else kw_query_filter.

(** The first search method the client has, in the order [_search]
    looks for them. *)
Definition first_method (env : Env) : option method :=
  if client_has env m_search then Some m_search
  else if client_has env m_query_points then Some m_query_points
  else if client_has env m_search_points then Some m_search_points
  else None.

(** The keyword under which a method is first given the vector. *)
Definition primary_kw (m : method) : vec_kw :=
  match m with
  | m_search => kw_query_vector
  | _ => kw_query
  end.

Definition search_call (m : method) (collection : string) (vk : vec_kw)
    (vector : list F64) (top_k : Z) (fk : flt_kw) (flt : option Filter) : SearchCall :=
  {| sc_method := m; sc_collection := collection; sc_vec_kw := vk;
     sc_vector := vector; sc_limit := top_k; sc_flt_kw := fk; sc_filter := flt |}.

(** ** Ranking *)

Context {O : FloatOps}.

(** Hits ordered by raw score, best first. *)
Definition descending (hits : list SearchHit) : Prop :=
  Sorted (fun a b => leb64 (hit_score b) (hit_score a) = true) hits.

Definition monotone (g : F64 -> F64) : Prop :=
  forall x y, leb64 x y = true -> leb64 (g x) (g y) = true.

(** ** Embeddings *)

(** The vector has the dimension of the text collection. *)
Definition full_length (v : list F64) : Prop :=
  List.length v = TextEmbeddingService._expected_dim.

Context {V : VecOps}.




(** ** Answer generation *)

(** The answer model cannot be used, or its call fails or gives no
    text: [w] is the world in which [generate] is entered. *)
Definition generation_unavailable (env : Env) (a : QueryPipeline.AnswerGenerator)
    (question : string) (context : Context) (w : World) : Prop :=
  match a with
  | QueryPipeline.Fallback => True
  | QueryPipeline.Gemini g =>
      let answer :=
        llm_generate_content env w (GeminiAnswerGenerator._model_name g)
          (GeminiAnswerGenerator._build_prompt question context) in
      GeminiAnswerGenerator._genai g = false
      \/ (exists e, answer = Raise e)
      \/ (exists resp, answer = Ok resp /\
            nonempty (strip (GeminiAnswerGenerator.or_empty resp)) = false)
  end.

(** The extractive answer of the generator at hand. *)
Definition fallback_answer (a : QueryPipeline.AnswerGenerator) (question : string)
    (context : Context) : string :=
  match a with
  | QueryPipeline.Fallback => QueryPipeline.fallback_generate question context
  | QueryPipeline.Gemini _ => GeminiAnswerGenerator.extractive_fallback context
  end.

End Vocabulary.

(* ===================================================================== *)
(** * Concrete collaborators and inputs                                   *)
(* ===================================================================== *)

Module Fixtures.
Import IEEE.

(** Collaborators that answer the same whatever the history. *)
Definition env_of
    (text_blocks : result (list TextBlock)) (image_blocks : result (list ImageBlock))
    (text_vectors image_vectors : result (list (list F64)))
    (has : method -> bool) (search : World -> SearchCall -> result (list SearchHit))
    (api_key : option string) (embedding : result (option (list F64)))
    (clip : result (list (list F32))) (llm : result (option string)) : Env :=
  {| pdf_parse_text := fun _ _ => text_blocks;
     pdf_parse_images := fun _ _ => image_blocks;
     port_embed_texts := fun _ _ => text_vectors;
     port_embed_images := fun _ _ => image_vectors;
     s3_upload_image := fun _ _ _ _ _ => Ok "images/doc/page_1/0.png";
     uuid4_hex := fun _ => "00000000000000000000000000000000";
     now_iso := fun _ => "2025-01-01T00:00:00Z";
     client_has := has;
     client_search := search;
     client_upsert := fun _ _ _ => Ok tt;
     gemini_api_key := api_key;
     gemini_embed_content := fun _ _ _ => embedding;
     clip_encode_text := fun _ _ => clip;
     s3_presign := fun _ _ _ => Ok "https://s3/signed";
     llm_generate_content := fun _ _ _ => llm |}.

Definition every_method (m : method) : bool := true.

Definition only_search (m : method) : bool :=
  match m with m_search => true | _ => false end.

Definition only_query_points (m : method) : bool :=
  match m with m_query_points => true | _ => false end.

Definition quiet : Env :=
  env_of (Ok []) (Ok []) (Ok []) (Ok []) every_method (fun _ _ => Ok [])
         (Some "key") (Ok (Some [f_1])) (Ok [[narrow f_1]]) (Ok (Some "answer")).

Definition repo : QdrantRepository.t :=
  {| QdrantRepository.text_collection := "text_chunks";
     QdrantRepository.image_collection := "images" |}.

(** ** Scores and hits *)

Definition s_0_9 : F64 := dec 9 10.
Definition s_0_5 : F64 := dec 5 10.

Definition s_0_10000001 : F64 := dec 10000001 100000000.
Definition s_0_1 : F64 := dec 1 10.

(** [1.0000000596046483] and [0.6000000357627889] *)
Definition above_one : F64 := S754_finite false 4503599895805968 (-52).
Definition above_weight : F64 := S754_finite false 5404319874967161 (-53).

(** [1.1421772800385952], [-0.19999999925494194],
    [0.6853063680231571] and [-0.11999999955296516] *)
Definition n_1_142 : F64 := S754_finite false 5143909172772864 (-52).
Definition n_m0_2 : F64 := S754_finite true 7205759376949248 (-55).
Definition f_0_685 : F64 := S754_finite false 6172691007327437 (-53).
Definition f_m0_12 : F64 := S754_finite true 8646911252339097 (-56).

Definition text_hit (id : string) (score : F64) (preview : string) : SearchHit :=
  {| hit_id := id; hit_score := score;
     hit_payload :=
       Some {| hp_id := Some id; hp_chunk_text_preview := Some preview;
               hp_page_number := Some 1; hp_section_id := None;
               hp_image_s3_key := None; hp_image_mime_type := None;
               hp_caption_text := None; hp_alt_text := None;
               hp_embedding_model_name := Some "text-embedding-004" |} |}.

(** Hits with the raw scores [0.9, 0.5, 0.5]. *)
Definition three_hits : list SearchHit :=
  [text_hit "a" s_0_9 "Revenue grew 12%.";
   text_hit "b" s_0_5 "Costs fell.";
   text_hit "c" s_0_5 "Margins were flat."].

(** Two hits with the close raw scores [0.10000001, 0.1]. *)
Definition close_hits : list SearchHit :=
  [text_hit "a" s_0_10000001 "Revenue grew 12%.";
   text_hit "b" s_0_1 "Costs fell."].

(** ** Points *)

Definition a_text_payload : Schema.Payload :=
  Schema.TextP (Schema.build_text_payload "2025-01-01T00:00:00Z" "p0" "doc" 1 "p1"
                  "Revenue grew 12%." 0 17 "text-embedding-004" None None).

(** A point whose vector has three entries. *)
Definition short_point : Point := ("p0", [f_1; f_0; f_0], a_text_payload).

(** ** Documents *)

Definition two_pages : list TextBlock :=
  [{| tb_page_number := 1; tb_text := "Revenue grew 12%.";
      tb_char_start := Some 0; tb_char_end := Some 17 |};
   {| tb_page_number := 2; tb_text := "Costs fell.";
      tb_char_start := Some 0; tb_char_end := Some 11 |}].

Definition one_image : list ImageBlock :=
  [{| ib_page_number := 1; ib_image_bytes := [Byte.x89; Byte.x50];
      ib_mime_type := "image/png"; ib_width_px := 64; ib_height_px := 64 |}].

Definition ingestion : IngestionPipeline.t :=
  {| IngestionPipeline.text_model_name := "text-embedding-004";
     IngestionPipeline.qdrant_repo := repo |}.

(** Two pages, one vector back. *)
Definition env_one_vector_short : Env :=
  env_of (Ok two_pages) (Ok []) (Ok [[f_1]]) (Ok []) every_method (fun _ _ => Ok [])
         (Some "key") (Ok (Some [f_1])) (Ok [[narrow f_1]]) (Ok (Some "answer")).

(** No text, one image, no image vector back. *)
Definition env_no_image_vector : Env :=
  env_of (Ok []) (Ok one_image) (Ok []) (Ok []) every_method (fun _ _ => Ok [])
         (Some "key") (Ok (Some [f_1])) (Ok [[narrow f_1]]) (Ok (Some "answer")).

(** The text embedder fails for want of an API key. *)
Definition env_no_key : Env :=
  env_of (Ok two_pages) (Ok one_image)
         (Raise TextEmbeddingService.missing_key_error) (Ok [[f_1]])
         every_method (fun _ _ => Ok [])
         None (Ok (Some [f_1])) (Ok [[narrow f_1]]) (Ok (Some "answer")).

(** ** Queries *)

Definition a_question : string := "What was revenue growth?".

Definition pipeline (a : QueryPipeline.AnswerGenerator) : QueryPipeline.t :=
  {| QueryPipeline.text_model_name := "text-embedding-004";
     QueryPipeline.qdrant_repo := repo;
     QueryPipeline.top_k_text := 5;
     QueryPipeline.top_k_image := 5;
     QueryPipeline.url_ttl := 900;
     QueryPipeline.answer_generator := a;
     QueryPipeline.llm_name := "gemini-model" |}.

Definition gemini_up : QueryPipeline.AnswerGenerator :=
  QueryPipeline.Gemini
    {| GeminiAnswerGenerator._model_name := "gemini-1.5-flash";
       GeminiAnswerGenerator._genai := true |}.

(** The text collection answers with one hit, the image collection
    with none. *)
Definition one_text_hit (w : World) (c : SearchCall) : result (list SearchHit) :=
  if String.eqb (sc_collection c) "text_chunks"
  then Ok [text_hit "a" s_0_9 "  Revenue grew 12%.  "]
  else Ok [].

(** The text collection answers with the two close hits. *)
Definition two_close_hits (w : World) (c : SearchCall) : result (list SearchHit) :=
  if String.eqb (sc_collection c) "text_chunks" then Ok close_hits else Ok [].

Definition env_close_hits : Env :=
  env_of (Ok []) (Ok []) (Ok []) (Ok []) every_method two_close_hits
         (Some "key") (Ok (Some [f_1; f_0])) (Ok [[narrow f_1; narrow f_0]])
         (Ok (Some "Revenue grew 12%.")).

(** The score triples of the text chunks of a response. *)
Definition text_scores_of (r : result Response) : list Scores :=
  match r with
  | Ok resp => map tc_scores (ctx_text_chunks (context resp))
  | Raise _ => []
  end.

Definition network_error : exn :=
  mk_exn (OtherError "ResponseHandlingException") "[Errno 104] Connection reset by peer".

(** Retrieval works, the answer model is down. *)
Definition env_llm_down : Env :=
  env_of (Ok []) (Ok []) (Ok []) (Ok []) every_method one_text_hit
         (Some "key") (Ok (Some [f_1; f_0])) (Ok [[narrow f_1; narrow f_0]])
         (Raise network_error).


(** The CLIP encoder returns a zero row among others. *)
Definition env_clip_zero_row : Env :=
  env_of (Ok []) (Ok []) (Ok []) (Ok []) every_method one_text_hit
         (Some "key") (Ok (Some [f_1]))
         (Ok [[narrow f_0; narrow f_0]; [narrow f_1; narrow f_0]])
         (Ok (Some "answer")).

(** ** Clients *)

Definition unexpected_query_filter : exn :=
  mk_exn TypeError "QdrantClient.search() got an unexpected keyword argument 'query_filter'".

(** A client that has [search] and knows the filter as [filter]
    only. *)
Definition search_wants_filter (w : World) (c : SearchCall) : result (list SearchHit) :=
  match sc_flt_kw c with
  | kw_query_filter => Raise unexpected_query_filter
  | kw_filter => Ok three_hits
  end.

Definition env_old_client : Env :=
  env_of (Ok []) (Ok []) (Ok []) (Ok []) only_search search_wants_filter
         (Some "key") (Ok (Some [f_1])) (Ok [[narrow f_1]]) (Ok (Some "answer")).

(** A client that has [query_points] only: [query_filter] is unknown to
    it, the call with [query] and [filter] meets a network failure, and
    the call with [vector] and [filter] goes through. *)
Definition query_points_flaky (w : World) (c : SearchCall) : result (list SearchHit) :=
  match sc_vec_kw c, sc_flt_kw c with
  | _, kw_query_filter => Raise unexpected_query_filter
  | kw_vector, kw_filter => Ok three_hits
  | _, kw_filter => Raise network_error
  end.

Definition env_flaky_client : Env :=
  env_of (Ok []) (Ok []) (Ok []) (Ok []) only_query_points query_points_flaky
         (Some "key") (Ok (Some [f_1])) (Ok [[narrow f_1]]) (Ok (Some "answer")).

End Fixtures.

Module RndFixtures.
Import Rnd.
Local Open Scope Q_scope.

Definition hit_of (id : string) (score : Q) : SearchHit :=
  {| hit_id := id; hit_score := r64 score; hit_payload := None |}.

(** Hits with the raw scores [0.9, 0.5, 0.5]. *)
Definition three_hits : list SearchHit :=
  [hit_of "a" (9 # 10); hit_of "b" (5 # 10); hit_of "c" (5 # 10)].

End RndFixtures.

(* ===================================================================== *)
(** * Vocabulary of the further properties                                *)
(* ===================================================================== *)

Section ResponseVocabulary.
Context {T : FloatTypes} {O : FloatOps}.

(** The storage key of a ranked image hit: the non-empty value under
    ["image_s3_key"] of its payload, if there is one. *)
Definition storage_key (r : QueryPipeline.Ranked) : option string :=
  match hp_image_s3_key (QueryPipeline.payload_of (QueryPipeline.r_hit r)) with
  | Some (String c k) => Some (String c k)
  | _ => None
  end.

Definition storage_keys (l : list QueryPipeline.Ranked) : list string :=
  flat_map (fun r => match storage_key r with Some k => [k] | None => [] end) l.

(** The request for a URL of the object [k], with the time to live of
    the pipeline. *)
Definition presign_call (p : QueryPipeline.t) (k : string) : event :=
  EvPresign k (QueryPipeline.url_ttl p).

(** The scores reported for a ranked hit: each rounded to six
    decimals. *)
Definition reported_scores (r : QueryPipeline.Ranked) : Scores :=
  {| text_score := round6 (QueryPipeline.r_text_norm r);
     image_score := round6 (QueryPipeline.r_image_norm r);
     fused_score := round6 (QueryPipeline.r_fused r) |}.

(** The response entry [it] describes the ranked image hit [r]. *)
Definition describes_image (p : QueryPipeline.t) (r : QueryPipeline.Ranked)
    (it : ImageItem) : Prop :=
  storage_key r = Some (im_s3_key it)
  /\ im_scores it = reported_scores r
  /\ im_id it = hp_id (QueryPipeline.payload_of (QueryPipeline.r_hit r))
  /\ im_ttl_seconds it = QueryPipeline.url_ttl p
  /\ im_modality it = "image".

End ResponseVocabulary.

Section SearchVocabulary.
Context {T : FloatTypes}.

(** A call of the method [m] that carries the arguments of the
    search. *)
Definition carries_arguments (m : method) (collection : string) (vector : list F64)
    (top_k : Z) (flt : option Filter) (c : SearchCall) : Prop :=
  sc_method c = m /\ sc_collection c = collection /\ sc_vector c = vector
  /\ sc_limit c = top_k /\ sc_filter c = flt.

End SearchVocabulary.

Section IngestionVocabulary.
Context {T : FloatTypes}.

(** The identifier and the timestamp drawn for each point. *)
Definition draws {A} (l : list A) : list event :=
  flat_map (fun _ => [EvUuid4; EvNow]) l.

(** The upload of an extracted image. *)
Definition upload_call (pdf_id : string) (img : ImageBlock) : event :=
  EvUploadImage (ib_image_bytes img) (ib_mime_type img) pdf_id (ib_page_number img).

Definition point_id (pt : Point) : string := fst (fst pt).
Definition point_vector (pt : Point) : list F64 := snd (fst pt).
Definition point_payload (pt : Point) : Schema.Payload := snd pt.

(** The point [pt] describes the page [b] of the document. *)
Definition describes_page (p : IngestionPipeline.t) (pdf_id : string)
    (doc_title : option string) (b : TextBlock) (pt : Point) : Prop :=
  exists tp,
    point_payload pt = Schema.TextP tp
    /\ Schema.tp_id tp = point_id pt
    /\ Schema.tp_source_pdf_id tp = pdf_id
    /\ Schema.tp_page_number tp = tb_page_number b
    /\ Schema.tp_chunk_id tp = String.append "p" (str_of_int (tb_page_number b))
    /\ Schema.tp_chunk_text_preview tp = take 500 (tb_text b)
    /\ (String.length (Schema.tp_chunk_text_preview tp) <= 500)%nat
    /\ Schema.tp_embedding_model_name tp = IngestionPipeline.text_model_name p
    /\ Schema.tp_doc_title tp = doc_title.

(** The point [pt] describes the image [img] stored under [key]. *)
Definition describes_picture (pdf_id : string) (doc_title : option string)
    (img : ImageBlock) (key : string) (pt : Point) : Prop :=
  exists ip,
    point_payload pt = Schema.ImageP ip
    /\ Schema.ip_id ip = point_id pt
    /\ Schema.ip_source_pdf_id ip = pdf_id
    /\ Schema.ip_page_number ip = ib_page_number img
    /\ Schema.ip_image_s3_key ip = key
    /\ Schema.ip_image_mime_type ip = ib_mime_type img
    /\ Schema.ip_width_px ip = ib_width_px img
    /\ Schema.ip_height_px ip = ib_height_px img
    /\ Schema.ip_doc_title ip = doc_title.

(** At most one upsert per collection, the text collection first, and
    never an empty batch. *)
Definition batch_upserts (repo : QdrantRepository.t) (ups : list event) : Prop :=
  exists text_points image_points,
    ups =
    match text_points with
    | [] => []
    | _ => [EvUpsert (QdrantRepository.text_collection repo) text_points]
    end ++
    match image_points with
    | [] => []
    | _ => [EvUpsert (QdrantRepository.image_collection repo) image_points]
    end.

(** The run of [m] from [w] writes to the vector database last: its
    calls are calls other than upserts followed by the batch upserts,
    and once an upsert has been made the run can only fail by the
    failure of its last upsert. *)
Definition writes_last {A} (env : Env) (repo : QdrantRepository.t) (m : M A) (w : World)
  : Prop :=
  exists pre ups,
    snd (m w) = w ++ pre ++ ups
    /\ Forall not_upsert pre
    /\ batch_upserts repo ups
    /\ forall e, fst (m w) = Raise e ->
         ups = []
         \/ exists before collection points,
              w ++ pre ++ ups = before ++ [EvUpsert collection points]
              /\ client_upsert env before collection points = Raise e.

End IngestionVocabulary.

Section QueryVocabulary.
Context {T : FloatTypes}.


End QueryVocabulary.

Module IEEEVocabulary.

(** The float is a number: neither NaN nor an infinity. *)
Definition finite_float (x : spec_float) : bool :=
  match x with
  | S754_zero _ | S754_finite _ _ _ => true
  | _ => false
  end.

End IEEEVocabulary.

Module MoreFixtures.
Import IEEE.
Import Fixtures.

(** Two pages, two vectors back. *)
Definition env_two_vectors : Env :=
  env_of (Ok two_pages) (Ok []) (Ok [[f_1]; [f_0; f_1]]) (Ok []) every_method
         (fun _ _ => Ok [])
         (Some "key") (Ok (Some [f_1])) (Ok [[narrow f_1]]) (Ok (Some "answer")).

(** A document of one page that holds white space only. *)
Definition blank_page : list TextBlock :=
  [{| tb_page_number := 1; tb_text := String.append " " nl;
      tb_char_start := Some 0; tb_char_end := Some 2 |}].

Definition env_blank_document : Env :=
  env_of (Ok blank_page) (Ok []) (Ok []) (Ok []) every_method (fun _ _ => Ok [])
         (Some "key") (Ok (Some [f_1])) (Ok [[narrow f_1]]) (Ok (Some "answer")).

(** One image, one vector back. *)
Definition env_one_image : Env :=
  env_of (Ok []) (Ok one_image) (Ok []) (Ok [[f_1]]) every_method (fun _ _ => Ok [])
         (Some "key") (Ok (Some [f_1])) (Ok [[narrow f_1]]) (Ok (Some "answer")).

End MoreFixtures.

Module FailureFixtures.
Import IEEE.
Import Fixtures.

(** The embedding request is refused for quota; the text of the error
    names the variable that holds the key. *)
Definition quota_error : exn :=
  mk_exn (OtherError "ClientError")
    "429 RESOURCE_EXHAUSTED. Quota exceeded for the key in GEMINI_API_KEY.".

(** The collaborators of a text embedding service that has its key and
    whose requests are refused. *)
Definition service_over_quota : Env :=
  env_of (Ok two_pages) (Ok one_image) (Ok []) (Ok [[f_1]])
         every_method (fun _ _ => Ok [])
         (Some "key") (Raise quota_error) (Ok [[narrow f_1]]) (Ok (Some "answer")).

(** The same collaborators, with that service as the text embedder of
    the ingestion pipeline. *)
Definition env_over_quota : Env :=
  {| pdf_parse_text := pdf_parse_text service_over_quota;
     pdf_parse_images := pdf_parse_images service_over_quota;
     port_embed_texts :=
       fun w texts =>
         fst (TextEmbeddingService.embed_texts service_over_quota
                "text-embedding-004" texts w);
     port_embed_images := port_embed_images service_over_quota;
     s3_upload_image := s3_upload_image service_over_quota;
     uuid4_hex := uuid4_hex service_over_quota;
     now_iso := now_iso service_over_quota;
     client_has := client_has service_over_quota;
     client_search := client_search service_over_quota;
     client_upsert := client_upsert service_over_quota;
     gemini_api_key := gemini_api_key service_over_quota;
     gemini_embed_content := gemini_embed_content service_over_quota;
     clip_encode_text := clip_encode_text service_over_quota;
     s3_presign := s3_presign service_over_quota;
     llm_generate_content := llm_generate_content service_over_quota |}.

(** The server refuses the filter itself; the text of the error names
    the parameter, and does not call it unknown or unexpected. *)
Definition refused_filter_error : exn :=
  mk_exn UnexpectedResponse
    "Unexpected Response: 400 (Bad Request). Format error in query_filter: key must be a string".

Definition unexpected_filter : exn :=
  mk_exn TypeError "QdrantClient.search() got an unexpected keyword argument 'filter'".

(** A client that has [search] and knows the filter as [query_filter]
    only, with a server that refuses the filter. *)
Definition search_refuses_filter (w : World) (c : SearchCall)
  : result (list SearchHit) :=
  match sc_flt_kw c with
  | kw_query_filter => Raise refused_filter_error
  | kw_filter => Raise unexpected_filter
  end.

Definition env_refused_filter : Env :=
  env_of (Ok []) (Ok []) (Ok []) (Ok []) only_search search_refuses_filter
         (Some "key") (Ok (Some [f_1])) (Ok [[narrow f_1]]) (Ok (Some "answer")).

(** [1e39]: a Python float beyond the float32 range. *)
Definition beyond_float32 : F64 := b64_of_Z (10 ^ 39).



(** A Qdrant client on which the second call after [get_collections]
    fails. *)
Definition second_call_fails (done : list Collections.Call) (c : Collections.Call)
  : result unit :=
  match done with
  | [_] => Raise network_error
  | _ => Ok tt
  end.

End FailureFixtures.

Section CollectionsVocabulary.

(** The collection that a call is about. *)
Definition collection_of (c : Collections.Call) : string :=
  match c with
  | Collections.create_collection name _ => name
  | Collections.create_payload_index name _ _ => name
  end.

(** The creation of the collection [name] with vectors of [size]
    dimensions, followed by its two payload indexes, unless the name is
    among [existing]. *)
Definition created_if_missing (name : string) (size : Z) (existing : list string)
  : list Collections.Call :=
  if existsb (String.eqb name) existing then []
  else [Collections.create_collection name size;
        Collections.create_payload_index name "source_pdf_id" Collections.KEYWORD;
        Collections.create_payload_index name "page_number" Collections.INTEGER].

(** The calls that [ensure_collections_exist] has to make when the
    collections [existing] exist: the text collection first, then the
    image collection with its 768 dimensions. *)
Definition creations (text_name image_name : string) (text_dim : Z)
    (existing : list string) : list Collections.Call :=
  created_if_missing text_name text_dim existing
  ++ created_if_missing image_name 768 existing.

End CollectionsVocabulary.

(* ===================================================================== *)
(** * Rounding is monotone                                                *)
(* ===================================================================== *)

Section RndProofs.
Import Rnd.
Local Open Scope Q_scope.

Lemma pow2_pos e : 0 < pow2 e.
Proof. apply Qpower_0_lt. reflexivity. Qed.

Lemma pow2_le a b : (a <= b)%Z -> pow2 a <= pow2 b.
Proof. intros H. apply Qpower_le_compat_l; [exact H | discriminate]. Qed.

Lemma pow2_lt_inv a b : pow2 a < pow2 b -> (a < b)%Z.
Proof. intros H. apply (Qpower_lt_compat_l_inv 2); [exact H | reflexivity]. Qed.

Lemma pow2_add a b : pow2 (a + b) == pow2 a * pow2 b.
Proof. apply Qpower_plus. discriminate. Qed.

Lemma pow2_Z n : (0 <= n)%Z -> pow2 n == inject_Z (2 ^ n).
Proof. intros H. unfold pow2. rewrite Zpower_Qpower by exact H. reflexivity. Qed.

(** Division by a power of two, as an inequality on products. *)
Lemma div_pow2_le x y e : x <= y * pow2 e -> x / pow2 e <= y.
Proof.
  intros H. apply Qle_shift_div_r; [apply pow2_pos | exact H].
Qed.

Lemma le_div_pow2 x y e : y * pow2 e <= x -> y <= x / pow2 e.
Proof.
  intros H. apply Qle_shift_div_l; [apply pow2_pos | exact H].
Qed.

Lemma lt_div_pow2 x y e : x < y * pow2 e -> x / pow2 e < y.
Proof.
  intros H. apply Qlt_shift_div_r; [apply pow2_pos | exact H].
Qed.

Lemma ilog2_spec q : 0 < q -> pow2 (ilog2 q) <= q /\ q < pow2 (ilog2 q + 1).
Proof.
  intros Hq. destruct q as [n d]. unfold ilog2. cbn [Qnum Qden].
  assert (Hn : (0 < n)%Z).
  { unfold Qlt in Hq. cbn in Hq. lia. }
  set (a := Z.log2 n). set (b := Z.log2 (Zpos d)).
  assert (Ha : (2 ^ a <= n < 2 ^ (a + 1))%Z).
  { pose proof (Z.log2_spec n Hn). unfold a. rewrite <- Z.add_1_r in H. lia. }
  assert (Hb : (2 ^ b <= Zpos d < 2 ^ (b + 1))%Z).
  { pose proof (Z.log2_spec (Zpos d) ltac:(lia)). unfold b. rewrite <- Z.add_1_r in H. lia. }
  assert (Ha0 : (0 <= a)%Z) by apply Z.log2_nonneg.
  assert (Hb0 : (0 <= b)%Z) by apply Z.log2_nonneg.
  assert (Hnd : n # d == inject_Z n / inject_Z (Zpos d)) by apply Qmake_Qdiv.
  assert (Hdpos : 0 < inject_Z (Zpos d)) by reflexivity.
  (* bounds on n and d as rationals *)
  assert (Hn1 : pow2 a <= inject_Z n).
  { rewrite pow2_Z by lia. rewrite <- Zle_Qle. lia. }
  assert (Hn2 : inject_Z n < pow2 (a + 1)).
  { rewrite pow2_Z by lia. rewrite <- Zlt_Qlt. lia. }
  assert (Hd1 : pow2 b <= inject_Z (Zpos d)).
  { rewrite pow2_Z by lia. rewrite <- Zle_Qle. lia. }
  assert (Hd2 : inject_Z (Zpos d) < pow2 (b + 1)).
  { rewrite pow2_Z by lia. rewrite <- Zlt_Qlt. lia. }
  (* q < 2^(a-b+1) and 2^(a-b-1) < q *)
  assert (Hup : n # d < pow2 (a - b + 1)).
  { rewrite Hnd. apply Qlt_shift_div_r; [exact Hdpos|].
    apply Qlt_le_trans with (pow2 (a + 1)); [exact Hn2|].
    replace (a + 1)%Z with ((a - b + 1) + b)%Z by lia.
    rewrite pow2_add. apply Qmult_le_l; [apply pow2_pos | exact Hd1]. }
  assert (Hlo : pow2 (a - b - 1) <= n # d).
  { rewrite Hnd. apply Qle_shift_div_l; [exact Hdpos|].
    apply Qle_trans with (pow2 a); [|exact Hn1].
    replace a with ((a - b - 1) + (b + 1))%Z at 2 by lia.
    rewrite pow2_add. apply Qmult_le_l; [apply pow2_pos | apply Qlt_le_weak; exact Hd2]. }
  destruct (Qle_bool (pow2 (a - b)) (n # d)) eqn:E.
  - apply Qle_bool_iff in E. split; [exact E | exact Hup].
  - split; [exact Hlo|].
    replace (a - b - 1 + 1)%Z with (a - b)%Z by lia.
    apply Qnot_le_lt. intros H. apply Qle_bool_iff in H. congruence.
Qed.

Lemma ilog2_mono x y : 0 < x -> x <= y -> (ilog2 x <= ilog2 y)%Z.
Proof.
  intros Hx Hxy.
  destruct (ilog2_spec x Hx) as [H1 _].
  destruct (ilog2_spec y (Qlt_le_trans _ _ _ Hx Hxy)) as [_ H2].
  assert (pow2 (ilog2 x) < pow2 (ilog2 y + 1)).
  { eapply Qle_lt_trans; [exact H1|]. eapply Qle_lt_trans; [exact Hxy | exact H2]. }
  apply pow2_lt_inv in H. lia.
Qed.

(** ** Rounding to the nearest integer *)

Lemma rne_floor q : (Qfloor q <= rne q <= Qfloor q + 1)%Z.
Proof.
  unfold rne. destruct (Qcompare _ _); [destruct (Z.even _)| |]; lia.
Qed.

Lemma rne_up q : 1 # 2 < q - inject_Z (Qfloor q) -> rne q = (Qfloor q + 1)%Z.
Proof.
  intros H. unfold rne. apply Qgt_alt in H. rewrite H. reflexivity.
Qed.

Lemma rne_mono x y : x <= y -> (rne x <= rne y)%Z.
Proof.
  intros Hxy.
  pose proof (Qfloor_resp_le _ _ Hxy) as Hf.
  pose proof (rne_floor x) as Hx. pose proof (rne_floor y) as Hy.
  destruct (Z.eq_dec (Qfloor x) (Qfloor y)) as [E | NE]; [|lia].
  unfold rne. rewrite <- E.
  assert (Hr : x - inject_Z (Qfloor x) <= y - inject_Z (Qfloor x)) by lra.
  destruct (Qcompare_spec (x - inject_Z (Qfloor x)) (1 # 2)) as [H1|H1|H1];
    destruct (Qcompare_spec (y - inject_Z (Qfloor x)) (1 # 2)) as [H2|H2|H2];
    try (destruct (Z.even (Qfloor x))); try lia; lra.
Qed.

Lemma rne_Z z : rne (inject_Z z) = z.
Proof.
  unfold rne. rewrite Qfloor_Z.
  destruct (Qcompare_spec (inject_Z z - inject_Z z) (1 # 2)) as [H|H|H]; try reflexivity; lra.
Qed.


(** ** Rounding to the format *)

Section Round.
Variables prec emin : Z.
Hypothesis prec_pos : (1 <= prec)%Z.

Lemma round_pos_nonneg x : 0 <= x -> 0 <= round_pos prec emin x.
Proof.
  intros Hx. unfold round_pos.
  apply Qmult_le_0_compat; [|apply Qlt_le_weak, pow2_pos].
  change 0 with (inject_Z 0). rewrite <- Zle_Qle.
  rewrite <- (rne_Z 0). apply rne_mono.
  apply le_div_pow2. change (inject_Z 0) with 0. rewrite Qmult_0_l. exact Hx.
Qed.

Lemma round_pos_zero x : x <= 0 -> round_pos prec emin x <= 0.
Proof.
  intros Hx. unfold round_pos.
  set (e := cexp prec emin x).
  assert (H : (rne (x / pow2 e) <= 0)%Z).
  { rewrite <- (rne_Z 0). apply rne_mono. apply div_pow2_le. change (inject_Z 0) with 0. rewrite Qmult_0_l. exact Hx. }
  rewrite Zle_Qle in H. pose proof (pow2_pos e) as Hp.
  clearbody e. revert H Hp. generalize (inject_Z (rne (x / pow2 e))), (pow2 e). intros a b. change (inject_Z 0) with 0. nra.
Qed.

Lemma round_pos_upper x :
  0 < x -> round_pos prec emin x <= pow2 (cexp prec emin x + prec).
Proof.
  intros Hx. unfold round_pos. set (e := cexp prec emin x).
  destruct (ilog2_spec x Hx) as [_ Hu].
  assert (He : (ilog2 x + 1 <= e + prec)%Z) by (unfold e, cexp; lia).
  assert (H : (rne (x / pow2 e) <= 2 ^ prec)%Z).
  { rewrite <- (rne_Z (2 ^ prec)). apply rne_mono. apply div_pow2_le.
    rewrite <- pow2_Z by lia. rewrite <- pow2_add.
    apply Qlt_le_weak. eapply Qlt_le_trans; [exact Hu|]. apply pow2_le. lia. }
  rewrite Zle_Qle in H. rewrite <- pow2_Z in H by lia.
  rewrite (Z.add_comm e prec), pow2_add.
  apply Qmult_le_compat_r; [exact H | apply Qlt_le_weak, pow2_pos].
Qed.

Lemma round_pos_lower x :
  0 < x -> (emin < cexp prec emin x)%Z ->
  pow2 (cexp prec emin x + prec - 1) <= round_pos prec emin x.
Proof.
  intros Hx Hmin. unfold round_pos. set (e := cexp prec emin x) in *.
  destruct (ilog2_spec x Hx) as [Hl _].
  assert (He : (ilog2 x = e + prec - 1)%Z) by (unfold e, cexp in *; lia).
  assert (H : (2 ^ (prec - 1) <= rne (x / pow2 e))%Z).
  { rewrite <- (rne_Z (2 ^ (prec - 1))). apply rne_mono. apply le_div_pow2.
    rewrite <- pow2_Z by lia. rewrite <- pow2_add.
    replace (prec - 1 + e)%Z with (ilog2 x) by lia. exact Hl. }
  rewrite Zle_Qle in H. rewrite <- pow2_Z in H by lia.
  replace (e + prec - 1)%Z with ((prec - 1) + e)%Z by lia. rewrite pow2_add.
  apply Qmult_le_compat_r; [exact H | apply Qlt_le_weak, pow2_pos].
Qed.

Lemma round_pos_mono x y :
  0 <= x -> x <= y -> round_pos prec emin x <= round_pos prec emin y.
Proof.
  intros Hx Hxy.
  destruct (Qlt_le_dec 0 x) as [Hpos | Hzero].
  2:{ apply Qle_trans with 0; [apply round_pos_zero; exact Hzero|].
      apply round_pos_nonneg. lra. }
  assert (Hy : 0 < y) by lra.
  pose proof (ilog2_mono x y Hpos Hxy) as Hlog.
  assert (He : (cexp prec emin x <= cexp prec emin y)%Z) by (unfold cexp; lia).
  destruct (Z.eq_dec (cexp prec emin x) (cexp prec emin y)) as [E | NE].
  - unfold round_pos. rewrite <- E. set (e := cexp prec emin x).
    assert (H : (rne (x / pow2 e) <= rne (y / pow2 e))%Z).
    { apply rne_mono. apply Qmult_le_compat_r; [exact Hxy|].
      apply Qlt_le_weak, Qinv_lt_0_compat, pow2_pos. }
    rewrite Zle_Qle in H.
    apply Qmult_le_compat_r; [exact H | apply Qlt_le_weak, pow2_pos].
  - apply Qle_trans with (pow2 (cexp prec emin x + prec));
      [apply round_pos_upper; exact Hpos|].
    apply Qle_trans with (pow2 (cexp prec emin y + prec - 1)).
    + apply pow2_le. lia.
    + apply round_pos_lower; [exact Hy|]. unfold cexp in *. lia.
Qed.

Lemma round_mono x y : x <= y -> round prec emin x <= round prec emin y.
Proof.
  intros Hxy. unfold round.
  destruct (Qle_bool 0 x) eqn:Ex; destruct (Qle_bool 0 y) eqn:Ey.
  - apply Qle_bool_iff in Ex. apply round_pos_mono; assumption.
  - apply Qle_bool_iff in Ex.
    assert (0 <= y) by lra. apply Qle_bool_iff in H. congruence.
  - assert (Hx : x < 0).
    { apply Qnot_le_lt. intros H. apply Qle_bool_iff in H. congruence. }
    apply Qle_bool_iff in Ey.
    pose proof (round_pos_nonneg (- x) ltac:(lra)).
    pose proof (round_pos_nonneg y Ey). lra.
  - assert (Hy : y < 0).
    { apply Qnot_le_lt. intros H. apply Qle_bool_iff in H. congruence. }
    pose proof (round_pos_mono (- y) (- x) ltac:(lra) ltac:(lra)). lra.
Qed.

End Round.

Lemma r64_mono x y : x <= y -> r64 x <= r64 y.
Proof. apply round_mono. lia. Qed.

Lemma Rnd_laws : FloatLaws Rnd.ops.
Proof.
  constructor;
    cbv beta iota delta [leb64 ltb64 sub64 div64 mul64 add64 lit_0 lit_0_6 lit_0_4
                         lit_1e_12 Rnd.ops F64 Rnd.types].
  - intros x y. destruct (Qlt_le_dec x y) as [H | H].
    + left. apply Qle_bool_iff. lra.
    + right. apply Qle_bool_iff. exact H.
  - intros x y z H1 H2. apply Qle_bool_iff in H1, H2. apply Qle_bool_iff. lra.
  - reflexivity.
  - vm_compute. reflexivity.
  - intros x y c H. apply Qle_bool_iff in H. apply Qle_bool_iff, r64_mono. lra.
  - intros x y d Hd H. apply Qle_bool_iff in H. apply Qle_bool_iff, r64_mono.
    assert (0 < d).
    { apply Qnot_le_lt. intros Hc. apply Qle_bool_iff in Hc. rewrite Hc in Hd. discriminate. }
    apply Qmult_le_compat_r; [exact H | apply Qlt_le_weak, Qinv_lt_0_compat; assumption].
  - intros x y H. apply Qle_bool_iff in H. apply Qle_bool_iff, r64_mono.
    apply Qmult_le_l; [vm_compute; reflexivity | exact H].
  - intros x y H. apply Qle_bool_iff in H. apply Qle_bool_iff, r64_mono.
    apply Qmult_le_l; [vm_compute; reflexivity | exact H].
  - intros x y c H. apply Qle_bool_iff in H. apply Qle_bool_iff, r64_mono. lra.
  - intros x y c H. apply Qle_bool_iff in H. apply Qle_bool_iff, r64_mono. lra.
Qed.

End RndProofs.

(* ===================================================================== *)
(** * Ranking                                                             *)
(* ===================================================================== *)

Section Ranking.
Context {T : FloatTypes} {O : FloatOps} (L : FloatLaws O).
Import QueryPipeline.

Lemma leb_refl x : leb64 x x = true.
Proof. destruct (leb_total O L x x); assumption. Qed.

Lemma above_eps_pos d : leb64 d lit_1e_12 = false -> ltb64 lit_0 d = true.
Proof.
  intros Hd. rewrite (ltb_leb O L). destruct (leb64 d lit_0) eqn:E; [|reflexivity].
  exfalso.
  pose proof (eps_pos O L) as He. rewrite (ltb_leb O L) in He.
  destruct (leb_total O L d lit_1e_12) as [H | H]; [congruence|].
  rewrite (leb_trans O L _ _ _ H E) in He. discriminate.
Qed.

Lemma normalize_scores_map scores :
  exists g, monotone g /\ _normalize_scores scores = map g scores.
Proof.
  unfold _normalize_scores.
  destruct (map to_f32 scores) as [|a arr] eqn:E.
  - exists (fun x => x). split; [intros x y H; exact H|].
    destruct scores; [reflexivity | discriminate].
  - set (min_v := of_f32 (array_min a arr)).
    set (max_v := of_f32 (array_max a arr)).
    destruct (leb64 (sub64 max_v min_v) lit_1e_12) eqn:D.
    + exists (fun _ => lit_1). split; [intros x y _; apply leb_refl | reflexivity].
    + exists (fun s => div64 (sub64 s min_v) (sub64 max_v min_v)).
      split; [|reflexivity].
      intros x y H. apply (div_mono O L); [apply above_eps_pos; exact D|].
      apply (sub_mono O L). exact H.
Qed.

Lemma fuse_text_mono : monotone fuse_text.
Proof.
  intros x y H. unfold fuse_text.
  apply (add_mono_l O L), (mul_0_6_mono O L), H.
Qed.

Lemma fuse_image_mono : monotone fuse_image.
Proof.
  intros x y H. unfold fuse_image.
  apply (add_mono_r O L), (mul_0_4_mono O L), H.
Qed.

Lemma combine_map_same {A B C} (f : A -> B) (g : A -> C) (l : list A) :
  combine (map f l) (map g l) = map (fun x => (f x, g x)) l.
Proof. induction l; simpl; congruence. Qed.

Lemma combine_self_map {A B} (f : A -> B) (l : list A) :
  combine l (map f l) = map (fun x => (x, f x)) l.
Proof. induction l; simpl; congruence. Qed.

Lemma text_tuples_map hits :
  exists g, monotone g /\
    text_tuples hits =
    map (fun h => {| r_hit := h; r_text_norm := g (hit_score h);
                     r_image_norm := lit_0;
                     r_fused := fuse_text (g (hit_score h)) |}) hits.
Proof.
  destruct (normalize_scores_map (map hit_score hits)) as [g [Hg E]].
  exists g. split; [exact Hg|].
  unfold text_tuples. rewrite E.
  rewrite !map_map. rewrite combine_map_same, combine_self_map, map_map.
  reflexivity.
Qed.

Lemma image_tuples_map hits :
  exists g, monotone g /\
    image_tuples hits =
    map (fun h => {| r_hit := h; r_text_norm := lit_0;
                     r_image_norm := g (hit_score h);
                     r_fused := fuse_image (g (hit_score h)) |}) hits.
Proof.
  destruct (normalize_scores_map (map hit_score hits)) as [g [Hg E]].
  exists g. split; [exact Hg|].
  unfold image_tuples. rewrite E.
  rewrite !map_map. rewrite combine_map_same, combine_self_map, map_map.
  reflexivity.
Qed.

(** A list whose keys never increase from one element to the next is
    left as it is by the sort. *)
Lemma sort_by_fused_desc_id l :
  Sorted (fun a b => ltb64 (r_fused a) (r_fused b) = false) l ->
  sort_by_fused_desc l = l.
Proof.
  induction 1 as [|x l Hs IH Hd]; [reflexivity|].
  unfold sort_by_fused_desc in *. simpl. rewrite IH.
  destruct Hd as [|y l' Hxy]; [reflexivity|].
  simpl. rewrite Hxy. reflexivity.
Qed.

Lemma Sorted_map {A B} (R : B -> B -> Prop) (f : A -> B) l :
  Sorted (fun a b => R (f a) (f b)) l -> Sorted R (map f l).
Proof.
  induction 1 as [|x l Hs IH Hd]; simpl; constructor; [exact IH|].
  destruct Hd; simpl; constructor; assumption.
Qed.

Lemma ranked_keys_sorted (mk : SearchHit -> Ranked) (k : F64 -> F64) hits :
  monotone k -> (forall h, r_fused (mk h) = k (hit_score h)) ->
  descending hits ->
  Sorted (fun a b => ltb64 (r_fused a) (r_fused b) = false) (map mk hits).
Proof.
  intros Hk Hmk Hd. apply Sorted_map.
  induction Hd as [|x l Hs IH Hhd]; constructor; [exact IH|].
  destruct Hhd as [|y l' Hxy]; constructor.
  rewrite !Hmk, (ltb_leb O L), (Hk _ _ Hxy). reflexivity.
Qed.

(** C9.  For hits ordered by raw score, best first, sorting the tuples
    by fused score, best first, changes nothing: the ranked list is the
    list of tuples in the order of the hits, for the text hits and for
    the image hits.  The fused score is a non-decreasing function of the
    raw score and the sort keeps the order of equal keys.  The
    arithmetic is any that satisfies [FloatLaws]. *)
Theorem resort_is_noop hits :
  descending hits ->
  text_ranked hits = text_tuples hits /\ map r_hit (text_ranked hits) = hits /\
  image_ranked hits = image_tuples hits /\ map r_hit (image_ranked hits) = hits.
Proof.
  intros Hd.
  destruct (text_tuples_map hits) as [g [Hg Et]].
  destruct (image_tuples_map hits) as [g' [Hg' Ei]].
  assert (HT : text_ranked hits = text_tuples hits).
  { unfold text_ranked. rewrite Et. apply sort_by_fused_desc_id.
    apply (ranked_keys_sorted _ (fun s => fuse_text (g s))); [|reflexivity|exact Hd].
    intros x y H. apply fuse_text_mono, Hg, H. }
  assert (HI : image_ranked hits = image_tuples hits).
  { unfold image_ranked. rewrite Ei. apply sort_by_fused_desc_id.
    apply (ranked_keys_sorted _ (fun s => fuse_image (g' s))); [|reflexivity|exact Hd].
    intros x y H. apply fuse_image_mono, Hg', H. }
  rewrite HT, HI, Et, Ei, !map_map. simpl. rewrite !map_id. auto.
Qed.
End Ranking.

(** The laws hold of the rounded arithmetic, so the ranking of the three
    hits scored [0.9, 0.5, 0.5] is their order. *)
Lemma resort_is_noop_witness :
  @descending Rnd.types Rnd.ops RndFixtures.three_hits /\
  map (@QueryPipeline.r_hit Rnd.types)
      (@QueryPipeline.text_ranked Rnd.types Rnd.ops RndFixtures.three_hits)
  = RndFixtures.three_hits.
Proof.
  assert (H : @descending Rnd.types Rnd.ops RndFixtures.three_hits).
  { unfold descending, RndFixtures.three_hits.
    apply Sorted_cons;
      [apply Sorted_cons; [apply Sorted_cons; [apply Sorted_nil | apply HdRel_nil]|]|];
      apply HdRel_cons; vm_compute; reflexivity. }
  split; [exact H|].
  exact (proj1 (proj2 (@resort_is_noop Rnd.types Rnd.ops Rnd_laws RndFixtures.three_hits H))).
Defined.

(* ===================================================================== *)
(** * Normalization and fusion on IEEE-754 values                         *)
(* ===================================================================== *)

Section Fusion.
Context {T : FloatTypes} {O : FloatOps}.
Import QueryPipeline.

Lemma insert_desc_In x y l : In y (insert_desc x l) <-> y = x \/ In y l.
Proof.
  induction l as [|z l IH]; simpl; [intuition congruence|].
  destruct (ltb64 (r_fused x) (r_fused z)); simpl; [rewrite IH|]; intuition congruence.
Qed.

Lemma sort_by_fused_desc_In y l : In y (sort_by_fused_desc l) <-> In y l.
Proof.
  unfold sort_by_fused_desc. induction l as [|x l IH]; simpl; [tauto|].
  rewrite insert_desc_In, IH. intuition congruence.
Qed.

(** Whatever the scores, a ranked text hit carries [0.0] as image score
    and [0.6 * ts + 0.4 * 0.0] as fused score, and symmetrically for an
    image hit. *)
Lemma text_ranked_components hits r :
  In r (text_ranked hits) ->
  r_image_norm r = lit_0 /\ r_fused r = fuse_text (r_text_norm r).
Proof.
  unfold text_ranked. rewrite sort_by_fused_desc_In. unfold text_tuples.
  rewrite in_map_iff. intros [[h [ts fs]] [<- Hin]]. simpl. split; [reflexivity|].
  apply in_combine_r in Hin.
  set (norm := _normalize_scores (map hit_score hits)) in *.
  clearbody norm. clear hits h. revert Hin.
  induction norm as [|n norm IH]; simpl; [tauto|].
  intros [E | Hin]; [injection E as <- <-; reflexivity | exact (IH Hin)].
Qed.

Lemma image_ranked_components hits r :
  In r (image_ranked hits) ->
  r_text_norm r = lit_0 /\ r_fused r = fuse_image (r_image_norm r).
Proof.
  unfold image_ranked. rewrite sort_by_fused_desc_In. unfold image_tuples.
  rewrite in_map_iff. intros [[h [ts fs]] [<- Hin]]. simpl. split; [reflexivity|].
  apply in_combine_r in Hin.
  set (norm := _normalize_scores (map hit_score hits)) in *.
  clearbody norm. clear hits h. revert Hin.
  induction norm as [|n norm IH]; simpl; [tauto|].
  intros [E | Hin]; [injection E as <- <-; reflexivity | exact (IH Hin)].
Qed.
End Fusion.

Section OnIEEE.
Import IEEE.
Import Fixtures.
Import QueryPipeline.

(** The decimal literals of the code. *)
Example literals :
  s_0_9 = S754_finite false 8106479329266893 (-53) /\
  s_0_5 = S754_finite false 4503599627370496 (-53) /\
  f_1 = S754_finite false 4503599627370496 (-52) /\
  f_0_6 = S754_finite false 5404319552844595 (-53) /\
  f_0_4 = S754_finite false 7205759403792794 (-54) /\
  f_1e_12 = S754_finite false 4951760157141521 (-92).
Proof. repeat split; reflexivity. Qed.

(** Adding the product [0.4 * 0.0] changes nothing but the sign of a
    negative zero. *)
Lemma fuse_text_is_product (ts : spec_float) :
  b64_mul f_0_6 ts <> S754_zero true -> fuse_text ts = b64_mul f_0_6 ts.
Proof.
  unfold fuse_text. cbn [add64 mul64 lit_0_6 lit_0_4 lit_0 ops].
  replace (b64_mul f_0_4 f_0) with (S754_zero false) by reflexivity.
  destruct (b64_mul f_0_6 ts) as [[|]| | |]; try reflexivity. congruence.
Qed.

Lemma fuse_image_is_product (iscore : spec_float) :
  b64_mul f_0_4 iscore <> S754_zero true -> fuse_image iscore = b64_mul f_0_4 iscore.
Proof.
  unfold fuse_image. cbn [add64 mul64 lit_0_6 lit_0_4 lit_0 ops].
  replace (b64_mul f_0_6 f_0) with (S754_zero false) by reflexivity.
  destruct (b64_mul f_0_4 iscore) as [[|]| | |]; try reflexivity. congruence.
Qed.

(** C1.  On the scores [0.9, 0.5, 0.5] the code returns
    [1.0000000596046483, 0.0, 0.0], and on [0.10000001, 0.1] it returns
    [1.1421772800385952, -0.19999999925494194].  The minimum and the
    maximum are taken after the cast to float32 (0.9 becomes
    0.8999999761581421) while the numerator keeps the float64 score, so
    the output for the best score is above [1.0] and that for the
    lowest can be below [0.0]: the outputs are not in [0,1] and are not
    those of min-max arithmetic on the scores. *)
Theorem normalize_scores_mixes_precisions :
  _normalize_scores [s_0_9; s_0_5; s_0_5] = [above_one; f_0; f_0]
  /\ of_f32 (to_f32 s_0_9) = S754_finite false 8106479114518528 (-53)
  /\ SFltb f_1 above_one = true
  /\ _normalize_scores [s_0_10000001; s_0_1] = [n_1_142; n_m0_2]
  /\ SFltb f_1 n_1_142 = true
  /\ SFltb n_m0_2 f_0 = true.
Proof. repeat split; reflexivity. Qed.

(** C2.  For two text hits scored [0.10000001, 0.1] the ranked tuples
    carry the normalized text scores [1.1421772800385952,
    -0.19999999925494194], the image score [0.0] and the fused scores
    [0.6 * ts]: [0.6853063680231571], which is above the weight [0.6],
    and [-0.11999999955296516].  The response of [answer_question]
    reports them rounded to six decimals: text 1.142177 and fused
    0.685306 for the first chunk.  For the scores [0.9, 0.5, 0.5] the
    first fused score is [0.6000000357627889]. *)
Theorem fused_score_exceeds_weight :
  text_ranked close_hits =
    [ {| r_hit := nth 0 close_hits (text_hit "" f_0 "");
         r_text_norm := n_1_142; r_image_norm := f_0; r_fused := f_0_685 |};
      {| r_hit := nth 1 close_hits (text_hit "" f_0 "");
         r_text_norm := n_m0_2; r_image_norm := f_0; r_fused := f_m0_12 |} ]
  /\ f_0_685 = b64_mul f_0_6 n_1_142
  /\ SFltb f_0_6 f_0_685 = true
  /\ text_scores_of
       (fst (answer_question env_close_hits (pipeline gemini_up) a_question []))
     = [ {| text_score := dec 1142177 1000000; image_score := f_0;
            fused_score := dec 685306 1000000 |};
         {| text_score := dec (-2) 10; image_score := f_0;
            fused_score := dec (-12) 100 |} ]
  /\ SFltb f_0_6 (dec 685306 1000000) = true
  /\ (exists r rest,
        text_ranked three_hits = r :: rest
        /\ r_text_norm r = above_one
        /\ r_fused r = above_weight
        /\ SFltb f_0_6 (r_fused r) = true).
Proof.
  repeat split; try reflexivity.
  exists (hd {| r_hit := text_hit "" f_0 ""; r_text_norm := f_0;
                r_image_norm := f_0; r_fused := f_0 |} (text_ranked three_hits)),
         (tl (text_ranked three_hits)).
  repeat split; reflexivity.
Qed.

(** The ranking of these hits is their order, on IEEE-754 values too. *)
Example resort_three_hits :
  map r_hit (text_ranked three_hits) = three_hits.
Proof. reflexivity. Qed.

End OnIEEE.

(* ===================================================================== *)
(** * Running computations                                                *)
(* ===================================================================== *)

Section Runs.
Context {T : FloatTypes}.
Lemma run_bind_ok {A B} (m : M A) (k : A -> M B) w a w1 r :
  m w = (Ok a, w1) -> k a w1 = r -> bind m k w = r.
Proof. intros H <-. unfold bind. rewrite H. reflexivity. Qed.

Lemma run_bind_raise {A B} (m : M A) (k : A -> M B) w e w1 :
  m w = (Raise e, w1) -> bind m k w = (Raise e, w1).
Proof. intros H. unfold bind. rewrite H. reflexivity. Qed.

Lemma run_call {A} ev (oracle : World -> result A) w r :
  oracle w = r -> call ev oracle w = (r, w ++ [ev]).
Proof. intros <-. reflexivity. Qed.

Lemma run_try_raise {A} (m : M A) (h : exn -> M A) w e w1 r :
  m w = (Raise e, w1) -> h e w1 = r -> try_except m h w = r.
Proof. intros H <-. unfold try_except. rewrite H. reflexivity. Qed.

Lemma run_try_ok {A} (m : M A) (h : exn -> M A) w a w1 :
  m w = (Ok a, w1) -> try_except m h w = (Ok a, w1).
Proof. intros H. unfold try_except. rewrite H. reflexivity. Qed.
End Runs.


Section Triples.
Context {T : FloatTypes}.

Lemma triple_ret {A} (a : A) (Q : A -> Prop) P : Q a -> triple (ret a) Q P.
Proof.
  intros H w. exists []. rewrite app_nil_r. repeat split; [constructor|].
  simpl. intros a' E. injection E as <-. exact H.
Qed.

Lemma triple_raise {A} e (Q : A -> Prop) P : triple (raise e) Q P.
Proof.
  intros w. exists []. rewrite app_nil_r. repeat split; [constructor|].
  simpl. discriminate.
Qed.

Lemma triple_lift {A} (r : result A) (Q : A -> Prop) P :
  (forall a, r = Ok a -> Q a) -> triple (TextEmbeddingService.lift r) Q P.
Proof.
  intros H w. exists []. rewrite app_nil_r. repeat split; [constructor|exact H].
Qed.

Lemma triple_call {A} ev (oracle : World -> result A) P :
  P ev -> triple (call ev oracle) (fun _ => True) P.
Proof.
  intros H w. exists [ev]. repeat split. constructor; [exact H | constructor].
Qed.

Lemma triple_call_total {A} ev (oracle : World -> A) P :
  P ev -> triple (call_total ev oracle) (fun _ => True) P.
Proof.
  intros H w. exists [ev]. repeat split. constructor; [exact H | constructor].
Qed.

Lemma triple_bind {A B} (m : M A) (k : A -> M B) Q Q' P :
  triple m Q P -> (forall a, Q a -> triple (k a) Q' P) -> triple (bind m k) Q' P.
Proof.
  intros Hm Hk w. destruct (Hm w) as [evs [E [F R]]].
  unfold bind. destruct (m w) as [[a | e] w1] eqn:Em; simpl in *; subst w1.
  - destruct (Hk a (R a eq_refl) (w ++ evs)) as [evs' [E' [F' R']]].
    exists (evs ++ evs'). rewrite E', app_assoc. repeat split; [|exact R'].
    apply Forall_app; split; assumption.
  - exists evs. repeat split; [exact F | discriminate].
Qed.

Lemma triple_try {A} (m : M A) (h : exn -> M A) Q P :
  triple m Q P -> (forall e, triple (h e) Q P) -> triple (try_except m h) Q P.
Proof.
  intros Hm Hh w. destruct (Hm w) as [evs [E [F R]]].
  unfold try_except. destruct (m w) as [[a | e] w1] eqn:Em; simpl in *; subst w1.
  - exists evs. repeat split; [exact F | exact R].
  - destruct (Hh e (w ++ evs)) as [evs' [E' [F' R']]].
    exists (evs ++ evs'). rewrite E', app_assoc. repeat split; [|exact R'].
    apply Forall_app; split; assumption.
Qed.


Lemma triple_foldM {A B} (f : B -> A -> M B) (l : list A) (acc : B) P :
  (forall b x, triple (f b x) (fun _ => True) P) ->
  triple (foldM f l acc) (fun _ => True) P.
Proof.
  intros Hf. revert acc. induction l as [|x l IH]; intros acc; simpl.
  - apply triple_ret. exact I.
  - eapply triple_bind; [apply Hf|]. intros b _. apply IH.
Qed.
End Triples.


(* ===================================================================== *)
(** * Vector dimensions                                                   *)
(* ===================================================================== *)

Section TriplesMore.
Context {T : FloatTypes}.

Lemma triple_foldM_inv {A B} (f : B -> A -> M B) (l : list A) (acc : B)
      (Inv : B -> Prop) P :
  (forall b x, Inv b -> triple (f b x) Inv P) ->
  Inv acc -> triple (foldM f l acc) Inv P.
Proof.
  intros Hf. revert acc. induction l as [|x l IH]; intros acc Hacc; simpl.
  - apply triple_ret. exact Hacc.
  - eapply triple_bind; [apply Hf, Hacc|]. intros b Hb. apply IH, Hb.
Qed.

Lemma triple_result {A} (m : M A) Q P w a w' :
  triple m Q P -> m w = (Ok a, w') -> Q a.
Proof.
  intros H E. destruct (H w) as [evs [_ [_ R]]]. apply R. rewrite E. reflexivity.
Qed.

Lemma triple_world {A} (m : M A) Q P w r w' :
  triple m Q P -> m w = (r, w') -> exists evs, w' = w ++ evs /\ Forall P evs.
Proof.
  intros H E. destruct (H w) as [evs [Hw [F _]]]. exists evs.
  rewrite E in Hw. split; [exact Hw | exact F].
Qed.
End TriplesMore.

Section Dimensions.
Context {T : FloatTypes} {V : VecOps}.
Import TextEmbeddingService.

Lemma upsert_points_forwards (env : Env) (collection : string) (pts : list Point)
      (w : World) :
  QdrantRepository.upsert_points env collection (QdrantRepository.PointsList pts) w =
  (client_upsert env w collection pts, w ++ [EvUpsert collection pts]).
Proof. reflexivity. Qed.

Lemma normalize_length vec v : _normalize vec = Ok v -> List.length v = List.length vec.
Proof.
  unfold _normalize. destruct (eqb32 _ _); [discriminate|].
  intros H. injection H as <-. rewrite !length_map. reflexivity.
Qed.

Lemma normalize_cases vec :
  _normalize vec = Raise zero_norm_error \/ exists v, _normalize vec = Ok v.
Proof. unfold _normalize. destruct (eqb32 _ _); eauto. Qed.

Lemma reshape_length vec v :
  _reshape_to_expected vec = Ok v -> List.length v = _expected_dim.
Proof.
  unfold _reshape_to_expected.
  destruct (Nat.eqb_spec (List.length (map to_f32 vec)) _expected_dim) as [E | NE].
  - intros H. apply normalize_length in H. rewrite H, length_map. exact E.
  - destruct (Nat.ltb_spec (List.length (map to_f32 vec)) _expected_dim) as [Lt | Ge];
      intros H; apply normalize_length in H; rewrite H, length_map.
    + rewrite length_app, repeat_length. lia.
    + apply firstn_length_le. exact Ge.
Qed.

Lemma reshape_cases vec :
  _reshape_to_expected vec = Raise zero_norm_error
  \/ exists v, _reshape_to_expected vec = Ok v.
Proof.
  unfold _reshape_to_expected.
  destruct (Nat.eqb _ _); [apply normalize_cases|].
  destruct (Nat.ltb _ _); apply normalize_cases.
Qed.

Lemma embed_one_length env model text :
  triple (embed_one env model text) full_length (fun _ => True).
Proof.
  unfold embed_one.
  eapply triple_bind; [apply triple_call; exact I|]. intros resp _.
  eapply triple_bind; [apply (triple_lift _ (fun _ => True)); auto|]. intros vector _.
  eapply triple_bind; [apply (triple_lift _ (fun _ => True)); auto|].
  intros normalized _.
  destruct (Nat.eqb_spec (List.length normalized) _expected_dim) as [E | NE]; simpl.
  - apply triple_ret. exact E.
  - apply triple_lift. intros v. apply reshape_length.
Qed.

Lemma ensure_client_any env P :
  triple (_ensure_client env) (fun _ => True) P.
Proof.
  unfold _ensure_client.
  destruct (gemini_api_key env) as [[|? ?]|];
    (apply triple_raise || (apply triple_ret; exact I)).
Qed.

Lemma embed_text_length env model text :
  triple (embed_text env model text) full_length (fun _ => True).
Proof.
  unfold embed_text. destruct text; [apply triple_raise|].
  eapply triple_bind; [apply ensure_client_any|]. intros _ _.
  apply embed_one_length.
Qed.

Lemma embed_texts_length env model texts :
  triple (embed_texts env model texts) (Forall full_length) (fun _ => True).
Proof.
  unfold embed_texts. destruct texts as [|t texts]; [apply triple_ret; constructor|].
  eapply triple_bind; [apply ensure_client_any|]. intros _ _.
  apply triple_foldM_inv; [|constructor].
  intros results x Hr.
  eapply triple_bind; [apply embed_one_length|]. intros v Hv.
  apply triple_ret. apply Forall_app. split; [exact Hr|]. constructor; [exact Hv|constructor].
Qed.

Lemma reshape_pads_or_truncates vec :
  _reshape_to_expected vec
  = _normalize
      (map of_f32
         (firstn 1024 (map to_f32 vec ++ repeat zero32 (1024 - List.length vec)))).
Proof.
  unfold _reshape_to_expected, _expected_dim. rewrite length_map.
  destruct (Nat.eqb_spec (List.length vec) 1024) as [E | NE].
  - rewrite E, Nat.sub_diag. cbn [repeat]. rewrite app_nil_r.
    rewrite firstn_all2 by (rewrite length_map; lia). reflexivity.
  - destruct (Nat.ltb_spec (List.length vec) 1024) as [Lt | Ge].
    + rewrite firstn_all2 by (rewrite length_app, length_map, repeat_length; lia).
      reflexivity.
    + replace (1024 - List.length vec)%nat with 0%nat by lia.
      cbn [repeat]. rewrite app_nil_r. reflexivity.
Qed.

Lemma normalize_divides vec :
  _normalize vec
  = if eqb32 (norm32 (map to_f32 vec)) zero32
    then Raise (mk_exn ValueError "Received zero-norm embedding")
    else Ok (map (fun x => of_f32 (div32 (to_f32 x) (norm32 (map to_f32 vec)))) vec).
Proof.
  unfold _normalize. destruct (eqb32 _ _); [reflexivity|].
  rewrite !map_map. reflexivity.
Qed.

(** C3 (amended).  The upsert operations of the repository do not look
    at the vectors: whatever their lengths, the points are handed to the
    client in one [upsert] call, whose outcome is returned; an argument
    that is not a list is rejected with a [TypeError] before any call.
    The text embedding service makes the length right instead of
    failing: [_reshape_to_expected] casts the vector to float32, pads it
    with zeros at the end or keeps its first 1024 entries, and
    renormalizes the result, where [_normalize] divides every entry by
    the norm of the array and raises only when that norm is zero; so a
    vector returned by [_reshape_to_expected], [embed_text] or
    [embed_texts] has exactly 1024 entries. *)
Theorem upsert_forwards_any_dimension (env : Env) (repo : QdrantRepository.t)
        (points : list Point) (w : World) :
  QdrantRepository.upsert_text_points env repo (QdrantRepository.PointsList points) w
  = (client_upsert env w (QdrantRepository.text_collection repo) points,
     w ++ [EvUpsert (QdrantRepository.text_collection repo) points])
  /\ QdrantRepository.upsert_image_points env repo (QdrantRepository.PointsList points) w
     = (client_upsert env w (QdrantRepository.image_collection repo) points,
        w ++ [EvUpsert (QdrantRepository.image_collection repo) points])
  /\ QdrantRepository.upsert_text_points env repo QdrantRepository.NotAList w
     = (Raise (mk_exn TypeError "points must be a list"), w)
  /\ QdrantRepository.upsert_image_points env repo QdrantRepository.NotAList w
     = (Raise (mk_exn TypeError "points must be a list"), w)
  /\ (forall vec,
        _reshape_to_expected vec
        = _normalize
            (map of_f32
               (firstn 1024
                  (map to_f32 vec ++ repeat zero32 (1024 - List.length vec)))))
  /\ (forall vec,
        _normalize vec
        = if eqb32 (norm32 (map to_f32 vec)) zero32
          then Raise (mk_exn ValueError "Received zero-norm embedding")
          else Ok (map (fun x => of_f32 (div32 (to_f32 x) (norm32 (map to_f32 vec))))
                     vec))
  /\ (forall vec,
        match _reshape_to_expected vec with
        | Ok v => List.length v = 1024%nat
        | Raise e => e = zero_norm_error
        end)
  /\ (forall model text,
        match fst (embed_text env model text w) with
        | Ok v => List.length v = 1024%nat
        | Raise _ => True
        end)
  /\ (forall model texts,
        match fst (embed_texts env model texts w) with
        | Ok vs => Forall (fun v => List.length v = 1024%nat) vs
        | Raise _ => True
        end).
Proof.
  split; [reflexivity|]. split; [reflexivity|].
  split; [reflexivity|]. split; [reflexivity|].
  split; [exact reshape_pads_or_truncates|]. split; [exact normalize_divides|].
  split; [|split].
  - intros vec. destruct (reshape_cases vec) as [E | [v E]]; rewrite E.
    + reflexivity.
    + apply reshape_length in E. exact E.
  - intros model text.
    destruct (embed_text env model text w) as [[v | e] w'] eqn:E; simpl; [|exact I].
    exact (triple_result _ _ _ _ _ _ (embed_text_length env model text) E).
  - intros model texts.
    destruct (embed_texts env model texts w) as [[vs | e] w'] eqn:E; simpl; [|exact I].
    exact (triple_result _ _ _ _ _ _ (embed_texts_length env model texts) E).
Qed.
End Dimensions.

Section DimensionsOnIEEE.
Import IEEE.
Import Fixtures.

(** The claim C3 as stated fails: a point whose vector has three entries
    is written to the text collection by [upsert_text_points], which
    returns normally, and [_reshape_to_expected] turns a vector of three
    entries into one of 1024 by padding. *)
Lemma upsert_does_not_check_dimension :
  List.length (snd (fst short_point)) <> 1024%nat
  /\ QdrantRepository.upsert_text_points quiet repo
       (QdrantRepository.PointsList [short_point]) []
     = (Ok tt, [EvUpsert "text_chunks" [short_point]])
  /\ exists v, TextEmbeddingService._reshape_to_expected [f_1; f_0; f_0] = Ok v
               /\ List.length v = 1024%nat
               /\ v = [f_1; f_0; f_0] ++ repeat f_0 1021.
Proof.
  split; [simpl; lia|]. split; [reflexivity|].
  eexists. split; [vm_compute; reflexivity|]. split; reflexivity.
Qed.
End DimensionsOnIEEE.

(* ===================================================================== *)
(** * Ingestion                                                           *)
(* ===================================================================== *)

Section Ingestion.
Context {T : FloatTypes} {V : VecOps}.
Import IngestionPipeline.
Variables (env : Env) (p : t) (pdf_bytes : bytes) (pdf_id : string)
          (doc_title : option string) (w : World).
Variables (text_blocks : list TextBlock) (image_blocks : list ImageBlock).

Hypothesis pdf_id_given : pdf_id <> "".
Hypothesis parsed_text : pdf_parse_text env w pdf_bytes = Ok text_blocks.
Hypothesis parsed_images :
  pdf_parse_images env (w ++ [EvParseText pdf_bytes]) pdf_bytes = Ok image_blocks.

Let w2 := w ++ [EvParseText pdf_bytes] ++ [EvParseImages pdf_bytes].
Let blocks := non_empty_text_blocks text_blocks.
Let texts := map tb_text blocks.
Let run := ingest_pdf env p pdf_bytes pdf_id doc_title w.

(** After parsing, the run is the three phases from [w2]. *)
Lemma ingest_after_parse :
  run =
  (text_points <- text_phase env p pdf_id doc_title text_blocks ;;
   image_points <- image_phase env pdf_id doc_title image_blocks ;;
   upsert_phase env p text_points image_points) w2.
Proof.
  unfold run, ingest_pdf. destruct pdf_id; [contradiction|].
  eapply run_bind_ok; [apply run_call, parsed_text|].
  eapply run_bind_ok; [apply run_call, parsed_images|].
  unfold w2. rewrite app_assoc. reflexivity.
Qed.

Lemma text_phase_mismatch vectors :
  blocks <> [] ->
  port_embed_texts env w2 texts = Ok vectors ->
  List.length vectors <> List.length blocks ->
  text_phase env p pdf_id doc_title text_blocks w2 =
  (Raise text_mismatch_error, w2 ++ [EvEmbedTexts texts]).
Proof.
  intros Hb He Hl. unfold text_phase. fold blocks. fold texts.
  destruct blocks as [|b bs] eqn:Eb; [contradiction|]. rewrite <- Eb in *.
  apply Nat.eqb_neq in Hl.
  eapply run_try_raise.
  { eapply run_bind_ok; [apply run_call, He|]. rewrite Hl. reflexivity. }
  reflexivity.
Qed.

Lemma text_phase_embed_error e :
  blocks <> [] ->
  port_embed_texts env w2 texts = Raise e ->
  text_phase env p pdf_id doc_title text_blocks w2 =
  (if names_api_key (str e) then Ok [] else Raise e, w2 ++ [EvEmbedTexts texts]).
Proof.
  intros Hb He. unfold text_phase. fold blocks. fold texts.
  destruct blocks as [|b bs] eqn:Eb; [contradiction|]. rewrite <- Eb in *.
  eapply run_try_raise; [apply run_bind_raise, run_call, He|].
  cbv beta zeta. destruct (names_api_key (str e)); reflexivity.
Qed.

Let image_bytes := map ib_image_bytes image_blocks.

Lemma image_phase_mismatch w3 s3_keys w4 img_vectors :
  image_blocks <> [] ->
  foldM (upload_one env pdf_id) image_blocks [] w3 = (Ok s3_keys, w4) ->
  port_embed_images env w4 image_bytes = Ok img_vectors ->
  List.length img_vectors <> List.length image_blocks ->
  image_phase env pdf_id doc_title image_blocks w3 =
  (Raise image_mismatch_error, w4 ++ [EvEmbedImages image_bytes]).
Proof.
  intros Hi Hu He Hl. unfold image_phase. fold image_bytes.
  destruct image_blocks as [|img imgs] eqn:Ei; [contradiction|]. rewrite <- Ei in *.
  apply Nat.eqb_neq in Hl.
  eapply run_bind_ok; [exact Hu|].
  eapply run_bind_ok; [apply run_call, He|].
  rewrite Hl. reflexivity.
Qed.

Lemma image_phase_embed_error w3 s3_keys w4 e :
  image_blocks <> [] ->
  foldM (upload_one env pdf_id) image_blocks [] w3 = (Ok s3_keys, w4) ->
  port_embed_images env w4 image_bytes = Raise e ->
  image_phase env pdf_id doc_title image_blocks w3 =
  (Raise e, w4 ++ [EvEmbedImages image_bytes]).
Proof.
  intros Hi Hu He. unfold image_phase. fold image_bytes.
  destruct image_blocks as [|img imgs] eqn:Ei; [contradiction|]. rewrite <- Ei in *.
  eapply run_bind_ok; [exact Hu|].
  apply run_bind_raise, run_call, He.
Qed.

Lemma text_point_triple tps bv :
  triple (text_point env p pdf_id doc_title tps bv) (fun _ => True) not_upsert.
Proof.
  unfold text_point. destruct bv as [b vec].
  eapply triple_bind; [apply triple_call_total; reflexivity|]. intros point_id _.
  eapply triple_bind; [apply triple_call_total; reflexivity|]. intros now _.
  apply triple_ret. exact I.
Qed.

Lemma text_phase_triple :
  triple (text_phase env p pdf_id doc_title text_blocks) (fun _ => True) not_upsert.
Proof.
  unfold text_phase. destruct (non_empty_text_blocks text_blocks);
    [apply triple_ret; exact I|].
  apply triple_try.
  - eapply triple_bind; [apply triple_call; reflexivity|]. intros vectors _.
    destruct (negb _); [apply triple_raise|].
    apply triple_foldM. intros tps bv. apply text_point_triple.
  - intros e. cbv zeta. destruct (names_api_key (str e));
      [apply triple_ret; exact I | apply triple_raise].
Qed.

Lemma uploads_triple :
  triple (foldM (upload_one env pdf_id) image_blocks []) (fun _ => True) not_upsert.
Proof.
  apply triple_foldM. intros keys img. unfold upload_one.
  eapply triple_bind; [apply triple_call; reflexivity|]. intros key _.
  apply triple_ret. exact I.
Qed.

Lemma upserts_app w' evs :
  Forall not_upsert evs -> upserts (w' ++ evs) = upserts w'.
Proof.
  intros H. unfold upserts. rewrite filter_app.
  replace (filter is_upsert evs) with (@nil event); [apply app_nil_r|].
  induction H as [|ev evs Hev _ IH]; [reflexivity|].
  simpl. unfold not_upsert in Hev. rewrite Hev. exact IH.
Qed.

(** C4.  After a successful parse: (text) when the text embedder is
    called and returns a number of vectors other than the number of
    non-blank pages, [ingest_pdf] raises the text mismatch error right
    after that call; (images) when the text step has returned, the
    uploads have succeeded and the image embedder returns a number of
    vectors other than the number of images, [ingest_pdf] raises the
    image mismatch error right after that call.  In both cases the
    world holds no upsert call beyond those it held before, and the
    error is a [RuntimeError] whose text does not name an API key, so
    it is not the credentials failure that the text step tolerates. *)
Theorem ingest_count_mismatch_aborts :
  (forall vectors,
      blocks <> [] ->
      port_embed_texts env w2 texts = Ok vectors ->
      List.length vectors <> List.length blocks ->
      run = (Raise text_mismatch_error, w2 ++ [EvEmbedTexts texts])
      /\ upserts (w2 ++ [EvEmbedTexts texts]) = upserts w)
  /\ (forall text_points w3 s3_keys w4 img_vectors,
        text_phase env p pdf_id doc_title text_blocks w2 = (Ok text_points, w3) ->
        image_blocks <> [] ->
        foldM (upload_one env pdf_id) image_blocks [] w3 = (Ok s3_keys, w4) ->
        port_embed_images env w4 image_bytes = Ok img_vectors ->
        List.length img_vectors <> List.length image_blocks ->
        run = (Raise image_mismatch_error, w4 ++ [EvEmbedImages image_bytes])
        /\ upserts (w4 ++ [EvEmbedImages image_bytes]) = upserts w)
  /\ exn_cls text_mismatch_error = RuntimeError
  /\ exn_cls image_mismatch_error = RuntimeError
  /\ names_api_key (str text_mismatch_error) = false
  /\ names_api_key (str image_mismatch_error) = false
  /\ exn_cls TextEmbeddingService.missing_key_error = ValueError.
Proof.
  split; [|split; [|repeat split; reflexivity]].
  - intros vectors Hb He Hl. split.
    + rewrite ingest_after_parse.
      apply run_bind_raise. apply (text_phase_mismatch vectors); assumption.
    + unfold w2. rewrite !app_assoc, <- !app_assoc. apply upserts_app.
      repeat constructor.
  - intros tps w3 keys w4 vs Ht Hi Hu He Hl. split.
    + rewrite ingest_after_parse.
      eapply run_bind_ok; [exact Ht|].
      apply run_bind_raise. eapply image_phase_mismatch; eassumption.
    + destruct (triple_world _ _ _ _ _ _ text_phase_triple Ht) as [evs1 [-> F1]].
      destruct (triple_world _ _ _ _ _ _ uploads_triple Hu) as [evs2 [-> F2]].
      unfold w2. rewrite <- !app_assoc. apply upserts_app.
      repeat (apply Forall_app; split); try assumption; repeat constructor.
Qed.

(** C5 (amended).  After a successful parse with some non-blank page,
    let the text embedder raise [e].  If the text of [e] contains
    [GEMINI_API_KEY] or [GOOGLE_API_KEY], [ingest_pdf] goes on with no
    text point: what is left of the run is the image step followed by
    the upserts, with an empty list of text points.  Otherwise
    [ingest_pdf] raises [e] right after the call.  The error for a
    missing key is of the first kind: without a key [embed_texts] raises
    a [ValueError] whose text names both variables, before any request.
    A failure of the image embedder is raised whatever its text. *)
Theorem credentials_failure_degrades :
  (forall e,
      blocks <> [] ->
      port_embed_texts env w2 texts = Raise e ->
      (contains "GEMINI_API_KEY" (str e) || contains "GOOGLE_API_KEY" (str e) = true ->
       run = (image_points <- image_phase env pdf_id doc_title image_blocks ;;
              upsert_phase env p [] image_points) (w2 ++ [EvEmbedTexts texts]))
      /\ (contains "GEMINI_API_KEY" (str e) || contains "GOOGLE_API_KEY" (str e) = false ->
          run = (Raise e, w2 ++ [EvEmbedTexts texts])))
  /\ (forall model ts w',
        ts <> [] -> gemini_api_key env = None ->
        TextEmbeddingService.embed_texts env model ts w'
        = (Raise (mk_exn ValueError "GEMINI_API_KEY or GOOGLE_API_KEY is missing"), w'))
  /\ contains "GEMINI_API_KEY" "GEMINI_API_KEY or GOOGLE_API_KEY is missing" = true
  /\ (forall text_points w3 s3_keys w4 e,
        text_phase env p pdf_id doc_title text_blocks w2 = (Ok text_points, w3) ->
        image_blocks <> [] ->
        foldM (upload_one env pdf_id) image_blocks [] w3 = (Ok s3_keys, w4) ->
        port_embed_images env w4 image_bytes = Raise e ->
        run = (Raise e, w4 ++ [EvEmbedImages image_bytes])).
Proof.
  split; [|split; [|split; [reflexivity|]]].
  - intros e Hb He. pose proof (text_phase_embed_error e Hb He) as Ht. split; intros Hn.
    + change (names_api_key (str e) = true) in Hn.
      rewrite Hn in Ht. rewrite ingest_after_parse.
      eapply run_bind_ok; [exact Ht|]. reflexivity.
    + change (names_api_key (str e) = false) in Hn.
      rewrite Hn in Ht. rewrite ingest_after_parse.
      apply run_bind_raise. exact Ht.
  - intros model ts w' Hts Hk. unfold TextEmbeddingService.embed_texts.
    destruct ts; [contradiction|]. apply run_bind_raise.
    unfold TextEmbeddingService._ensure_client. rewrite Hk. reflexivity.
  - intros tps w3 keys w4 e Ht Hi Hu He.
    rewrite ingest_after_parse.
    eapply run_bind_ok; [exact Ht|].
    apply run_bind_raise. eapply image_phase_embed_error; eassumption.
Qed.
End Ingestion.

Section IngestionOnIEEE.
Import IEEE.
Import Fixtures.
Import IngestionPipeline.

(** Two pages and one vector back: the text mismatch error, after the
    two parses and the embedding call.  One image and no vector back:
    the image mismatch error, after the upload and the embedding
    call. *)
Lemma ingest_count_mismatch_aborts_witness :
  ingest_pdf env_one_vector_short ingestion [Byte.x25] "doc" None []
  = (Raise text_mismatch_error,
     [EvParseText [Byte.x25]; EvParseImages [Byte.x25];
      EvEmbedTexts ["Revenue grew 12%."; "Costs fell."]])
  /\ ingest_pdf env_no_image_vector ingestion [Byte.x25] "doc" None []
     = (Raise image_mismatch_error,
        [EvParseText [Byte.x25]; EvParseImages [Byte.x25];
         EvUploadImage [Byte.x89; Byte.x50] "image/png" "doc" 1;
         EvEmbedImages [[Byte.x89; Byte.x50]]]).
Proof.
  split.
  - refine (proj1 (proj1 (ingest_count_mismatch_aborts
              env_one_vector_short ingestion [Byte.x25] "doc" None [] two_pages []
              _ eq_refl eq_refl) [[f_1]] _ eq_refl _)).
    + discriminate.
    + discriminate.
    + simpl. lia.
  - refine (proj1 (proj1 (proj2 (ingest_count_mismatch_aborts
              env_no_image_vector ingestion [Byte.x25] "doc" None [] [] one_image
              _ eq_refl eq_refl)) [] _ ["images/doc/page_1/0.png"] _ [] eq_refl _
              eq_refl eq_refl _)).
    + discriminate.
    + discriminate.
    + simpl. lia.
Defined.

(** No API key: the text step is skipped, the image is uploaded,
    embedded and upserted, and the run returns.  A network failure of
    the text embedder is raised. *)
Lemma credentials_failure_degrades_witness :
  ingest_pdf env_no_key ingestion [Byte.x25] "doc" None []
  = (Ok tt,
     [EvParseText [Byte.x25]; EvParseImages [Byte.x25];
      EvEmbedTexts ["Revenue grew 12%."; "Costs fell."];
      EvUploadImage [Byte.x89; Byte.x50] "image/png" "doc" 1;
      EvEmbedImages [[Byte.x89; Byte.x50]];
      EvUuid4; EvNow;
      EvUpsert "images"
        [("00000000000000000000000000000000", [f_1],
          Schema.ImageP
            (Schema.build_image_payload "2025-01-01T00:00:00Z"
               "00000000000000000000000000000000" "doc" 1 "images/doc/page_1/0.png"
               "image/png" 64 64 "openclip-ViT-L-14-openai" None None None None))]]).
Proof.
  refine (eq_trans (proj1 (proj1 (credentials_failure_degrades
            env_no_key ingestion [Byte.x25] "doc" None [] two_pages one_image
            _ eq_refl eq_refl) TextEmbeddingService.missing_key_error _ eq_refl)
            eq_refl) _).
  - discriminate.
  - discriminate.
  - reflexivity.
Defined.

(** The claim C5 as stated fails: a failure of the text embedding that
    is not for want of credentials is swallowed all the same when its
    text names the variable.  Here the service has its key, so
    [_ensure_client] returns, and the embedding request is refused for
    quota; [embed_texts] raises that error, and [ingest_pdf] returns
    normally: the two pages are dropped, and only the image is
    stored. *)
Lemma named_key_failure_is_swallowed :
  TextEmbeddingService._ensure_client FailureFixtures.service_over_quota []
  = (Ok tt, [])
  /\ TextEmbeddingService.embed_texts FailureFixtures.service_over_quota
       "text-embedding-004" ["Revenue grew 12%."; "Costs fell."] []
     = (Raise FailureFixtures.quota_error,
        [EvEmbedContent "text-embedding-004" "Revenue grew 12%."])
  /\ FailureFixtures.quota_error
     <> mk_exn ValueError "GEMINI_API_KEY or GOOGLE_API_KEY is missing"
  /\ ingest_pdf FailureFixtures.env_over_quota ingestion [Byte.x25] "doc" None []
     = (Ok tt,
        [EvParseText [Byte.x25]; EvParseImages [Byte.x25];
         EvEmbedTexts ["Revenue grew 12%."; "Costs fell."];
         EvUploadImage [Byte.x89; Byte.x50] "image/png" "doc" 1;
         EvEmbedImages [[Byte.x89; Byte.x50]];
         EvUuid4; EvNow;
         EvUpsert "images"
           [("00000000000000000000000000000000", [f_1],
             Schema.ImageP
               (Schema.build_image_payload "2025-01-01T00:00:00Z"
                  "00000000000000000000000000000000" "doc" 1 "images/doc/page_1/0.png"
                  "image/png" 64 64 "openclip-ViT-L-14-openai" None None None None))]]).
Proof.
  split; [reflexivity|]. split; [reflexivity|]. split; [discriminate|]. reflexivity.
Qed.
End IngestionOnIEEE.

(* ===================================================================== *)
(** * Answer generation                                                   *)
(* ===================================================================== *)

Section Answer.
Context {T : FloatTypes} {O : FloatOps} {V : VecOps}.
Import QueryPipeline.

(** [generate] returns, whatever the answer model does. *)
Lemma generate_returns env a question ctx w :
  exists s w', generate env a question ctx w = (Ok s, w').
Proof.
  destruct a as [g|]; simpl; [|eexists; eexists; reflexivity].
  unfold GeminiAnswerGenerator.generate.
  destruct (GeminiAnswerGenerator._genai g); [|eexists; eexists; reflexivity].
  unfold try_except, bind, call.
  destruct (llm_generate_content env w _ _) as [resp | e];
    [|eexists; eexists; reflexivity].
  destruct (nonempty _); eexists; eexists; reflexivity.
Qed.

Lemma generate_falls_back env a question ctx w :
  generation_unavailable env a question ctx w ->
  exists w', generate env a question ctx w = (Ok (fallback_answer a question ctx), w').
Proof.
  destruct a as [g|]; simpl; [|intros _; eexists; reflexivity].
  unfold GeminiAnswerGenerator.generate.
  intros [Hg | [[e He] | [resp [Hr Hb]]]].
  - rewrite Hg. eexists; reflexivity.
  - destruct (GeminiAnswerGenerator._genai g); [|eexists; reflexivity].
    unfold try_except, bind, call. rewrite He. eexists; reflexivity.
  - destruct (GeminiAnswerGenerator._genai g); [|eexists; reflexivity].
    unfold try_except, bind, call. rewrite Hr, Hb. eexists; reflexivity.
Qed.

Lemma respond_after_images env p question trk irk w images_resp w1 s w2 :
  foldM (image_item env p) irk [] w = (Ok images_resp, w1) ->
  generate env (answer_generator p) question
    (make_context (map text_chunk trk) images_resp) w1 = (Ok s, w2) ->
  exists resp,
    respond env p question trk irk w = (Ok resp, w2 ++ [EvUuid4])
    /\ answer_text resp = s
    /\ context resp = make_context (map text_chunk trk) images_resp
    /\ images resp = images_resp.
Proof.
  intros Hi Hg. eexists. split.
  { unfold respond.
    eapply run_bind_ok; [exact Hi|].
    eapply run_bind_ok; [exact Hg|].
    reflexivity. }
  repeat split.
Qed.

Lemma top_previews_spec (chunks : list TextChunk) (images_resp : list ImageItem) :
  GeminiAnswerGenerator.top_previews (make_context chunks images_resp)
  = flat_map (fun t => match tc_chunk_text_preview t with
                       | Some (String c s) => [strip (String c s)]
                       | _ => []
                       end)
             (firstn 3 chunks).
Proof.
  unfold GeminiAnswerGenerator.top_previews. cbn [make_context ctx_text_chunks].
  apply flat_map_ext. intros t.
  destruct (tc_chunk_text_preview t) as [[|c s]|]; reflexivity.
Qed.

Lemma or_no_context_spec (s : string) :
  GeminiAnswerGenerator.or_no_context s
  = match s with
    | EmptyString => "No relevant context found."
    | _ => s
    end.
Proof. destruct s; reflexivity. Qed.

(** C6.  Let the question pass validation, the two embeddings and the
    two searches succeed, and the URLs of the ranked images be
    obtained.  Then [answer_question] returns a response, whatever the
    answer model does.  The excerpts are the stripped previews of those
    of the first three text chunks that have a non-empty preview, joined
    by blank lines, or the words [No relevant context found.] when that
    is empty.  With the local stand-in in place, the answer is the
    heading [Answer (no LLM available). ...] followed by the excerpts.
    With the wrapper, when no model is configured, or the call of the
    model raises, or the response has no text or a blank one, the
    answer is the heading [Based on the retrieved context, ...]
    followed by the excerpts; when the model gives a text that is not
    blank, the answer is that text, stripped.  The stand-in is what
    [__init__] installs when the wrapper cannot be imported, and the
    wrapper has no model without an API key. *)
Theorem answer_generation_never_raises env p question w hits w1 images_resp w2 :
  nonempty (strip question) = true ->
  retrieve env p question w = (Ok hits, w1) ->
  foldM (image_item env p) (image_ranked (snd hits)) [] w1 = (Ok images_resp, w2) ->
  let ctx := make_context (map text_chunk (text_ranked (fst hits))) images_resp in
  let previews :=
    flat_map (fun t => match tc_chunk_text_preview t with
                       | Some (String c s) => [strip (String c s)]
                       | _ => []
                       end)
             (firstn 3 (map text_chunk (text_ranked (fst hits)))) in
  let excerpts :=
    match join (String.append nl nl) previews with
    | EmptyString => "No relevant context found."
    | joined => joined
    end in
  (exists resp w',
      answer_question env p question w = (Ok resp, w') /\ context resp = ctx)
  /\ (answer_generator p = Fallback ->
      exists resp w',
        answer_question env p question w = (Ok resp, w')
        /\ answer_text resp =
           String.concat ""
             ["Answer (no LLM available). Based only on retrieved context, here are the most relevant excerpts:";
              nl; nl; excerpts])
  /\ (forall g,
        answer_generator p = Gemini g ->
        GeminiAnswerGenerator._genai g = false
        \/ (exists e,
              llm_generate_content env w2 (GeminiAnswerGenerator._model_name g)
                (GeminiAnswerGenerator._build_prompt question ctx) = Raise e)
        \/ (exists resp,
              llm_generate_content env w2 (GeminiAnswerGenerator._model_name g)
                (GeminiAnswerGenerator._build_prompt question ctx) = Ok resp
              /\ forall text, resp = Some text -> nonempty (strip text) = false) ->
        exists resp w',
          answer_question env p question w = (Ok resp, w')
          /\ answer_text resp =
             String.concat ""
               ["Based on the retrieved context, here are the most relevant excerpts:";
                nl; nl; excerpts])
  /\ (forall g text,
        answer_generator p = Gemini g ->
        GeminiAnswerGenerator._genai g = true ->
        llm_generate_content env w2 (GeminiAnswerGenerator._model_name g)
          (GeminiAnswerGenerator._build_prompt question ctx) = Ok (Some text) ->
        nonempty (strip text) = true ->
        exists resp w',
          answer_question env p question w = (Ok resp, w')
          /\ answer_text resp = strip text)
  /\ (forall model api_key configures,
        init_answer_generator false model api_key configures = Fallback)
  /\ (forall model configures,
        GeminiAnswerGenerator._genai
          (GeminiAnswerGenerator.init model None configures) = false).
Proof.
  intros Hq Hr Hi ctx previews excerpts.
  assert (Hrun : forall s w3,
             generate env (answer_generator p) question ctx w2 = (Ok s, w3) ->
             exists resp,
               answer_question env p question w = (Ok resp, w3 ++ [EvUuid4])
               /\ answer_text resp = s /\ context resp = ctx).
  { intros s w3 Hg.
    destruct (respond_after_images env p question _ _ _ _ _ _ _ Hi Hg)
      as [resp [E [Ea [Ec _]]]].
    exists resp. split; [|split; assumption].
    unfold answer_question. rewrite Hq. cbv beta iota delta [negb].
    eapply run_bind_ok; [exact Hr | exact E]. }
  assert (Hex : GeminiAnswerGenerator.or_no_context
                  (join (String.append nl nl) (GeminiAnswerGenerator.top_previews ctx))
                = excerpts).
  { unfold ctx, excerpts, previews. rewrite top_previews_spec, or_no_context_spec.
    destruct (join _ _); reflexivity. }
  split; [|split; [|split; [|split; [|split; reflexivity]]]].
  - destruct (generate_returns env (answer_generator p) question ctx w2) as [s [w3 Hg]].
    destruct (Hrun s w3 Hg) as [resp [E [_ Ec]]]. eauto.
  - intros Ha.
    destruct (generate_falls_back env (answer_generator p) question ctx w2) as [w3 Hg].
    { rewrite Ha. exact I. }
    destruct (Hrun _ w3 Hg) as [resp [E [Ea _]]].
    exists resp. eexists. split; [exact E|]. rewrite Ea, Ha.
    cbn [fallback_answer]. unfold fallback_generate. rewrite Hex. reflexivity.
  - intros g Ha Hu.
    destruct (generate_falls_back env (answer_generator p) question ctx w2) as [w3 Hg].
    { rewrite Ha. destruct Hu as [Hu | [Hu | [resp [Hu Hb]]]].
      - left. exact Hu.
      - right. left. exact Hu.
      - right. right. exists resp. split; [exact Hu|].
        destruct resp as [text|]; [apply Hb; reflexivity | reflexivity]. }
    destruct (Hrun _ w3 Hg) as [resp [E [Ea _]]].
    exists resp. eexists. split; [exact E|]. rewrite Ea, Ha.
    cbn [fallback_answer]. unfold GeminiAnswerGenerator.extractive_fallback.
    rewrite Hex. reflexivity.
  - intros g text Ha Hg Hl Hn.
    assert (Hgen : generate env (answer_generator p) question ctx w2
                   = (Ok (strip text),
                      w2 ++ [EvGenerateContent (GeminiAnswerGenerator._model_name g)
                               (GeminiAnswerGenerator._build_prompt question ctx)])).
    { rewrite Ha. cbn [generate]. unfold GeminiAnswerGenerator.generate.
      rewrite Hg. unfold try_except, bind, call. rewrite Hl.
      cbn [GeminiAnswerGenerator.or_empty]. rewrite Hn. reflexivity. }
    destruct (Hrun _ _ Hgen) as [resp [E [Ea _]]].
    exists resp. eexists. split; [exact E | exact Ea].
Qed.
End Answer.

Section AnswerOnIEEE.
Import IEEE.
Import Fixtures.
Import QueryPipeline.

(** The answer model is down: the response carries the extractive
    answer, with the stripped preview of the one text chunk. *)
Lemma answer_generation_never_raises_witness :
  exists resp w',
    answer_question env_llm_down (pipeline gemini_up) a_question [] = (Ok resp, w')
    /\ answer_text resp =
       String.concat ""
         ["Based on the retrieved context, here are the most relevant excerpts:";
          nl; nl; "Revenue grew 12%."].
Proof.
  pose (r := retrieve env_llm_down (pipeline gemini_up) a_question []).
  pose (hits := match fst r with Ok h => h | Raise _ => ([], []) end).
  assert (Hr : retrieve env_llm_down (pipeline gemini_up) a_question []
               = (Ok hits, snd r)) by reflexivity.
  pose (i := foldM (image_item env_llm_down (pipeline gemini_up))
               (image_ranked (snd hits)) [] (snd r)).
  pose (imgs := match fst i with Ok x => x | Raise _ => [] end).
  assert (Hi : foldM (image_item env_llm_down (pipeline gemini_up))
                 (image_ranked (snd hits)) [] (snd r) = (Ok imgs, snd i))
    by reflexivity.
  destruct (proj1 (proj2 (proj2 (answer_generation_never_raises
              env_llm_down (pipeline gemini_up) a_question [] hits (snd r) imgs (snd i)
              eq_refl Hr Hi))) _ eq_refl) as [resp [w' [E Ea]]].
  { right. left. eexists. reflexivity. }
  exists resp, w'. split; [exact E|]. rewrite Ea. reflexivity.
Defined.
End AnswerOnIEEE.

(* ===================================================================== *)
(** * The search negotiation                                              *)
(* ===================================================================== *)

Section Search.
Context {T : FloatTypes}.
Import QdrantRepository.
Variables (env : Env) (collection : string) (vector : list F64) (top_k : Z)
          (flt : option Filter) (w : World).

Let c1 (m : method) := search_call m collection (primary_kw m) vector top_k kw_query_filter flt.
Let c2 (m : method) (e : exn) :=
  search_call m collection (primary_kw m) vector top_k (retry_kw e) flt.
Let c3 (e : exn) :=
  search_call m_query_points collection kw_vector vector top_k (retry_kw e) flt.
Let run := _search env collection vector top_k flt w.

Lemma method_eq_query_points (m : method) : {m = m_query_points} + {m <> m_query_points}.
Proof. destruct m; [right | left | right]; congruence. Qed.

Lemma search_no_method :
  first_method env = None -> run = (Raise no_method_error, w).
Proof.
  unfold first_method, run, _search.
  destruct (client_has env m_search); [discriminate|].
  destruct (client_has env m_query_points); [discriminate|].
  destruct (client_has env m_search_points); [discriminate|]. reflexivity.
Qed.

Ltac pick_method H :=
  unfold first_method in H; unfold run, _search;
  destruct (client_has env m_search);
  [|destruct (client_has env m_query_points);
    [|destruct (client_has env m_search_points); [|discriminate H]]];
  injection H as <-.

Lemma search_primary_ok m hits :
  first_method env = Some m ->
  client_search env w (c1 m) = Ok hits ->
  run = (Ok hits, w ++ [EvSearch (c1 m)]).
Proof.
  intros Hm H1. pick_method Hm;
    unfold try_except, client_call, call; fold (c1 m_search) (c1 m_query_points) (c1 m_search_points);
    cbv beta; unfold c1 in *; simpl primary_kw in *; unfold search_call in *; rewrite H1; reflexivity.
Qed.

Lemma search_primary_other_error m e :
  first_method env = Some m ->
  client_search env w (c1 m) = Raise e ->
  is_shape_error e = false ->
  run = (Raise e, w ++ [EvSearch (c1 m)]).
Proof.
  intros Hm H1 Hs. unfold is_shape_error in Hs. apply orb_false_elim in Hs as [Hq Hf].
  pick_method Hm;
    unfold try_except, client_call, call; cbv beta;
    unfold c1 in *; simpl primary_kw in *; unfold search_call in *; rewrite H1;
    cbv beta iota; rewrite Hq, Hf; reflexivity.
Qed.

Lemma search_retry m e :
  first_method env = Some m ->
  m <> m_query_points ->
  client_search env w (c1 m) = Raise e ->
  is_shape_error e = true ->
  run = (client_search env (w ++ [EvSearch (c1 m)]) (c2 m e),
         w ++ [EvSearch (c1 m)] ++ [EvSearch (c2 m e)]).
Proof.
  intros Hm Hne H1 Hs. unfold is_shape_error in Hs.
  pick_method Hm; try contradiction;
    unfold try_except, client_call, call; cbv beta;
    unfold c1, c2, retry_kw in *; simpl primary_kw in *; unfold search_call in *;
    rewrite H1; cbv beta iota;
    destruct (complains_query_filter (lower (str e))); simpl in Hs;
    try rewrite Hs; rewrite <- ?app_assoc; reflexivity.
Qed.

Lemma search_retry_query_points_ok e hits :
  first_method env = Some m_query_points ->
  client_search env w (c1 m_query_points) = Raise e ->
  is_shape_error e = true ->
  client_search env (w ++ [EvSearch (c1 m_query_points)]) (c2 m_query_points e) = Ok hits ->
  run = (Ok hits, w ++ [EvSearch (c1 m_query_points)] ++ [EvSearch (c2 m_query_points e)]).
Proof.
  intros Hm H1 Hs H2. unfold is_shape_error in Hs.
  unfold first_method in Hm; unfold run, _search.
  destruct (client_has env m_search); [discriminate|].
  destruct (client_has env m_query_points); [|destruct (client_has env m_search_points); discriminate].
  unfold try_except, client_call, call; cbv beta.
  unfold c1, c2, retry_kw in *; simpl primary_kw in *; unfold search_call in *.
  rewrite H1; cbv beta iota.
  destruct (complains_query_filter (lower (str e))); simpl in Hs;
    try rewrite Hs; rewrite H2; rewrite <- ?app_assoc; reflexivity.
Qed.

Lemma search_retry_query_points_error e e' :
  first_method env = Some m_query_points ->
  client_search env w (c1 m_query_points) = Raise e ->
  is_shape_error e = true ->
  client_search env (w ++ [EvSearch (c1 m_query_points)]) (c2 m_query_points e) = Raise e' ->
  run = (client_search env
           (w ++ [EvSearch (c1 m_query_points)] ++ [EvSearch (c2 m_query_points e)]) (c3 e),
         w ++ [EvSearch (c1 m_query_points)] ++ [EvSearch (c2 m_query_points e)]
           ++ [EvSearch (c3 e)]).
Proof.
  intros Hm H1 Hs H2. unfold is_shape_error in Hs.
  unfold first_method in Hm; unfold run, _search.
  destruct (client_has env m_search); [discriminate|].
  destruct (client_has env m_query_points); [|destruct (client_has env m_search_points); discriminate].
  unfold try_except, client_call, call; cbv beta.
  unfold c1, c2, c3, retry_kw in *; simpl primary_kw in *; unfold search_call in *.
  rewrite H1; cbv beta iota.
  destruct (complains_query_filter (lower (str e))); simpl in Hs;
    try rewrite Hs; rewrite H2; rewrite <- ?app_assoc; reflexivity.
Qed.

Lemma search_primary_first m :
  first_method env = Some m ->
  exists rest, snd run = w ++ EvSearch (c1 m) :: rest.
Proof.
  intros Hm.
  destruct (client_search env w (c1 m)) as [hits | e] eqn:H1.
  - rewrite (search_primary_ok m hits Hm H1). exists []. reflexivity.
  - destruct (is_shape_error e) eqn:Hs.
    + destruct (method_eq_query_points m) as [-> | Hne].
      * destruct (client_search env (w ++ [EvSearch (c1 m_query_points)])
                    (c2 m_query_points e)) as [hits | e'] eqn:H2.
        -- rewrite (search_retry_query_points_ok e hits Hm H1 Hs H2).
           eexists. reflexivity.
        -- rewrite (search_retry_query_points_error e e' Hm H1 Hs H2).
           eexists. reflexivity.
      * rewrite (search_retry m e Hm Hne H1 Hs). eexists. reflexivity.
    + rewrite (search_primary_other_error m e Hm H1 Hs). exists []. reflexivity.
Qed.

(** The negotiation of [_search], call by call.  A client with none of
    [search], [query_points], [search_points] gets a [RuntimeError] and
    no call.  Otherwise, with [m] the first of these methods the client
    has: the first call is [m] with the filter passed as
    [query_filter]; a result is returned; an error of that call whose
    text [_search] does not take for a complaint about the filter
    parameter is raised as it is, after that single call; on a
    complaint the call is made again with the other spelling ([filter]
    after a complaint about [query_filter], [query_filter] after one
    about [filter]) and, for [search] and [search_points], the outcome
    of this second call is the outcome; for [query_points] a result of
    the second call is returned, and an error of the second call, of
    whatever kind, is dropped and a third call passing the vector as
    [vector] decides the outcome. *)
Theorem search_negotiation :
  (first_method env = None -> run = (Raise no_method_error, w))
  /\ (forall m, first_method env = Some m ->
        (exists rest, snd run = w ++ EvSearch (c1 m) :: rest)
        /\ (forall hits, client_search env w (c1 m) = Ok hits ->
              run = (Ok hits, w ++ [EvSearch (c1 m)]))
        /\ (forall e, client_search env w (c1 m) = Raise e ->
              is_shape_error e = false ->
              run = (Raise e, w ++ [EvSearch (c1 m)]))
        /\ (forall e, client_search env w (c1 m) = Raise e ->
              is_shape_error e = true ->
              m <> m_query_points ->
              run = (client_search env (w ++ [EvSearch (c1 m)]) (c2 m e),
                     w ++ [EvSearch (c1 m)] ++ [EvSearch (c2 m e)]))
        /\ (forall e hits, client_search env w (c1 m) = Raise e ->
              is_shape_error e = true ->
              m = m_query_points ->
              client_search env (w ++ [EvSearch (c1 m)]) (c2 m e) = Ok hits ->
              run = (Ok hits, w ++ [EvSearch (c1 m)] ++ [EvSearch (c2 m e)]))
        /\ (forall e e', client_search env w (c1 m) = Raise e ->
              is_shape_error e = true ->
              m = m_query_points ->
              client_search env (w ++ [EvSearch (c1 m)]) (c2 m e) = Raise e' ->
              run = (client_search env
                       (w ++ [EvSearch (c1 m)] ++ [EvSearch (c2 m e)]) (c3 e),
                     w ++ [EvSearch (c1 m)] ++ [EvSearch (c2 m e)]
                       ++ [EvSearch (c3 e)]))).
Proof.
  split; [exact search_no_method|].
  intros m Hm. split; [exact (search_primary_first m Hm)|].
  split; [intros hits; exact (search_primary_ok m hits Hm)|].
  split; [intros e; exact (search_primary_other_error m e Hm)|].
  split; [intros e H1 Hs Hne; exact (search_retry m e Hm Hne H1 Hs)|].
  split.
  - intros e hits H1 Hs -> H2. exact (search_retry_query_points_ok e hits Hm H1 Hs H2).
  - intros e e' H1 Hs -> H2. exact (search_retry_query_points_error e e' Hm H1 Hs H2).
Qed.
End Search.

Section SearchOnIEEE.
Import IEEE.
Import Fixtures.
Import QdrantRepository.

(** C7.  [_search] hides errors that are not about the shape of the
    parameters, where the claim says that such errors propagate
    unchanged.  First, on a client with [query_points] only, whose call
    with [query_filter] is refused as an unexpected keyword and whose
    retry with [filter] meets a network failure: the network failure is
    not raised; a third call is made and its hits are returned (the
    branches for [search] and [search_points] raise the error of the
    retry).  Second, on a client with [search] whose server refuses the
    filter itself, in a text that names [query_filter] without calling
    it unknown or unexpected: the call is made again with [filter], and
    the [TypeError] of that call is raised in place of the refusal. *)
Lemma search_masks_retry_error :
  let c1 := search_call m_query_points "text_chunks" kw_query [f_1] 5 kw_query_filter None in
  let c2 := search_call m_query_points "text_chunks" kw_query [f_1] 5 kw_filter None in
  let c3 := search_call m_query_points "text_chunks" kw_vector [f_1] 5 kw_filter None in
  let flt := Some [("source_pdf_id", "doc")] in
  let d1 := search_call m_search "text_chunks" kw_query_vector [f_1] 5 kw_query_filter flt in
  let d2 := search_call m_search "text_chunks" kw_query_vector [f_1] 5 kw_filter flt in
  (client_search env_flaky_client [] c1 = Raise unexpected_query_filter
   /\ client_search env_flaky_client [EvSearch c1] c2 = Raise network_error
   /\ contains "filter" (lower (str network_error)) = false
   /\ _search env_flaky_client "text_chunks" [f_1] 5 None []
      = (Ok three_hits, [EvSearch c1; EvSearch c2; EvSearch c3]))
  /\ (client_search FailureFixtures.env_refused_filter [] d1
      = Raise FailureFixtures.refused_filter_error
      /\ contains "unexpected keyword argument"
           (lower (str FailureFixtures.refused_filter_error)) = false
      /\ contains "unknown arguments"
           (lower (str FailureFixtures.refused_filter_error)) = false
      /\ client_search FailureFixtures.env_refused_filter [EvSearch d1] d2
         = Raise FailureFixtures.unexpected_filter
      /\ _search FailureFixtures.env_refused_filter "text_chunks" [f_1] 5 flt []
         = (Raise FailureFixtures.unexpected_filter, [EvSearch d1; EvSearch d2])).
Proof. repeat split; reflexivity. Qed.

(** A client that knows the filter as [filter] only: the call with
    [query_filter] raises a complaint, the call with [filter] returns
    the hits. *)
Lemma search_negotiation_witness :
  let c1 := search_call m_search "text_chunks" kw_query_vector [f_1] 5 kw_query_filter None in
  let c2 := search_call m_search "text_chunks" kw_query_vector [f_1] 5 kw_filter None in
  _search env_old_client "text_chunks" [f_1] 5 None []
  = (Ok three_hits, [EvSearch c1; EvSearch c2]).
Proof.
  intros c1 c2.
  refine (proj1 (proj2 (proj2 (proj2 (proj2
            (search_negotiation env_old_client "text_chunks" [f_1] 5 None [])
            m_search eq_refl)))) unexpected_query_filter eq_refl _ _).
  - reflexivity.
  - discriminate.
Defined.
End SearchOnIEEE.

(* ===================================================================== *)
(** * Query embeddings                                                    *)
(* ===================================================================== *)

Section QueryVectors.
Context {T : FloatTypes} {O : FloatOps} {V : VecOps}.













End QueryVectors.

Section ZeroNorm.
Context {T : FloatTypes} {O : FloatOps} {V : VecOps}.







End ZeroNorm.

Section ExactNorm.
Local Open Scope R_scope.



End ExactNorm.


Section QueryVectorsOnIEEE.
Import IEEE.
Import Fixtures.


End QueryVectorsOnIEEE.

(* ===================================================================== *)
(** * Batch embedding of texts into the image space                       *)
(* ===================================================================== *)

Section Batch.
Context {T : FloatTypes} {V : VecOps}.
Import ImageEmbeddingService.

(** C10.  For a non-empty list of texts on which the encoder returns:
    [embed_texts_to_image_space] returns, with one row per encoder row;
    a row of norm zero is divided by [1.0] instead of its norm, a row of
    non-zero norm by its norm.  The single-text operation raises on a
    row of norm zero. *)
Theorem batch_text_embedding_keeps_zero_rows env texts w feats :
  texts <> [] ->
  clip_encode_text env w texts = Ok feats ->
  embed_texts_to_image_space env texts w =
    (Ok (map (fun row => map of_f32 (normalize_row row)) feats),
     w ++ [EvEncodeText texts])
  /\ (forall row, eqb32 (norm32 row) zero32 = true ->
        normalize_row row = map (fun x => div32 x one32) row)
  /\ (forall row, eqb32 (norm32 row) zero32 = false ->
        normalize_row row = map (fun x => div32 x (norm32 row)) row)
  /\ (forall text row, nonempty (strip text) = true ->
        clip_encode_text env w [text] = Ok [row] ->
        eqb32 (norm32 row) zero32 = true ->
        embed_text_to_image_space env text w =
          (Raise zero_norm_error, w ++ [EvEncodeText [text]])).
Proof.
  intros Hne Hc. repeat split.
  - unfold embed_texts_to_image_space. destruct texts; [contradiction|].
    unfold bind, call. rewrite Hc. reflexivity.
  - intros row Hz. unfold normalize_row. rewrite Hz. reflexivity.
  - intros row Hz. unfold normalize_row. rewrite Hz. reflexivity.
  - intros text row Ht Hr Hz. unfold embed_text_to_image_space.
    rewrite Ht. cbv beta iota delta [negb]. unfold bind, call. cbv beta. rewrite Hr.
    unfold TextEmbeddingService.lift, squeeze0. rewrite Hz. reflexivity.
Qed.
End Batch.

Section BatchOnIEEE.
Import IEEE.
Import Fixtures.
Import ImageEmbeddingService.

(** A zero row and a unit row: both come back as they are. *)
Lemma batch_text_embedding_keeps_zero_rows_witness :
  embed_texts_to_image_space env_clip_zero_row ["a"; "b"] []
  = (Ok [[f_0; f_0]; [f_1; f_0]], [EvEncodeText ["a"; "b"]]).
Proof.
  refine (eq_trans (proj1 (batch_text_embedding_keeps_zero_rows
            env_clip_zero_row ["a"; "b"] [] _ _ eq_refl)) _).
  - discriminate.
  - reflexivity.
Defined.
End BatchOnIEEE.
(* ===================================================================== *)
(** * Normalization and ranking: order, bounds, permutation               *)
(* ===================================================================== *)

Section RankingAnyArithmetic.
Context {T : FloatTypes} {O : FloatOps}.
Import QueryPipeline.

Lemma normalize_scores_length scores :
  List.length (_normalize_scores scores) = List.length scores.
Proof.
  unfold _normalize_scores.
  destruct (map to_f32 scores) as [|a arr] eqn:E.
  - destruct scores; [reflexivity | discriminate].
  - destruct (leb64 _ _); apply length_map.
Qed.

Lemma map_fst_combine_le {A B} (l : list A) (l' : list B) :
  (List.length l <= List.length l')%nat -> map fst (combine l l') = l.
Proof.
  revert l'. induction l as [|x l IH]; intros [|y l'] H; simpl in *;
    try reflexivity; try lia.
  f_equal. apply IH. lia.
Qed.

Lemma text_tuples_hits hits : map r_hit (text_tuples hits) = hits.
Proof.
  unfold text_tuples. rewrite map_map.
  rewrite (map_ext _ fst) by (intros [h [ts fs]]; reflexivity).
  apply map_fst_combine_le.
  rewrite length_combine, length_map, normalize_scores_length, length_map. lia.
Qed.

Lemma image_tuples_hits hits : map r_hit (image_tuples hits) = hits.
Proof.
  unfold image_tuples. rewrite map_map.
  rewrite (map_ext _ fst) by (intros [h [ts fs]]; reflexivity).
  apply map_fst_combine_le.
  rewrite length_combine, length_map, normalize_scores_length, length_map. lia.
Qed.

Lemma insert_desc_perm x l : Permutation (insert_desc x l) (x :: l).
Proof.
  induction l as [|y l IH]; simpl; [reflexivity|].
  destruct (ltb64 (r_fused x) (r_fused y)); [|reflexivity].
  rewrite IH. apply perm_swap.
Qed.

Lemma sort_by_fused_desc_perm l : Permutation (sort_by_fused_desc l) l.
Proof.
  unfold sort_by_fused_desc. induction l as [|x l IH]; simpl; [reflexivity|].
  rewrite insert_desc_perm. constructor. exact IH.
Qed.

(** X1.  Ranking loses nothing and invents nothing: the hits of the
    ranked text list are the text hits in some order, and likewise for
    the images, whatever the scores are (NaN and infinities included);
    normalization returns one number per score. *)
Theorem ranking_keeps_every_hit (hits : list SearchHit) :
  Permutation (map r_hit (text_ranked hits)) hits
  /\ Permutation (map r_hit (image_ranked hits)) hits
  /\ List.length (text_ranked hits) = List.length hits
  /\ List.length (image_ranked hits) = List.length hits
  /\ List.length (_normalize_scores (map hit_score hits)) = List.length hits.
Proof.
  assert (Ht : Permutation (map r_hit (text_ranked hits)) hits).
  { unfold text_ranked. rewrite sort_by_fused_desc_perm, text_tuples_hits. reflexivity. }
  assert (Hi : Permutation (map r_hit (image_ranked hits)) hits).
  { unfold image_ranked. rewrite sort_by_fused_desc_perm, image_tuples_hits. reflexivity. }
  split; [exact Ht|]. split; [exact Hi|].
  split; [|split].
  - rewrite <- (Permutation_length Ht). symmetry. apply length_map.
  - rewrite <- (Permutation_length Hi). symmetry. apply length_map.
  - rewrite normalize_scores_length. apply length_map.
Qed.
End RankingAnyArithmetic.

Section RankingOrder.
Context {T : FloatTypes} {O : FloatOps} (L : FloatLaws O).
Import QueryPipeline.

(** X2.  Normalization keeps the order of the scores: a hit whose raw
    score is not above that of another hit does not get a normalized
    score above it.  The arithmetic is any that satisfies
    [FloatLaws]. *)
Theorem normalize_scores_keeps_order scores i j si sj :
  nth_error scores i = Some si ->
  nth_error scores j = Some sj ->
  leb64 si sj = true ->
  exists ni nj,
    nth_error (_normalize_scores scores) i = Some ni
    /\ nth_error (_normalize_scores scores) j = Some nj
    /\ leb64 ni nj = true.
Proof.
  intros Hi Hj Hle.
  destruct (normalize_scores_map L scores) as [g [Hg E]].
  exists (g si), (g sj). rewrite E, !nth_error_map, Hi, Hj.
  repeat split. apply Hg, Hle.
Qed.

Let above (a b : Ranked) : Prop := leb64 (r_fused b) (r_fused a) = true.

Lemma insert_desc_hd x l y :
  HdRel above y l -> above y x -> HdRel above y (insert_desc x l).
Proof.
  intros Hl Hx. destruct l as [|z l]; simpl; [constructor; exact Hx|].
  destruct (ltb64 (r_fused x) (r_fused z)); constructor; [|exact Hx].
  inversion Hl; assumption.
Qed.

Lemma insert_desc_sorted x l : Sorted above l -> Sorted above (insert_desc x l).
Proof.
  induction 1 as [|y l Hs IH Hd]; simpl; [repeat constructor|].
  destruct (ltb64 (r_fused x) (r_fused y)) eqn:E; rewrite (ltb_leb O L) in E.
  - constructor; [exact IH|]. apply insert_desc_hd; [exact Hd|].
    unfold above. destruct (leb_total O L (r_fused x) (r_fused y)) as [H | H];
      [exact H|]. rewrite H in E. discriminate.
  - constructor; [constructor; assumption|]. constructor.
    unfold above. destruct (leb64 (r_fused y) (r_fused x)); [reflexivity | discriminate].
Qed.

Lemma sort_by_fused_desc_sorted l : Sorted above (sort_by_fused_desc l).
Proof.
  unfold sort_by_fused_desc. induction l as [|x l IH]; simpl; [constructor|].
  apply insert_desc_sorted, IH.
Qed.

(** X3.  The ranked lists are in decreasing order of fused score: no
    entry is followed by one with a larger fused score, in whatever
    order the hits came.  The arithmetic is any that satisfies
    [FloatLaws]. *)
Theorem ranking_is_descending (hits : list SearchHit) :
  Sorted (fun a b => leb64 (r_fused b) (r_fused a) = true) (text_ranked hits)
  /\ Sorted (fun a b => leb64 (r_fused b) (r_fused a) = true) (image_ranked hits).
Proof. split; apply sort_by_fused_desc_sorted. Qed.
End RankingOrder.

Section RankingOnRationals.
Import Rnd.
Import QueryPipeline.
Local Open Scope Q_scope.

(** The hits scored [0.5, 0.9]: the second does not rank below the
    first after normalization. *)
Lemma normalize_scores_keeps_order_witness :
  exists ni nj,
    nth_error (_normalize_scores [r64 (5 # 10); r64 (9 # 10)]) 0 = Some ni
    /\ nth_error (_normalize_scores [r64 (5 # 10); r64 (9 # 10)]) 1 = Some nj
    /\ leb64 ni nj = true.
Proof.
  apply (normalize_scores_keeps_order Rnd_laws [r64 (5 # 10); r64 (9 # 10)] 0 1
           (r64 (5 # 10)) (r64 (9 # 10)) eq_refl eq_refl).
  vm_compute. reflexivity.
Defined.

(** Hits that come in increasing order of score are ranked in
    decreasing order. *)
Lemma ranking_is_descending_witness :
  Sorted (fun a b => leb64 (r_fused b) (r_fused a) = true)
         (text_ranked [RndFixtures.hit_of "b" (5 # 10); RndFixtures.hit_of "a" (9 # 10)]).
Proof.
  exact (proj1 (ranking_is_descending Rnd_laws
                  [RndFixtures.hit_of "b" (5 # 10); RndFixtures.hit_of "a" (9 # 10)])).
Defined.
End RankingOnRationals.

Section EqualScoresOnIEEE.
Import IEEE.
Import IEEEVocabulary.
Import Fixtures.
Import QueryPipeline.

Lemma SFcompare_same x : x <> S754_nan -> SFcompare x x = Some Eq.
Proof.
  destruct x as [s | s | | s m e]; intros H.
  - reflexivity.
  - destruct s; reflexivity.
  - contradiction.
  - cbn [SFcompare]. rewrite Z.compare_refl, Pos.compare_cont_refl.
    destruct s; reflexivity.
Qed.

Lemma min32_same (x : F32) : x <> S754_nan -> min32 x x = x.
Proof. intros H. change (fmin x x = x). unfold fmin. rewrite SFcompare_same; auto. Qed.

Lemma max32_same (x : F32) : x <> S754_nan -> max32 x x = x.
Proof. intros H. change (fmax x x = x). unfold fmax. rewrite SFcompare_same; auto. Qed.

Lemma array_min_same (x : F32) n : x <> S754_nan -> array_min x (repeat x n) = x.
Proof.
  intros H. unfold array_min. induction n as [|n IH]; [reflexivity|].
  cbn [repeat fold_left]. rewrite min32_same by exact H. exact IH.
Qed.

Lemma array_max_same (x : F32) n : x <> S754_nan -> array_max x (repeat x n) = x.
Proof.
  intros H. unfold array_max. induction n as [|n IH]; [reflexivity|].
  cbn [repeat fold_left]. rewrite max32_same by exact H. exact IH.
Qed.

Lemma sub64_same (y : F64) : finite_float y = true -> sub64 y y = S754_zero false.
Proof.
  intros H. change (SFsub 53 1024 y y = S754_zero false).
  destruct y as [s | s | | s m e]; try discriminate H.
  - destruct s; reflexivity.
  - cbn [SFsub]. rewrite Z.sub_diag. reflexivity.
Qed.

Lemma finite_cast_not_nan (s : F64) :
  finite_float (of_f32 (to_f32 s)) = true -> to_f32 s <> S754_nan.
Proof. intros H E. rewrite E in H. discriminate H. Qed.

Lemma map_const_repeat {A B} (b : B) (l : list A) :
  map (fun _ => b) l = repeat b (List.length l).
Proof. induction l as [|a l IH]; simpl; congruence. Qed.

Lemma equal_scores_degenerate (s : F64) (n : nat) :
  finite_float (of_f32 (to_f32 s)) = true ->
  _normalize_scores (repeat s (S n)) = repeat lit_1 (S n).
Proof.
  intros H. pose proof (finite_cast_not_nan s H) as Hn.
  unfold _normalize_scores. rewrite map_repeat. cbn [repeat].
  rewrite array_min_same, array_max_same by exact Hn.
  rewrite sub64_same by exact H.
  replace (@leb64 IEEE.types IEEE.ops (S754_zero false) lit_1e_12) with true
    by (vm_compute; reflexivity).
  rewrite map_const_repeat. cbn [List.length]. rewrite repeat_length. reflexivity.
Qed.

(** X4.  On IEEE-754 floats, scores that are all equal are all
    normalized to [1.0], so that a lone hit gets the text score [1.0]
    and the fused score [0.6] (an image hit [0.4]), whatever its raw
    score, provided that the score cast to float32 is finite.  A score
    beyond the float32 range is cast to infinity, and the lone hit then
    gets NaN. *)
Theorem equal_scores_normalize_to_one (s : F64) (n : nat) (h : SearchHit) :
  finite_float (of_f32 (to_f32 s)) = true ->
  finite_float (of_f32 (to_f32 (hit_score h))) = true ->
  _normalize_scores (repeat s (S n)) = repeat lit_1 (S n)
  /\ map r_text_norm (text_ranked [h]) = [lit_1]
  /\ map r_fused (text_ranked [h]) = [lit_0_6]
  /\ map r_image_norm (image_ranked [h]) = [lit_1]
  /\ map r_fused (image_ranked [h]) = [lit_0_4]
  /\ _normalize_scores [FailureFixtures.beyond_float32] = [S754_nan].
Proof.
  intros Hs Hh.
  split; [exact (equal_scores_degenerate s n Hs)|].
  pose proof (equal_scores_degenerate (hit_score h) 0 Hh) as H1. cbn [repeat] in H1.
  assert (Ht : fuse_text lit_1 = lit_0_6) by (vm_compute; reflexivity).
  assert (Hi : fuse_image lit_1 = lit_0_4) by (vm_compute; reflexivity).
  unfold text_ranked, image_ranked, text_tuples, image_tuples.
  cbn [map]. rewrite H1. cbn [map combine sort_by_fused_desc fold_right insert_desc
                                r_text_norm r_image_norm r_fused].
  rewrite Ht, Hi.
  split; [reflexivity|]. split; [reflexivity|]. split; [reflexivity|].
  split; [reflexivity|]. vm_compute. reflexivity.
Qed.

(** Three hits scored [0.9] each, and the lone hit scored [0.9]. *)
Lemma equal_scores_normalize_to_one_witness :
  _normalize_scores (repeat s_0_9 3) = repeat lit_1 3
  /\ map r_text_norm (text_ranked [text_hit "a" s_0_9 "Revenue grew 12%."]) = [lit_1]
  /\ map r_fused (text_ranked [text_hit "a" s_0_9 "Revenue grew 12%."]) = [lit_0_6].
Proof.
  destruct (equal_scores_normalize_to_one s_0_9 2
              (text_hit "a" s_0_9 "Revenue grew 12%.") eq_refl eq_refl)
    as [H1 [H2 [H3 _]]].
  split; [exact H1|]. split; [exact H2 | exact H3].
Defined.
End EqualScoresOnIEEE.

Section NormalizationOnFloat32Scores.
Import Rnd.
Import QueryPipeline.
Local Open Scope Q_scope.

Lemma qmin_le a b : qmin a b <= a /\ qmin a b <= b.
Proof.
  unfold qmin. destruct (Qle_bool a b) eqn:E.
  - apply Qle_bool_iff in E. split; [apply Qle_refl | exact E].
  - split; [|apply Qle_refl]. apply Qlt_le_weak, Qnot_le_lt. intros H.
    apply Qle_bool_iff in H. congruence.
Qed.

Lemma qmax_ge a b : a <= qmax a b /\ b <= qmax a b.
Proof.
  unfold qmax. destruct (Qle_bool a b) eqn:E.
  - apply Qle_bool_iff in E. split; [exact E | apply Qle_refl].
  - split; [apply Qle_refl|]. apply Qlt_le_weak, Qnot_le_lt. intros H.
    apply Qle_bool_iff in H. congruence.
Qed.

Lemma fold_qmin_le l : forall a x, In x (a :: l) -> fold_left qmin l a <= x.
Proof.
  induction l as [|b l IH]; intros a x Hin; simpl.
  - destruct Hin as [<- | []]. apply Qle_refl.
  - destruct (qmin_le a b) as [Ha Hb].
    destruct Hin as [<- | [<- | Hin]].
    + apply Qle_trans with (qmin a b); [apply IH; left; reflexivity | exact Ha].
    + apply Qle_trans with (qmin a b); [apply IH; left; reflexivity | exact Hb].
    + apply IH. right. exact Hin.
Qed.

Lemma fold_qmax_ge l : forall a x, In x (a :: l) -> x <= fold_left qmax l a.
Proof.
  induction l as [|b l IH]; intros a x Hin; simpl.
  - destruct Hin as [<- | []]. apply Qle_refl.
  - destruct (qmax_ge a b) as [Ha Hb].
    destruct Hin as [<- | [<- | Hin]].
    + apply Qle_trans with (qmax a b); [exact Ha | apply IH; left; reflexivity].
    + apply Qle_trans with (qmax a b); [exact Hb | apply IH; left; reflexivity].
    + apply IH. right. exact Hin.
Qed.

Lemma fold_qmax_In l : forall a, In (fold_left qmax l a) (a :: l).
Proof.
  induction l as [|b l IH]; intros a; simpl; [left; reflexivity|].
  destruct (IH (qmax a b)) as [H | H]; [|right; right; exact H].
  rewrite <- H. unfold qmax. destruct (Qle_bool a b); [right; left | left]; reflexivity.
Qed.

Lemma array_min_le (l : list Q) (a x : Q) : In x (a :: l) -> array_min a l <= x.
Proof. exact (fold_qmin_le l a x). Qed.

Lemma array_max_ge (l : list Q) (a x : Q) : In x (a :: l) -> x <= array_max a l.
Proof. exact (fold_qmax_ge l a x). Qed.

Lemma array_max_In (l : list Q) (a : Q) : In (array_max a l) (a :: l).
Proof. exact (fold_qmax_In l a). Qed.

Lemma r64_0 : r64 0 == 0.
Proof. vm_compute. reflexivity. Qed.

Lemma r64_1 : r64 1 == 1.
Proof. vm_compute. reflexivity. Qed.

Lemma r64_eq x y : x == y -> r64 x == r64 y.
Proof.
  intros H. apply Qle_antisym; apply r64_mono; rewrite H; apply Qle_refl.
Qed.

(** The quotient of the normalization, for a score between the minimum
    and the maximum. *)
Lemma quotient_in_unit_interval s mn mx :
  mn <= s -> s <= mx -> 0 < r64 (mx - mn) ->
  0 <= r64 (r64 (s - mn) / r64 (mx - mn)) /\ r64 (r64 (s - mn) / r64 (mx - mn)) <= 1.
Proof.
  intros Hlo Hhi Hd.
  assert (Hn0 : 0 <= r64 (s - mn)).
  { apply Qle_trans with (r64 0); [rewrite r64_0; apply Qle_refl|]. apply r64_mono. lra. }
  assert (Hn1 : r64 (s - mn) <= r64 (mx - mn)) by (apply r64_mono; lra).
  split.
  - apply Qle_trans with (r64 0); [rewrite r64_0; apply Qle_refl|]. apply r64_mono.
    apply Qle_shift_div_l; [exact Hd|]. rewrite Qmult_0_l. exact Hn0.
  - apply Qle_trans with (r64 1); [|rewrite r64_1; apply Qle_refl]. apply r64_mono.
    apply Qle_shift_div_r; [exact Hd|]. rewrite Qmult_1_l. exact Hn1.
Qed.

Lemma quotient_of_maximum s mn mx :
  s == mx -> 0 < r64 (mx - mn) ->
  r64 (r64 (s - mn) / r64 (mx - mn)) == 1.
Proof.
  intros Hs Hd. rewrite <- r64_1. apply r64_eq.
  assert (E : r64 (s - mn) == r64 (mx - mn)) by (apply r64_eq; rewrite Hs; reflexivity).
  rewrite E. field. intros H. rewrite H in Hd. apply (Qlt_irrefl 0), Hd.
Qed.

(** X5.  On finite floats, when every raw score is a float32 value
    (as the scores of the vector database are), the normalized scores
    lie between 0 and 1 and a hit of maximal raw score gets 1. *)
Theorem float32_scores_normalize_into_unit_interval (scores : list Q) :
  Forall (fun s => r32 s == s) scores ->
  Forall (fun x => 0 <= x /\ x <= 1) (_normalize_scores scores)
  /\ (forall i s,
        nth_error scores i = Some s ->
        (forall s', In s' scores -> s' <= s) ->
        exists x, nth_error (_normalize_scores scores) i = Some x /\ x == 1).
Proof.
  intros Hf. unfold _normalize_scores.
  destruct (map (@to_f32 Rnd.types) scores) as [|a arr] eqn:E.
  { destruct scores; [|discriminate]. split; [constructor|].
    intros [|i] s H; discriminate. }
  set (mn := array_min a arr). set (mx := array_max a arr).
  change (@of_f32 Rnd.types mn) with mn. change (@of_f32 Rnd.types mx) with mx.
  assert (Hin : forall s, In s scores -> In (r32 s) (a :: arr)).
  { intros s Hs. rewrite <- E. apply (in_map (@to_f32 Rnd.types)), Hs. }
  assert (Hb : forall s, In s scores -> mn <= s /\ s <= mx).
  { intros s Hs. rewrite Forall_forall in Hf. rewrite <- (Hf s Hs). split.
    - apply array_min_le, Hin, Hs.
    - apply array_max_ge, Hin, Hs. }
  match goal with |- context [if ?c then _ else _] => destruct c eqn:D end.
  - split.
    + apply Forall_forall. intros x Hx. apply in_map_iff in Hx as [s [<- _]].
      split; discriminate.
    + intros i s Hi _. exists lit_1. split; [|reflexivity].
      exact (map_nth_error (fun _ => lit_1) i scores Hi).
  - pose proof (above_eps_pos Rnd_laws _ D) as Hd.
    assert (Hd' : 0 < r64 (mx - mn)).
    { apply Qnot_le_lt. intros Hc. apply Qle_bool_iff in Hc.
      change (negb (Qle_bool (r64 (mx - mn)) 0) = true) in Hd.
      rewrite Hc in Hd. discriminate. }
    split.
    + apply Forall_forall. intros x Hx. apply in_map_iff in Hx as [s [<- Hs]].
      destruct (Hb s Hs) as [Hlo Hhi].
      exact (quotient_in_unit_interval s mn mx Hlo Hhi Hd').
    + intros i s Hi Hmax. eexists. split; [apply map_nth_error, Hi|]. cbv beta.
      apply quotient_of_maximum; [|exact Hd'].
      apply Qle_antisym; [apply Hb, (nth_error_In _ _ Hi)|].
      assert (Hm : In mx (map (@to_f32 Rnd.types) scores))
        by (rewrite E; apply array_max_In).
      apply in_map_iff in Hm as [s' [Es' Hs']].
      rewrite Forall_forall in Hf. rewrite <- Es'.
      change (r32 s' <= s). rewrite (Hf s' Hs'). apply Hmax, Hs'.
Qed.

(** The scores [0.5, 0.25, 0.75] are float32 values; the third is the
    largest and is normalized to 1. *)
Lemma float32_scores_normalize_into_unit_interval_witness :
  Forall (fun s => r32 s == s) [1 # 2; 1 # 4; 3 # 4]
  /\ exists x, nth_error (_normalize_scores [1 # 2; 1 # 4; 3 # 4]) 2 = Some x /\ x == 1.
Proof.
  assert (H : Forall (fun s => r32 s == s) [1 # 2; 1 # 4; 3 # 4]).
  { repeat constructor; vm_compute; reflexivity. }
  split; [exact H|].
  apply (proj2 (float32_scores_normalize_into_unit_interval [1 # 2; 1 # 4; 3 # 4] H)
               2%nat (3 # 4) eq_refl).
  intros s' [<- | [<- | [<- | []]]]; discriminate.
Defined.
End NormalizationOnFloat32Scores.

(* ===================================================================== *)
(** * The response of a query                                             *)
(* ===================================================================== *)

Section ImageItems.
Context {T : FloatTypes} {O : FloatOps} {V : VecOps}.
Import QueryPipeline.
Variables (env : Env) (p : t).

Lemma storage_keys_cons_none r l :
  storage_key r = None -> storage_keys (r :: l) = storage_keys l.
Proof. intros H. unfold storage_keys. simpl. rewrite H. reflexivity. Qed.

Lemma storage_keys_cons_some r l k :
  storage_key r = Some k -> storage_keys (r :: l) = k :: storage_keys l.
Proof. intros H. unfold storage_keys. simpl. rewrite H. reflexivity. Qed.

Lemma image_item_skips acc r w :
  storage_key r = None -> image_item env p acc r w = (Ok acc, w).
Proof.
  unfold storage_key, image_item.
  destruct (hp_image_s3_key (payload_of (r_hit r))) as [[|c k]|];
    try discriminate; reflexivity.
Qed.

(** The loop over the ranked images, from any list of entries built so
    far. *)
Lemma image_items_from irk : forall acc w,
  match foldM (image_item env p) irk acc w with
  | (Ok items, w') =>
      exists new,
        items = acc ++ new
        /\ map im_s3_key new = storage_keys irk
        /\ w' = w ++ map (presign_call p) (storage_keys irk)
        /\ Forall (fun it => exists r, In r irk /\ describes_image p r it) new
  | (Raise e, w') =>
      exists ks k rest,
        storage_keys irk = ks ++ k :: rest
        /\ w' = w ++ map (presign_call p) (ks ++ [k])
        /\ s3_presign env (w ++ map (presign_call p) ks) k (url_ttl p) = Raise e
  end.
Proof.
  induction irk as [|r irk IH]; intros acc w.
  - simpl. exists []. rewrite !app_nil_r. repeat split. constructor.
  - cbn [foldM]. unfold bind at 1.
    destruct (storage_key r) as [k|] eqn:Ek.
    + unfold image_item at 1. unfold storage_key in Ek.
      destruct (hp_image_s3_key (payload_of (r_hit r))) as [[|c k']|] eqn:Ep;
        try discriminate.
      injection Ek as <-.
      assert (Ek : storage_key r = Some (String c k'))
        by (unfold storage_key; rewrite Ep; reflexivity).
      unfold bind, call, ret.
      destruct (s3_presign env w (String c k') (url_ttl p)) as [url | e] eqn:Es.
      * specialize (IH (acc ++ [{|
            im_id := hp_id (payload_of (r_hit r));
            im_presigned_url := url;
            im_ttl_seconds := url_ttl p;
            im_page_number := hp_page_number (payload_of (r_hit r));
            im_caption_text := hp_caption_text (payload_of (r_hit r));
            im_alt_text := hp_alt_text (payload_of (r_hit r));
            im_image_mime_type := hp_image_mime_type (payload_of (r_hit r));
            im_s3_key := String c k';
            im_scores := {| image_score := round6 (r_image_norm r);
                            text_score := round6 (r_text_norm r);
                            fused_score := round6 (r_fused r) |};
            im_embedding_model_name := hp_embedding_model_name (payload_of (r_hit r));
            im_modality := "image" |}])
          (w ++ [EvPresign (String c k') (url_ttl p)])).
        destruct (foldM (image_item env p) irk _ _) as [[items | e] w'].
        -- destruct IH as [new [E1 [E2 [E3 F]]]].
           eexists (_ :: new). rewrite (storage_keys_cons_some _ _ _ Ek).
           split; [rewrite E1, <- app_assoc; reflexivity|].
           split; [simpl; rewrite E2; reflexivity|].
           split; [rewrite E3, <- app_assoc; reflexivity|].
           constructor.
           ++ exists r. split; [left; reflexivity|].
              unfold describes_image. simpl. repeat split. exact Ek.
           ++ eapply Forall_impl; [|exact F].
              intros it [r' [Hin Hd]]. exists r'. split; [right; exact Hin | exact Hd].
        -- destruct IH as [ks [k [rest [E1 [E2 E3]]]]].
           exists (String c k' :: ks), k, rest.
           rewrite (storage_keys_cons_some _ _ _ Ek), E1.
           split; [reflexivity|].
           split; [rewrite E2, <- app_assoc; reflexivity|].
           simpl. rewrite <- E3. f_equal. rewrite <- app_assoc. reflexivity.
      * exists [], (String c k'), (storage_keys irk).
        rewrite (storage_keys_cons_some _ _ _ Ek).
        split; [reflexivity|]. split; [reflexivity|].
        simpl. rewrite app_nil_r. exact Es.
    + rewrite (image_item_skips acc r w Ek).
      rewrite (storage_keys_cons_none _ _ Ek).
      specialize (IH acc w).
      destruct (foldM (image_item env p) irk acc w) as [[items | e] w'].
      * destruct IH as [new [E1 [E2 [E3 F]]]]. exists new.
        repeat split; try assumption.
        eapply Forall_impl; [|exact F].
        intros it [r' [Hin Hd]]. exists r'. split; [right; exact Hin | exact Hd].
      * exact IH.
Qed.

(** X6.  The loop that builds the image entries of a response asks for
    one URL per ranked image that has a storage key, in ranking order
    and with the time to live of the pipeline; an image without a key is
    skipped without a call.  When every request succeeds the entries
    are those images, in that order; the first request that fails ends
    the loop with its error. *)
Theorem image_items_follow_ranking (irk : list Ranked) (w : World) :
  match foldM (image_item env p) irk [] w with
  | (Ok items, w') =>
      map im_s3_key items = storage_keys irk
      /\ w' = w ++ map (presign_call p) (storage_keys irk)
      /\ Forall (fun it => exists r, In r irk /\ describes_image p r it) items
  | (Raise e, w') =>
      exists ks k rest,
        storage_keys irk = ks ++ k :: rest
        /\ w' = w ++ map (presign_call p) (ks ++ [k])
        /\ s3_presign env (w ++ map (presign_call p) ks) k (url_ttl p) = Raise e
  end.
Proof.
  pose proof (image_items_from irk [] w) as H.
  destruct (foldM (image_item env p) irk [] w) as [[items | e] w']; [|exact H].
  destruct H as [new [E1 [E2 [E3 F]]]]. simpl in E1. subst new. auto.
Qed.
End ImageItems.

Section Inversion.
Context {T : FloatTypes}.

Lemma bind_ok_inv {A B} (m : M A) (k : A -> M B) w b w' :
  bind m k w = (Ok b, w') ->
  exists a w1, m w = (Ok a, w1) /\ k a w1 = (Ok b, w').
Proof.
  unfold bind. destruct (m w) as [[a | e] w1]; [|discriminate].
  intros H. exists a, w1. split; [reflexivity | exact H].
Qed.

Lemma bind_raise_inv {A B} (m : M A) (k : A -> M B) w e w' :
  bind m k w = (Raise e, w') ->
  m w = (Raise e, w') \/ exists a w1, m w = (Ok a, w1) /\ k a w1 = (Raise e, w').
Proof.
  unfold bind. destruct (m w) as [[a | e'] w1]; intros H.
  - right. exists a, w1. split; [reflexivity | exact H].
  - left. injection H as -> ->. reflexivity.
Qed.
End Inversion.

Section Answers.
Context {T : FloatTypes} {O : FloatOps} {V : VecOps}.
Import QueryPipeline.

(** X7.  The answer of [generate] is never the empty string and costs
    at most one call of the answer model, made with the configured
    model name and the prompt built from the question and the context;
    a non-blank text of the model is returned stripped.  The stand-in
    generator and a wrapper without a model make no call. *)
Theorem generated_answer_is_never_empty
        (env : Env) (a : AnswerGenerator) (q : string) (ctx : Context) (w : World) :
  exists s evs,
    generate env a q ctx w = (Ok s, w ++ evs)
    /\ nonempty s = true
    /\ (evs = []
        \/ exists g, a = Gemini g
                     /\ GeminiAnswerGenerator._genai g = true
                     /\ evs = [EvGenerateContent (GeminiAnswerGenerator._model_name g)
                                 (GeminiAnswerGenerator._build_prompt q ctx)])
    /\ (forall g text,
          a = Gemini g ->
          GeminiAnswerGenerator._genai g = true ->
          llm_generate_content env w (GeminiAnswerGenerator._model_name g)
            (GeminiAnswerGenerator._build_prompt q ctx) = Ok (Some text) ->
          nonempty (strip text) = true ->
          s = strip text)
    /\ (a = Fallback -> evs = []).
Proof.
  destruct a as [g|].
  - simpl. unfold GeminiAnswerGenerator.generate.
    destruct (GeminiAnswerGenerator._genai g) eqn:Hg.
    + unfold try_except, bind, call, ret.
      destruct (llm_generate_content env w _ _) as [resp | e] eqn:Hl.
      * destruct (nonempty (strip (GeminiAnswerGenerator.or_empty resp))) eqn:Hn.
        -- eexists. eexists. split; [reflexivity|]. split; [exact Hn|].
           split; [right; exists g; auto|]. split; [|discriminate].
           intros g' text E _ Hl' _. injection E as <-.
           rewrite Hl in Hl'. injection Hl' as ->. reflexivity.
        -- eexists. eexists. split; [reflexivity|]. split; [reflexivity|].
           split; [right; exists g; auto|]. split; [|discriminate].
           intros g' text E _ Hl' Hn'. injection E as <-.
           rewrite Hl in Hl'. injection Hl' as ->. simpl in Hn. congruence.
      * eexists. eexists. split; [reflexivity|]. split; [reflexivity|].
        split; [right; exists g; auto|]. split; [|discriminate].
        intros g' text E _ Hl' _. injection E as <-. congruence.
    + exists (GeminiAnswerGenerator.extractive_fallback ctx), [].
      rewrite app_nil_r. split; [reflexivity|]. split; [reflexivity|].
      split; [left; reflexivity|]. split; [|discriminate].
      intros g' text E Hg'. injection E as <-. congruence.
  - exists (fallback_generate q ctx), []. rewrite app_nil_r.
    split; [reflexivity|]. split; [reflexivity|]. split; [left; reflexivity|].
    split; [discriminate | reflexivity].
Qed.
End Answers.

Section Responses.
Context {T : FloatTypes} {O : FloatOps} {V : VecOps}.
Import QueryPipeline.

Lemma answer_question_ok_inv env p q w resp w' :
  answer_question env p q w = (Ok resp, w') ->
  nonempty (strip q) = true
  /\ exists hits w1,
       retrieve env p q w = (Ok hits, w1)
       /\ respond env p q (text_ranked (fst hits)) (image_ranked (snd hits)) w1
          = (Ok resp, w').
Proof.
  unfold answer_question. destruct (nonempty (strip q)); [|discriminate].
  cbv beta iota delta [negb]. intros H. split; [reflexivity|].
  apply bind_ok_inv in H as [hits [w1 [Hr H]]]. eauto.
Qed.

Lemma respond_ok_inv env p q trk irk w resp w' :
  respond env p q trk irk w = (Ok resp, w') ->
  exists images_resp w1 s w2,
    foldM (image_item env p) irk [] w = (Ok images_resp, w1)
    /\ generate env (answer_generator p) q
         (make_context (map text_chunk trk) images_resp) w1 = (Ok s, w2)
    /\ w' = w2 ++ [EvUuid4]
    /\ request_id resp = uuid4_hex env w2
    /\ question resp = q
    /\ answer_text resp = s
    /\ images resp = images_resp
    /\ context resp = make_context (map text_chunk trk) images_resp.
Proof.
  unfold respond. intros H.
  apply bind_ok_inv in H as [images_resp [w1 [Hi H]]].
  apply bind_ok_inv in H as [s [w2 [Hg H]]].
  unfold bind, call_total, ret in H. injection H as <- <-.
  exists images_resp, w1, s, w2. repeat split; assumption.
Qed.

(** X8.  A response of [answer_question] reports the ranking: it
    echoes the question; its text chunks are the ranked text hits, in
    ranking order, each with image score [round(0.0, 6)]; its images
    are the ranked image hits that have a storage key, in ranking
    order, each with text score [round(0.0, 6)] and the time to live of
    the pipeline, and the context carries the same image entries; the
    request id is drawn last. *)
Theorem response_reports_the_ranking
        (env : Env) (p : t) (q : string) (w : World) (resp : Response) (w' : World) :
  answer_question env p q w = (Ok resp, w') ->
  exists text_hits image_hits w1,
    retrieve env p q w = (Ok (text_hits, image_hits), w1)
    /\ question resp = q
    /\ ctx_text_chunks (context resp) = map text_chunk (text_ranked text_hits)
    /\ map im_s3_key (images resp) = storage_keys (image_ranked image_hits)
    /\ ctx_images (context resp) = images resp
    /\ Forall (fun c => image_score (tc_scores c) = round6 lit_0
                        /\ tc_modality c = "text")
              (ctx_text_chunks (context resp))
    /\ Forall (fun it => text_score (im_scores it) = round6 lit_0
                         /\ im_modality it = "image"
                         /\ im_ttl_seconds it = url_ttl p)
              (images resp)
    /\ exists w0, w' = w0 ++ [EvUuid4] /\ request_id resp = uuid4_hex env w0.
Proof.
  intros H. apply answer_question_ok_inv in H as [_ [[text_hits image_hits] [w1 [Hr H]]]].
  apply respond_ok_inv in H
    as [images_resp [w2 [s [w3 [Hi [_ [Ew [Eid [Eq [_ [Eim Ectx]]]]]]]]]]].
  exists text_hits, image_hits, w1. simpl fst in *. simpl snd in *.
  pose proof (image_items_from env p (image_ranked image_hits) [] w1) as F.
  rewrite Hi in F. destruct F as [new [E1 [E2 [_ F]]]]. simpl in E1. subst new.
  rewrite Ectx, Eim. simpl.
  split; [exact Hr|]. split; [exact Eq|]. split; [reflexivity|].
  split; [exact E2|]. split; [reflexivity|].
  split; [|split].
  - apply Forall_forall. intros c Hc. apply in_map_iff in Hc as [r [<- Hin]].
    destruct (text_ranked_components _ _ Hin) as [E _].
    simpl. rewrite E. split; reflexivity.
  - eapply Forall_impl; [|exact F].
    intros it [r [Hin [_ [Es [_ [Et Em]]]]]].
    destruct (image_ranked_components _ _ Hin) as [E _].
    rewrite Es. simpl. rewrite E. auto.
  - exists w3. split; assumption.
Qed.
End Responses.

Section ResponsesOnIEEE.
Import IEEE.
Import Fixtures.
Import QueryPipeline.

(** The run with one text hit and the answer model down returns a
    response, which echoes the question and reports one text chunk. *)
Lemma response_reports_the_ranking_witness :
  exists resp w',
    answer_question env_llm_down (pipeline gemini_up) a_question [] = (Ok resp, w')
    /\ question resp = a_question
    /\ ctx_images (context resp) = images resp.
Proof.
  assert (H : match fst (answer_question env_llm_down (pipeline gemini_up) a_question [])
              with Ok _ => true | Raise _ => false end = true) by reflexivity.
  destruct (answer_question env_llm_down (pipeline gemini_up) a_question [])
    as [[resp | e] w'] eqn:E; [|discriminate H].
  exists resp, w'. split; [reflexivity|].
  destruct (response_reports_the_ranking _ _ _ _ _ _ E)
    as [th [ih [w1 [_ [Hq [_ [_ [Hc _]]]]]]]].
  split; assumption.
Defined.
End ResponsesOnIEEE.

(* ===================================================================== *)
(** * Searches: how many calls, and on what                               *)
(* ===================================================================== *)

Section SearchCalls.
Context {T : FloatTypes}.
Import QdrantRepository.
Variables (env : Env) (collection : string) (vector : list F64) (top_k : Z)
          (flt : option Filter).

Lemma search_call_carries m vk fk :
  carries_arguments m collection vector top_k flt
    (search_call m collection vk vector top_k fk flt).
Proof. repeat split. Qed.

Lemma search_calls_shape (w : World) :
  exists calls,
    snd (_search env collection vector top_k flt w) = w ++ map EvSearch calls
    /\ (List.length calls <= 3)%nat
    /\ (first_method env = None -> calls = [])
    /\ (forall m, first_method env = Some m ->
          calls <> []
          /\ Forall (carries_arguments m collection vector top_k flt) calls)
    /\ ((2 < List.length calls)%nat -> first_method env = Some m_query_points).
Proof.
  destruct (first_method env) as [m|] eqn:Hm.
  2:{ exists []. rewrite (search_no_method env collection vector top_k flt w Hm).
      simpl. rewrite app_nil_r. repeat split; try lia; discriminate. }
  set (c1 := search_call m collection (primary_kw m) vector top_k kw_query_filter flt).
  assert (Hm' : forall m', Some m = Some m' -> m' = m) by (intros m' E; congruence).
  destruct (client_search env w c1) as [hits | e] eqn:H1.
  { exists [c1]. rewrite (search_primary_ok env _ _ _ _ w m hits Hm H1).
    simpl. split; [reflexivity|]. split; [lia|]. split; [discriminate|].
    split; [|lia]. intros m' E. rewrite (Hm' m' E).
    split; [discriminate|]. repeat constructor. }
  destruct (is_shape_error e) eqn:Hs.
  2:{ exists [c1]. rewrite (search_primary_other_error env _ _ _ _ w m e Hm H1 Hs).
      simpl. split; [reflexivity|]. split; [lia|]. split; [discriminate|].
      split; [|lia]. intros m' E. rewrite (Hm' m' E).
      split; [discriminate|]. repeat constructor. }
  set (c2 := search_call m collection (primary_kw m) vector top_k (retry_kw e) flt).
  destruct (method_eq_query_points m) as [-> | Hne].
  2:{ exists [c1; c2]. rewrite (search_retry env _ _ _ _ w m e Hm Hne H1 Hs).
      simpl. split; [reflexivity|]. split; [lia|]. split; [discriminate|].
      split; [|lia]. intros m' E. rewrite (Hm' m' E).
      split; [discriminate|]. repeat constructor. }
  destruct (client_search env (w ++ [EvSearch c1]) c2) as [hits | e'] eqn:H2.
  { exists [c1; c2].
    rewrite (search_retry_query_points_ok env _ _ _ _ w e hits Hm H1 Hs H2).
    simpl. split; [reflexivity|]. split; [lia|]. split; [discriminate|].
    split; [|lia]. intros m' E. rewrite (Hm' m' E).
    split; [discriminate|]. repeat constructor. }
  exists [c1; c2; search_call m_query_points collection kw_vector vector top_k
                    (retry_kw e) flt].
  rewrite (search_retry_query_points_error env _ _ _ _ w e e' Hm H1 Hs H2).
  simpl. split; [reflexivity|]. split; [lia|]. split; [discriminate|].
  split; [|reflexivity]. intros m' E. rewrite (Hm' m' E).
  split; [discriminate|]. repeat constructor.
Qed.

(** X9.  One search on the repository costs at most three calls of the
    client, none when the client has no search method.  All of them are
    calls of the same method, the first that the client has, on the
    same collection with the same vector, limit and filter: a retry
    changes the spelling of a parameter and nothing else.  A third call
    is made on the [query_points] path only. *)
Theorem search_calls_are_bounded (w : World) :
  exists calls,
    snd (_search env collection vector top_k flt w) = w ++ map EvSearch calls
    /\ (List.length calls <= 3)%nat
    /\ match first_method env with
       | None => calls = []
       | Some m =>
           calls <> []
           /\ Forall (fun c => sc_method c = m /\ sc_collection c = collection
                               /\ sc_vector c = vector /\ sc_limit c = top_k
                               /\ sc_filter c = flt) calls
           /\ (m = m_query_points \/ (List.length calls <= 2)%nat)
       end.
Proof.
  destruct (search_calls_shape w) as [calls [E [Hl [Hn [Hs H3]]]]].
  exists calls. split; [exact E|]. split; [exact Hl|].
  destruct (first_method env) as [m|]; [|apply Hn; reflexivity].
  destruct (Hs m eq_refl) as [Hne F]. split; [exact Hne|]. split; [exact F|].
  destruct (Nat.le_gt_cases (List.length calls) 2) as [H | H]; [right; exact H|].
  left. specialize (H3 H). congruence.
Qed.
End SearchCalls.

Section SearchEntryPoints.
Context {T : FloatTypes}.
Import QdrantRepository.
Variables (env : Env) (repo : t).

Lemma search_in_calls collection v k filters w :
  exists calls,
    snd (search_in env collection v k filters w) = w ++ map EvSearch calls
    /\ Forall (fun c => sc_collection c = collection /\ sc_vector c = v
                        /\ sc_limit c = k /\ sc_filter c = _build_filter filters) calls.
Proof.
  unfold search_in.
  destruct v as [|x v]; [exists []; simpl; rewrite app_nil_r; auto|].
  destruct (k <=? 0); [exists []; simpl; rewrite app_nil_r; auto|].
  destruct (search_calls_shape env collection (x :: v) k (_build_filter filters) w)
    as [calls [E [_ [Hn [Hs _]]]]].
  exists calls. split; [exact E|].
  destruct (first_method env) as [m|].
  - destruct (Hs m eq_refl) as [_ F]. eapply Forall_impl; [|exact F].
    intros c [_ H]. exact H.
  - rewrite (Hn eq_refl). constructor.
Qed.

(** X10.  [search_text] queries the text collection and nothing else,
    [search_images] the image collection, with the vector and the limit
    they are given; the filter is absent when no condition is given.
    An empty vector or a limit that is not positive is rejected with a
    [ValueError] before any call. *)
Theorem search_targets_its_collection
        (v : list F64) (k : Z) (filters : option (list (string * string))) (w : World) :
  (exists calls,
      snd (search_text env repo v k filters w) = w ++ map EvSearch calls
      /\ Forall (fun c => sc_collection c = text_collection repo /\ sc_vector c = v
                          /\ sc_limit c = k /\ sc_filter c = _build_filter filters) calls)
  /\ (exists calls,
        snd (search_images env repo v k filters w) = w ++ map EvSearch calls
        /\ Forall (fun c => sc_collection c = image_collection repo /\ sc_vector c = v
                            /\ sc_limit c = k /\ sc_filter c = _build_filter filters)
                  calls)
  /\ (v = [] \/ k <= 0 ->
      exists e1 e2,
        search_text env repo v k filters w = (Raise e1, w)
        /\ search_images env repo v k filters w = (Raise e2, w)
        /\ exn_cls e1 = ValueError /\ exn_cls e2 = ValueError)
  /\ (filters = None \/ filters = Some [] -> _build_filter filters = None).
Proof.
  split; [apply search_in_calls|]. split; [apply search_in_calls|]. split.
  - unfold search_text, search_images, search_in. intros [-> | Hk].
    + eexists. eexists. repeat split.
    + apply Z.leb_le in Hk. rewrite Hk.
      destruct v; eexists; eexists; repeat split.
  - intros [-> | ->]; reflexivity.
Qed.
End SearchEntryPoints.

Section SearchEntryPointsOnIEEE.
Import IEEE.
Import Fixtures.
Import QdrantRepository.

(** A limit of zero is rejected without a call. *)
Lemma search_targets_its_collection_witness :
  exists e1 e2,
    search_text quiet repo [f_1] 0 None [] = (Raise e1, [])
    /\ search_images quiet repo [f_1] 0 None [] = (Raise e2, [])
    /\ exn_cls e1 = ValueError /\ exn_cls e2 = ValueError.
Proof.
  apply (proj1 (proj2 (proj2 (search_targets_its_collection quiet repo [f_1] 0 None [])))).
  right. lia.
Defined.
End SearchEntryPointsOnIEEE.

(* ===================================================================== *)
(** * Embedding services: batches                                         *)
(* ===================================================================== *)

Section TextBatches.
Context {T : FloatTypes} {O : FloatOps} {V : VecOps}.
Import TextEmbeddingService.
Variables (env : Env) (model : string).

(** Whatever comes back, one text costs one request. *)
Lemma embed_one_world text w :
  snd (embed_one env model text w) = w ++ [EvEmbedContent model text].
Proof.
  unfold embed_one, bind, call, lift, ret.
  destruct (gemini_embed_content env w model text) as [resp | e]; [|reflexivity].
  destruct (_extract_embedding resp) as [vector | e]; [|reflexivity].
  destruct (_normalize vector) as [normalized | e]; [|reflexivity].
  destruct (negb _); [|reflexivity].
  destruct (_reshape_to_expected normalized); reflexivity.
Qed.

Let step (results : list (list F64)) (t : string) : M (list (list F64)) :=
  normalized <- embed_one env model t ;; ret (results ++ [normalized]).

Lemma embed_loop texts : forall acc w,
  match foldM step texts acc w with
  | (Ok vs, w') =>
      List.length vs = (List.length acc + List.length texts)%nat
      /\ w' = w ++ map (EvEmbedContent model) texts
  | (Raise e, w') =>
      exists n, (n < List.length texts)%nat
                /\ w' = w ++ map (EvEmbedContent model) (firstn (S n) texts)
  end.
Proof.
  induction texts as [|t texts IH]; intros acc w.
  - simpl. rewrite app_nil_r. split; [lia | reflexivity].
  - cbn [foldM]. unfold bind at 1. unfold step at 1. unfold bind at 1.
    pose proof (embed_one_world t w) as Hw.
    destruct (embed_one env model t w) as [[v | e] w1]; simpl in Hw; subst w1.
    + unfold ret at 1. specialize (IH (acc ++ [v]) (w ++ [EvEmbedContent model t])).
      destruct (foldM step texts _ _) as [[vs | e] w'].
      * destruct IH as [Hl ->]. rewrite length_app in Hl. simpl in *.
        rewrite <- app_assoc. split; [lia | reflexivity].
      * destruct IH as [n [Hn ->]]. exists (S n). simpl.
        rewrite <- app_assoc. split; [lia | reflexivity].
    + exists 0%nat. simpl. split; [lia | reflexivity].
Qed.

(** X11.  [embed_texts] sends one request per text, in the order of
    the texts, and returns as many vectors as there are texts; when it
    raises it has sent the requests of some texts from the first on and
    no other: nothing is sent after the failing request, and nothing at
    all when the API key is missing. *)
Theorem embed_texts_one_request_per_text (texts : list string) (w : World) :
  match embed_texts env model texts w with
  | (Ok vectors, w') =>
      List.length vectors = List.length texts
      /\ w' = w ++ map (EvEmbedContent model) texts
  | (Raise e, w') =>
      exists n, (n <= List.length texts)%nat
                /\ w' = w ++ map (EvEmbedContent model) (firstn n texts)
                /\ (gemini_api_key env = None -> n = 0%nat)
  end.
Proof.
  unfold embed_texts. destruct texts as [|t texts'] eqn:Et.
  { simpl. rewrite app_nil_r. auto. }
  rewrite <- Et.
  destruct (gemini_api_key env) as [[|c k]|] eqn:Hk.
  - match goal with
    | |- context [bind ?m ?k w] =>
        assert (E : bind m k w = (Raise missing_key_error, w))
          by (apply run_bind_raise; unfold _ensure_client; rewrite Hk; reflexivity)
    end.
    rewrite E. exists 0%nat. simpl. rewrite app_nil_r. repeat split. lia.
  - match goal with
    | |- context [bind ?m ?k w] =>
        assert (E : bind m k w = foldM step texts [] w)
          by (eapply run_bind_ok;
              [unfold _ensure_client; rewrite Hk; reflexivity | reflexivity])
    end.
    rewrite E. pose proof (embed_loop texts [] w) as H.
    destruct (foldM step texts [] w) as [[vs | e] w'].
    + exact H.
    + destruct H as [n [Hn ->]]. exists (S n). repeat split; [lia | discriminate].
  - match goal with
    | |- context [bind ?m ?k w] =>
        assert (E : bind m k w = (Raise missing_key_error, w))
          by (apply run_bind_raise; unfold _ensure_client; rewrite Hk; reflexivity)
    end.
    rewrite E. exists 0%nat. simpl. rewrite app_nil_r. repeat split. lia.
Qed.

(** X12.  A batch of one text is the single embedding: for a non-empty
    text, [embed_texts] on the one-element list does what [embed_text]
    does and returns its vector as the only element.  The two differ on
    the empty string, which [embed_text] rejects and the batch sends to
    the model. *)
Theorem embed_texts_of_one_is_embed_text (text : string) (w : World) :
  (text <> "" ->
   embed_texts env model [text] w =
   match embed_text env model text w with
   | (Ok v, w') => (Ok [v], w')
   | (Raise e, w') => (Raise e, w')
   end)
  /\ (forall c k,
        gemini_api_key env = Some (String c k) ->
        embed_text env model "" w = (Raise (mk_exn ValueError "text must be non-empty"), w)
        /\ snd (embed_texts env model [""] w) = w ++ [EvEmbedContent model ""]).
Proof.
  split.
  - intros Ht. unfold embed_texts, embed_text.
    destruct text as [|a s]; [contradiction|]. cbn [foldM].
    unfold bind, ret. destruct (_ensure_client env w) as [[[] | e] w1]; [|reflexivity].
    destruct (embed_one env model (String a s) w1) as [[v | e] w2]; reflexivity.
  - intros c k Hk. split; [reflexivity|].
    unfold embed_texts, _ensure_client. rewrite Hk. cbn [foldM].
    unfold bind, ret.
    pose proof (embed_one_world "" w) as Hw.
    destruct (embed_one env model "" w) as [[v | e] w1]; exact Hw.
Qed.
End TextBatches.

Section BatchesOnIEEE.
Import IEEE.
Import Fixtures.

(** The question of the fixtures, embedded alone and as a batch of
    one. *)
Lemma embed_texts_of_one_is_embed_text_witness :
  TextEmbeddingService.embed_texts quiet "text-embedding-004" [a_question] [] =
  match TextEmbeddingService.embed_text quiet "text-embedding-004" a_question [] with
  | (Ok v, w') => (Ok [v], w')
  | (Raise e, w') => (Raise e, w')
  end.
Proof.
  apply (proj1 (embed_texts_of_one_is_embed_text quiet "text-embedding-004"
                  a_question [])).
  discriminate.
Defined.
End BatchesOnIEEE.

(* ===================================================================== *)
(** * Ingestion: the points, the uploads and the upserts                  *)
(* ===================================================================== *)

Section TextPoints.
Context {T : FloatTypes}.
Import IngestionPipeline.
Variables (env : Env) (p : t) (pdf_id : string) (doc_title : option string).

Lemma take_length n s : (String.length (take n s) <= n)%nat.
Proof.
  unfold take. revert s. induction n as [|n IH]; intros [|c s]; simpl; try lia.
  specialize (IH s). lia.
Qed.

Lemma text_points_from bvs : forall acc w,
  exists new,
    foldM (text_point env p pdf_id doc_title) bvs acc w
    = (Ok (acc ++ new), w ++ draws bvs)
    /\ map point_vector new = map snd bvs
    /\ Forall2 (describes_page p pdf_id doc_title) (map fst bvs) new.
Proof.
  induction bvs as [|[b vec] bvs IH]; intros acc w.
  - exists []. simpl. rewrite !app_nil_r. repeat split. constructor.
  - cbn [foldM]. unfold bind at 1. unfold text_point at 1.
    unfold bind, call_total, ret.
    match goal with
    | |- context [foldM _ bvs (acc ++ [?pt]) ?w1] =>
        destruct (IH (acc ++ [pt]) w1) as [new [E [Hv Hd]]]; exists (pt :: new)
    end.
    rewrite E. split; [|split].
    + rewrite <- !app_assoc. reflexivity.
    + simpl. rewrite Hv. reflexivity.
    + simpl. constructor; [|exact Hd].
      eexists. split; [reflexivity|]. simpl. repeat split. apply take_length.
Qed.

(** X14.  When the text embedder returns one vector per non-blank
    page, the text step returns one point per non-blank page, in page
    order: the point carries the vector of its page, and its payload
    names the document, the page, the chunk ["p<page>"], the model, and
    the first 500 characters of the page as preview.  The step makes
    the embedding call, then draws an identifier and a timestamp per
    point. *)
Theorem text_phase_makes_one_point_per_page
        (text_blocks : list TextBlock) (w : World) (vectors : list (list F64)) :
  let blocks := non_empty_text_blocks text_blocks in
  blocks <> [] ->
  port_embed_texts env w (map tb_text blocks) = Ok vectors ->
  List.length vectors = List.length blocks ->
  exists points,
    text_phase env p pdf_id doc_title text_blocks w
    = (Ok points, w ++ EvEmbedTexts (map tb_text blocks) :: draws blocks)
    /\ map point_vector points = vectors
    /\ Forall2 (describes_page p pdf_id doc_title) blocks points
    /\ Forall (fun b => nonempty (strip (tb_text b)) = true) blocks.
Proof.
  intros blocks Hb He Hl.
  destruct (text_points_from (combine blocks vectors) [] (w ++ [EvEmbedTexts (map tb_text blocks)]))
    as [new [E [Hv Hd]]].
  exists new.
  assert (Hfst : map fst (combine blocks vectors) = blocks).
  { clear - Hl. revert vectors Hl.
    induction blocks as [|b bs IH]; intros [|v vs] Hl; simpl in *;
      try reflexivity; try discriminate.
    f_equal. apply IH. lia. }
  assert (Hsnd : map snd (combine blocks vectors) = vectors).
  { clear - Hl. revert vectors Hl.
    induction blocks as [|b bs IH]; intros [|v vs] Hl; simpl in *;
      try reflexivity; try discriminate.
    f_equal. apply IH. lia. }
  assert (Hdr : draws (combine blocks vectors) = draws blocks).
  { clear - Hl. revert vectors Hl. unfold draws.
    induction blocks as [|b bs IH]; intros [|v vs] Hl; simpl in *;
      try reflexivity; try discriminate.
    f_equal. f_equal. apply IH. lia. }
  split; [|split; [|split]].
  - unfold text_phase. fold blocks.
    destruct blocks as [|b0 bs] eqn:Eb; [contradiction|]. rewrite <- Eb in *.
    apply run_try_ok.
    eapply run_bind_ok; [apply run_call, He|].
    apply Nat.eqb_eq in Hl. rewrite Hl. cbv beta iota delta [negb].
    rewrite E, Hdr, <- app_assoc. reflexivity.
  - rewrite Hv. exact Hsnd.
  - rewrite Hfst in Hd. exact Hd.
  - apply Forall_forall. intros b Hin. unfold blocks, non_empty_text_blocks in Hin.
    apply filter_In in Hin. apply Hin.
Qed.
End TextPoints.

Section TextPointsOnIEEE.
Import IEEE.
Import Fixtures.
Import MoreFixtures.
Import IngestionPipeline.

(** Two pages and two vectors back: two points, carrying the vectors
    in page order. *)
Lemma text_phase_makes_one_point_per_page_witness :
  exists points,
    text_phase env_two_vectors ingestion "doc" None two_pages []
    = (Ok points,
       [EvEmbedTexts ["Revenue grew 12%."; "Costs fell."];
        EvUuid4; EvNow; EvUuid4; EvNow])
    /\ map point_vector points = [[f_1]; [f_0; f_1]].
Proof.
  destruct (text_phase_makes_one_point_per_page env_two_vectors ingestion "doc" None
              two_pages [] [[f_1]; [f_0; f_1]]) as [pts [E [Hv _]]].
  - cbv. discriminate.
  - reflexivity.
  - reflexivity.
  - exists pts. split; [exact E | exact Hv].
Defined.
End TextPointsOnIEEE.

(* ===================================================================== *)
(** * Ingestion: images, and the order of the writes                      *)
(* ===================================================================== *)

Section ImagePoints.
Context {T : FloatTypes}.
Import IngestionPipeline.
Variables (env : Env) (pdf_id : string) (doc_title : option string).

Lemma uploads_from imgs : forall acc w,
  match foldM (upload_one env pdf_id) imgs acc w with
  | (Ok keys, w') =>
      exists new,
        keys = acc ++ new
        /\ List.length new = List.length imgs
        /\ w' = w ++ map (upload_call pdf_id) imgs
  | (Raise e, w') =>
      exists n, (n < List.length imgs)%nat
                /\ w' = w ++ map (upload_call pdf_id) (firstn (S n) imgs)
  end.
Proof.
  induction imgs as [|img imgs IH]; intros acc w.
  - simpl. exists []. rewrite !app_nil_r. auto.
  - cbn [foldM]. unfold bind at 1. unfold upload_one at 1. unfold bind, call, ret.
    destruct (s3_upload_image env w (ib_image_bytes img) (ib_mime_type img) pdf_id
                (ib_page_number img)) as [key | e].
    + specialize (IH (acc ++ [key])
                     (w ++ [EvUploadImage (ib_image_bytes img) (ib_mime_type img) pdf_id
                              (ib_page_number img)])).
      destruct (foldM (upload_one env pdf_id) imgs _ _) as [[keys | e] w'].
      * destruct IH as [new [-> [Hl ->]]]. exists (key :: new).
        rewrite <- !app_assoc. simpl. repeat split. lia.
      * destruct IH as [n [Hn ->]]. exists (S n).
        rewrite <- !app_assoc. simpl. split; [lia | reflexivity].
    + exists 0%nat. simpl. split; [lia | reflexivity].
Qed.

Lemma image_points_from xs : forall acc w,
  exists new,
    foldM (image_point env pdf_id doc_title) xs acc w = (Ok (acc ++ new), w ++ draws xs)
    /\ map point_vector new = map (fun x => fst (snd x)) xs
    /\ Forall2 (fun x pt => describes_picture pdf_id doc_title (fst x) (snd (snd x)) pt)
               xs new.
Proof.
  induction xs as [|[img [vec key]] xs IH]; intros acc w.
  - exists []. simpl. rewrite !app_nil_r. repeat split. constructor.
  - cbn [foldM]. unfold bind at 1. unfold image_point at 1.
    unfold bind, call_total, ret.
    match goal with
    | |- context [foldM _ xs (acc ++ [?pt]) ?w1] =>
        destruct (IH (acc ++ [pt]) w1) as [new [E [Hv Hd]]]; exists (pt :: new)
    end.
    rewrite E. split; [|split].
    + rewrite <- !app_assoc. reflexivity.
    + simpl. rewrite Hv. reflexivity.
    + constructor; [|exact Hd].
      eexists. split; [reflexivity|]. simpl. repeat split.
Qed.

Lemma draws_combine {A B} (l : list A) (l' : list B) :
  List.length l = List.length l' -> draws (combine l l') = draws l.
Proof.
  unfold draws. revert l'. induction l as [|x l IH]; intros [|y l'] H; simpl in *;
    try reflexivity; try discriminate.
  f_equal. f_equal. apply IH. lia.
Qed.

Lemma image_point_triple ips x :
  triple (image_point env pdf_id doc_title ips x) (fun _ => True) not_upsert.
Proof.
  unfold image_point. destruct x as [img [vec key]].
  eapply triple_bind; [apply triple_call_total; reflexivity|]. intros point_id _.
  eapply triple_bind; [apply triple_call_total; reflexivity|]. intros now _.
  apply triple_ret. exact I.
Qed.

Lemma image_phase_triple imgs :
  triple (image_phase env pdf_id doc_title imgs) (fun _ => True) not_upsert.
Proof.
  unfold image_phase. destruct imgs as [|img imgs]; [apply triple_ret; exact I|].
  eapply triple_bind; [apply uploads_triple|]. intros keys _.
  eapply triple_bind; [apply triple_call; reflexivity|]. intros vectors _.
  destruct (negb _); [apply triple_raise|].
  apply triple_foldM. intros ips x. apply image_point_triple.
Qed.

(** X15.  The image step uploads every image, in document order,
    before it asks for any embedding, and builds the points last: one
    point per image, carrying the vector of the image and, in its
    payload, the storage key of its upload with the page, type and size
    of the image.  When it raises, either an upload failed, and then no
    later upload and no embedding call was made, or all the images had
    been uploaded and the embedding failed or returned a wrong number
    of vectors: the uploaded objects stay in storage with no point that
    refers to them. *)
Theorem image_phase_uploads_before_embedding (imgs : list ImageBlock) (w : World) :
  imgs <> [] ->
  let uploads := map (upload_call pdf_id) imgs in
  let bytes_list := map ib_image_bytes imgs in
  match image_phase env pdf_id doc_title imgs w with
  | (Ok points, w') =>
      exists keys vectors,
        foldM (upload_one env pdf_id) imgs [] w = (Ok keys, w ++ uploads)
        /\ port_embed_images env (w ++ uploads) bytes_list = Ok vectors
        /\ List.length keys = List.length imgs
        /\ List.length vectors = List.length imgs
        /\ List.length points = List.length imgs
        /\ map point_vector points = vectors
        /\ Forall2 (fun x pt =>
                      describes_picture pdf_id doc_title (fst x) (snd (snd x)) pt)
                   (combine imgs (combine vectors keys)) points
        /\ w' = w ++ uploads ++ EvEmbedImages bytes_list :: draws imgs
  | (Raise e, w') =>
      (exists n, (n < List.length imgs)%nat
                 /\ w' = w ++ map (upload_call pdf_id) (firstn (S n) imgs))
      \/ w' = w ++ uploads ++ [EvEmbedImages bytes_list]
  end.
Proof.
  intros Hne uploads bytes_list. subst uploads bytes_list. unfold image_phase.
  destruct imgs as [|img0 imgs0] eqn:Ei; [contradiction|]. rewrite <- Ei in *. clear Hne.
  set (uploads := map (upload_call pdf_id) imgs).
  set (bytes_list := map ib_image_bytes imgs).
  unfold bind at 1.
  pose proof (uploads_from imgs [] w) as Hu.
  destruct (foldM (upload_one env pdf_id) imgs [] w) as [[keys | e] w1].
  2:{ left. exact Hu. }
  destruct Hu as [new [E1 [Hl ->]]]. simpl in E1. subst new. fold uploads.
  unfold bind at 1. unfold call at 1.
  destruct (port_embed_images env (w ++ uploads) bytes_list) as [vectors | e] eqn:He.
  2:{ cbv beta iota. right. rewrite <- app_assoc. reflexivity. }
  destruct (Nat.eqb_spec (List.length vectors) (List.length imgs)) as [Hv | Hv];
    cbv beta iota delta [negb].
  2:{ unfold raise. cbv beta iota. right. rewrite <- app_assoc. reflexivity. }
  destruct (image_points_from (combine imgs (combine vectors keys)) []
              ((w ++ uploads) ++ [EvEmbedImages bytes_list])) as [pts [E [Hpv Hd]]].
  change ([] ++ pts) with pts in E.
  cbv beta iota. rewrite E. cbv beta iota. exists keys, vectors.
  assert (Hc : List.length (combine vectors keys) = List.length imgs)
    by (rewrite length_combine; lia).
  assert (Hsnd : forall (A B : Type) (l : list A) (l' : list B),
             List.length l = List.length l' -> map snd (combine l l') = l').
  { clear. intros A B l. induction l as [|x l IH]; intros [|y l'] H; simpl in *;
      try reflexivity; try discriminate. f_equal. apply IH. lia. }
  assert (Hfst : forall (A B : Type) (l : list A) (l' : list B),
             List.length l = List.length l' -> map fst (combine l l') = l).
  { clear. intros A B l. induction l as [|x l IH]; intros [|y l'] H; simpl in *;
      try reflexivity; try discriminate. f_equal. apply IH. lia. }
  split; [reflexivity|]. split; [reflexivity|]. split; [exact Hl|]. split; [exact Hv|].
  split; [|split; [|split]].
  - apply Forall2_length in Hd. rewrite <- Hd, length_combine. lia.
  - rewrite Hpv. rewrite <- (map_map snd fst).
    rewrite (Hsnd _ _ imgs (combine vectors keys)) by lia.
    apply Hfst. lia.
  - exact Hd.
  - rewrite draws_combine by lia. rewrite <- !app_assoc. reflexivity.
Qed.
End ImagePoints.

Section WritesLast.
Context {T : FloatTypes}.
Import IngestionPipeline.
Variables (env : Env) (p : t).

Let repo := qdrant_repo p.

Lemma batch_upserts_nil : batch_upserts repo [].
Proof. exists [], []. reflexivity. Qed.

Lemma writes_last_bind {A B} (m : M A) (k : A -> M B) w :
  triple m (fun _ => True) not_upsert ->
  (forall a w1, writes_last env repo (k a) w1) ->
  writes_last env repo (bind m k) w.
Proof.
  intros Hm Hk. destruct (Hm w) as [evs [E [F _]]]. unfold writes_last, bind.
  destruct (m w) as [[a | e] w1]; simpl in E; subst w1.
  - destruct (Hk a (w ++ evs)) as [pre [ups [E' [F' [Hb Hr]]]]].
    exists (evs ++ pre), ups. rewrite E', <- !app_assoc.
    split; [reflexivity|]. split; [apply Forall_app; auto|]. split; [exact Hb|].
    intros e He. specialize (Hr e He). rewrite <- !app_assoc in Hr. exact Hr.
  - exists evs, []. simpl. rewrite app_nil_r.
    split; [reflexivity|]. split; [exact F|]. split; [apply batch_upserts_nil|].
    intros e' _. left. reflexivity.
Qed.

Lemma writes_last_raise {A} e w : writes_last env repo (@raise _ A e) w.
Proof.
  exists [], []. simpl. rewrite app_nil_r.
  split; [reflexivity|]. split; [constructor|]. split; [apply batch_upserts_nil|].
  intros e' _. left. reflexivity.
Qed.

Lemma upsert_phase_writes_last tp ip w :
  writes_last env repo (upsert_phase env p tp ip) w.
Proof.
  unfold writes_last, upsert_phase, bind.
  unfold QdrantRepository.upsert_text_points, QdrantRepository.upsert_image_points,
    QdrantRepository.upsert_points, call, ret.
  exists []. fold repo.
  destruct tp as [|t0 tp'] eqn:Et.
  - destruct ip as [|i0 ip'] eqn:Ei.
    + exists []. simpl. rewrite app_nil_r. split; [reflexivity|].
      split; [constructor|]. split; [apply batch_upserts_nil|]. intros e H. discriminate H.
    + rewrite <- Ei. exists [EvUpsert (QdrantRepository.image_collection repo) ip].
      simpl. split; [reflexivity|]. split; [constructor|].
      split; [exists [], ip; rewrite Ei; reflexivity|].
      intros e H. right. exists w, (QdrantRepository.image_collection repo), ip.
      split; [reflexivity | exact H].
  - rewrite <- Et.
    destruct (client_upsert env w (QdrantRepository.text_collection repo) tp)
      as [[] | e1] eqn:H1.
    + destruct ip as [|i0 ip'] eqn:Ei.
      * exists [EvUpsert (QdrantRepository.text_collection repo) tp].
        simpl. split; [reflexivity|]. split; [constructor|].
        split; [exists tp, []; rewrite Et; reflexivity|].
        intros e H. discriminate H.
      * rewrite <- Ei.
        exists [EvUpsert (QdrantRepository.text_collection repo) tp;
                EvUpsert (QdrantRepository.image_collection repo) ip].
        simpl. split; [rewrite <- app_assoc; reflexivity|]. split; [constructor|].
        split; [exists tp, ip; rewrite Et, Ei; reflexivity|].
        intros e H. right.
        exists (w ++ [EvUpsert (QdrantRepository.text_collection repo) tp]),
               (QdrantRepository.image_collection repo), ip.
        split; [rewrite <- app_assoc; reflexivity | exact H].
    + exists [EvUpsert (QdrantRepository.text_collection repo) tp].
      simpl. split; [reflexivity|]. split; [constructor|].
      split; [exists tp, []; rewrite Et; reflexivity|].
      intros e H. right. exists w, (QdrantRepository.text_collection repo), tp.
      split; [reflexivity|]. simpl in H. congruence.
Qed.

Lemma ingest_pdf_writes_last pdf_bytes pdf_id doc_title w :
  writes_last env repo (ingest_pdf env p pdf_bytes pdf_id doc_title) w.
Proof.
  unfold ingest_pdf. destruct pdf_id as [|c s]; [apply writes_last_raise|].
  apply writes_last_bind; [apply triple_call; reflexivity|]. intros text_blocks w1.
  apply writes_last_bind; [apply triple_call; reflexivity|]. intros image_blocks w2.
  apply writes_last_bind; [apply text_phase_triple|]. intros text_points w3.
  apply writes_last_bind; [apply image_phase_triple|]. intros image_points w4.
  apply upsert_phase_writes_last.
Qed.

(** X16.  [ingest_pdf] writes to the vector database last.  The calls
    of a run are calls other than upserts (parsing, embedding, uploads,
    identifiers) followed by at most two upserts: the text points into
    the text collection, then the image points into the image
    collection, neither of them with an empty batch.  So a run that
    fails before the upserts has written nothing to the database, and a
    run that fails after an upsert was made fails by the failure of its
    last upsert. *)
Theorem ingest_writes_to_the_database_last
        (pdf_bytes : bytes) (pdf_id : string) (doc_title : option string) (w : World) :
  exists pre ups,
    snd (ingest_pdf env p pdf_bytes pdf_id doc_title w) = w ++ pre ++ ups
    /\ Forall not_upsert pre
    /\ batch_upserts (qdrant_repo p) ups
    /\ forall e, fst (ingest_pdf env p pdf_bytes pdf_id doc_title w) = Raise e ->
         ups = []
         \/ exists before collection points,
              w ++ pre ++ ups = before ++ [EvUpsert collection points]
              /\ client_upsert env before collection points = Raise e.
Proof. exact (ingest_pdf_writes_last pdf_bytes pdf_id doc_title w). Qed.

Lemma no_blank_blocks text_blocks :
  Forall (fun b => nonempty (strip (tb_text b)) = false) text_blocks ->
  non_empty_text_blocks text_blocks = [].
Proof.
  unfold non_empty_text_blocks. induction 1 as [|b l Hb _ IH]; simpl; [reflexivity|].
  rewrite Hb. exact IH.
Qed.

(** X17.  A document whose pages hold no text but white space and
    that has no image is ingested without an error and without any
    effect: after the two parsing calls nothing is embedded, uploaded
    or upserted. *)
Theorem blank_document_stores_nothing
        (pdf_bytes : bytes) (pdf_id : string) (doc_title : option string) (w : World)
        (text_blocks : list TextBlock) :
  pdf_id <> "" ->
  pdf_parse_text env w pdf_bytes = Ok text_blocks ->
  Forall (fun b => nonempty (strip (tb_text b)) = false) text_blocks ->
  pdf_parse_images env (w ++ [EvParseText pdf_bytes]) pdf_bytes = Ok [] ->
  ingest_pdf env p pdf_bytes pdf_id doc_title w
  = (Ok tt, w ++ [EvParseText pdf_bytes; EvParseImages pdf_bytes]).
Proof.
  intros Hid Ht Hb Hi.
  rewrite (ingest_after_parse env p pdf_bytes pdf_id doc_title w text_blocks [] Hid Ht Hi).
  unfold text_phase. rewrite (no_blank_blocks _ Hb). reflexivity.
Qed.
End WritesLast.

Section IngestionMoreOnIEEE.
Import IEEE.
Import Fixtures.
Import MoreFixtures.
Import IngestionPipeline.

(** One image and one vector back: one point, after the upload and the
    embedding call. *)
Lemma image_phase_uploads_before_embedding_witness :
  exists points,
    image_phase env_one_image "doc" None one_image []
    = (Ok points,
       [EvUploadImage [Byte.x89; Byte.x50] "image/png" "doc" 1;
        EvEmbedImages [[Byte.x89; Byte.x50]]; EvUuid4; EvNow])
    /\ List.length points = 1%nat.
Proof.
  assert (H : match fst (image_phase env_one_image "doc" None one_image [])
              with Ok _ => true | Raise _ => false end = true) by reflexivity.
  assert (Hne : one_image <> []) by discriminate.
  pose proof (image_phase_uploads_before_embedding env_one_image "doc" None
                one_image [] Hne) as P.
  cbv zeta in P.
  destruct (image_phase env_one_image "doc" None one_image []) as [[points | e] w'];
    [|discriminate H].
  destruct P as [keys [vectors [_ [_ [_ [_ [Hl [_ [_ Hw]]]]]]]]].
  exists points. split; [rewrite Hw; reflexivity | exact Hl].
Defined.

(** A page of white space and no image: the run returns after the two
    parsing calls. *)
Lemma blank_document_stores_nothing_witness :
  ingest_pdf env_blank_document ingestion [Byte.x25] "doc" None []
  = (Ok tt, [EvParseText [Byte.x25]; EvParseImages [Byte.x25]]).
Proof.
  apply (blank_document_stores_nothing env_blank_document ingestion [Byte.x25] "doc"
           None [] blank_page).
  - discriminate.
  - reflexivity.
  - repeat constructor.
  - reflexivity.
Defined.
End IngestionMoreOnIEEE.

(* ===================================================================== *)
(** * Strings: [strip] and [lower]                                        *)
(* ===================================================================== *)

Section Strings.

Lemma lower_ascii_idem c : lower_ascii (lower_ascii c) = lower_ascii c.
Proof. destruct c as [[] [] [] [] [] [] [] []]; reflexivity. Qed.

Lemma isspace_lower_ascii c : isspace (lower_ascii c) = isspace c.
Proof. destruct c as [[] [] [] [] [] [] [] []]; reflexivity. Qed.

Lemma lower_idem s : lower (lower s) = lower s.
Proof. induction s as [|c s IH]; simpl; [reflexivity|]. rewrite lower_ascii_idem, IH. reflexivity. Qed.

Lemma lower_lstrip s : lower (lstrip s) = lstrip (lower s).
Proof.
  induction s as [|c s IH]; simpl; [reflexivity|].
  rewrite isspace_lower_ascii. destruct (isspace c); [exact IH | reflexivity].
Qed.

Lemma lower_rstrip s : lower (rstrip s) = rstrip (lower s).
Proof.
  induction s as [|c s IH]; simpl; [reflexivity|].
  rewrite <- IH, isspace_lower_ascii.
  destruct (rstrip s) as [|d r]; simpl; [destruct (isspace c)|]; reflexivity.
Qed.

Lemma lower_strip s : lower (strip s) = strip (lower s).
Proof. unfold strip. rewrite lower_rstrip, lower_lstrip. reflexivity. Qed.

Lemma lstrip_head s :
  lstrip s = "" \/ exists c r, lstrip s = String c r /\ isspace c = false.
Proof.
  induction s as [|c s IH]; simpl; [left; reflexivity|].
  destruct (isspace c) eqn:E; [exact IH|]. right. eauto.
Qed.

Lemma rstrip_idem s : rstrip (rstrip s) = rstrip s.
Proof.
  induction s as [|c s IH]; simpl; [reflexivity|].
  destruct (rstrip s) as [|d r] eqn:E.
  - destruct (isspace c) eqn:Ec; simpl; [reflexivity|]. rewrite Ec. reflexivity.
  - simpl in IH. simpl. rewrite IH. reflexivity.
Qed.

Lemma rstrip_keeps_head c r :
  isspace c = false -> exists r', rstrip (String c r) = String c r'.
Proof.
  intros Ec. simpl. destruct (rstrip r); [rewrite Ec|]; eauto.
Qed.

Lemma strip_idem s : strip (strip s) = strip s.
Proof.
  unfold strip.
  destruct (lstrip_head s) as [E | [c [r [E Ec]]]]; rewrite E; [reflexivity|].
  destruct (rstrip_keeps_head c r Ec) as [r' Er].
  assert (El : lstrip (rstrip (String c r)) = rstrip (String c r)).
  { rewrite Er. simpl. rewrite Ec. reflexivity. }
  rewrite El. apply rstrip_idem.
Qed.

End Strings.

(* ===================================================================== *)
(** * Mime types, extensions and uploads                                  *)
(* ===================================================================== *)

Section Mime.
Import ImageStore.
Import PDFParser.

Lemma mime_to_ext_cases mime_type :
  In (_mime_to_ext mime_type) ["jpg"; "png"; "webp"; "tif"; "bmp"; "bin"].
Proof.
  unfold _mime_to_ext. cbv zeta.
  repeat match goal with
         | |- context [if ?c then _ else _] => destruct c
         end; simpl; tauto.
Qed.

Lemma mime_from_ext_prefix ext : String.prefix "image/" (_mime_from_ext ext) = true.
Proof.
  unfold _mime_from_ext. cbv zeta.
  repeat match goal with
         | |- context [if ?c then _ else _] => destruct c
         end; try reflexivity;
    simpl; match goal with |- String.prefix "" ?t = true => destruct t; reflexivity end.
Qed.

(** X18.  Extensions and mime types.  [_mime_to_ext] always answers
    one of [jpg], [png], [webp], [tif], [bmp], [bin], and does not
    depend on the case of its argument or on white space around it.
    Going from such an extension to the mime type of the parser and back
    gives the extension again.  The mime type that the parser gives to
    an image always starts with ["image/"], whatever the extension. *)
Theorem mime_types_and_extensions (mime_type : string) (ext : option string) :
  In (_mime_to_ext mime_type) ["jpg"; "png"; "webp"; "tif"; "bmp"; "bin"]
  /\ _mime_to_ext (_mime_from_ext (Some (_mime_to_ext mime_type)))
     = _mime_to_ext mime_type
  /\ _mime_to_ext (lower mime_type) = _mime_to_ext mime_type
  /\ _mime_to_ext (strip mime_type) = _mime_to_ext mime_type
  /\ String.prefix "image/" (_mime_from_ext ext) = true.
Proof.
  split; [apply mime_to_ext_cases|]. split; [|split; [|split]].
  - pose proof (mime_to_ext_cases mime_type) as H. simpl in H.
    destruct H as [<- | [<- | [<- | [<- | [<- | [<- | []]]]]]]; reflexivity.
  - unfold _mime_to_ext. rewrite lower_idem. reflexivity.
  - unfold _mime_to_ext. rewrite lower_strip, strip_idem. reflexivity.
  - apply mime_from_ext_prefix.
Qed.
End Mime.

Section Uploads.
Import ImageStore.
Variables (bucket obj_id : string) (put_object : PutObject -> result unit).

Lemma nonempty_true s : s <> "" -> nonempty s = true.
Proof. destruct s; [contradiction | reflexivity]. Qed.

Lemma upload_image_valid image_bytes mime_type pdf_id page_number :
  mime_type <> "" -> pdf_id <> "" -> 1 <= page_number ->
  let request :=
    {| po_Bucket := bucket;
       po_Key := object_key pdf_id page_number obj_id (_mime_to_ext mime_type);
       po_Body := image_bytes;
       po_ContentType := mime_type;
       po_ACL := "private" |} in
  upload_image bucket obj_id put_object image_bytes mime_type pdf_id page_number
  = (match put_object request with
     | Ok _ => Ok (po_Key request)
     | Raise e => Raise e
     end, [request]).
Proof.
  intros Hm Hp Hn request. unfold upload_image.
  rewrite (nonempty_true _ Hm), (nonempty_true _ Hp). cbv beta iota delta [negb].
  destruct (Z.ltb_spec page_number 1) as [H | _]; [lia|].
  cbv zeta. fold request. destruct (put_object request); reflexivity.
Qed.

(** X19.  [upload_image] puts one object or none.  With an empty mime
    type, an empty document id or a page number below 1 it raises a
    [ValueError] and puts nothing.  Otherwise it makes exactly one
    [put_object] request: in the configured bucket, with the image
    bytes as body, the mime type as given as content type, the ACL
    [private], and the key
    [images/<pdf_id>/page_<page>/<uuid>.<extension>]; it returns that
    key when the request succeeds and raises the error of the request
    otherwise. *)
Theorem upload_image_puts_one_private_object
        (image_bytes : bytes) (mime_type pdf_id : string) (page_number : Z) :
  (mime_type = "" \/ pdf_id = "" \/ page_number < 1 ->
   exists e,
     upload_image bucket obj_id put_object image_bytes mime_type pdf_id page_number
     = (Raise e, [])
     /\ exn_cls e = ValueError)
  /\ (mime_type <> "" -> pdf_id <> "" -> 1 <= page_number ->
      exists request,
        upload_image bucket obj_id put_object image_bytes mime_type pdf_id page_number
        = (match put_object request with
           | Ok _ => Ok (po_Key request)
           | Raise e => Raise e
           end, [request])
        /\ po_Bucket request = bucket
        /\ po_Key request
           = object_key pdf_id page_number obj_id (_mime_to_ext mime_type)
        /\ po_Body request = image_bytes
        /\ po_ContentType request = mime_type
        /\ po_ACL request = "private").
Proof.
  split.
  - unfold upload_image. intros [-> | [-> | H]].
    + eexists. split; reflexivity.
    + destruct (nonempty mime_type); eexists; split; reflexivity.
    + apply Z.ltb_lt in H. rewrite H.
      destruct (nonempty mime_type); [destruct (nonempty pdf_id)|];
        eexists; split; reflexivity.
  - intros Hm Hp Hn. eexists. split; [apply upload_image_valid; assumption|].
    repeat split.
Qed.
End Uploads.

Section UploadsOnFixtures.
Import ImageStore.

(** A PNG of page 2 of the document [doc]. *)
Lemma upload_image_puts_one_private_object_witness :
  exists request,
    upload_image "bucket" "0123" (fun _ => Ok tt) [Byte.x89] "image/PNG" "doc" 2
    = (Ok "images/doc/page_2/0123.png", [request])
    /\ po_ACL request = "private".
Proof.
  destruct (proj2 (upload_image_puts_one_private_object "bucket" "0123" (fun _ => Ok tt)
                     [Byte.x89] "image/PNG" "doc" 2))
    as [request [E [_ [Ek [_ [_ Ha]]]]]]; try discriminate; try lia.
  exists request. split; [|exact Ha].
  rewrite E, Ek. reflexivity.
Defined.
End UploadsOnFixtures.

(* ===================================================================== *)
(** * The parser                                                          *)
(* ===================================================================== *)

Section Parser.
Import PDFParser.
Import ImageStore.

Lemma numbered_bounds doc : forall n,
  Forall (fun x => n <= fst x < n + Z.of_nat (List.length doc)) (numbered n doc).
Proof.
  induction doc as [|pg doc IH]; intros n; simpl numbered; constructor.
  - simpl fst. rewrite length_cons. lia.
  - eapply Forall_impl; [|apply (IH (n + 1))].
    intros [k pg'] H. simpl fst in *. rewrite length_cons. lia.
Qed.

Lemma numbered_nth doc : forall n i pg,
  nth_error doc i = Some pg ->
  nth_error (numbered n doc) i = Some (n + Z.of_nat i, pg).
Proof.
  induction doc as [|pg0 doc IH]; intros n [|i] pg H; simpl in *; try discriminate.
  - injection H as <-. f_equal. f_equal. lia.
  - rewrite (IH (n + 1) i pg H). f_equal. f_equal. lia.
Qed.

Lemma numbered_length doc : forall n, List.length (numbered n doc) = List.length doc.
Proof. induction doc as [|pg doc IH]; intros n; simpl; [reflexivity|]. rewrite IH. reflexivity. Qed.

Lemma image_item_checked page_number info :
  Forall (fun img => ib_page_number img = page_number
                     /\ 64 <= ib_width_px img /\ 64 <= ib_height_px img
                     /\ String.prefix "image/" (ib_mime_type img) = true)
         (image_item page_number info).
Proof.
  unfold image_item. destruct info as [info|]; [|constructor].
  destruct (ii_image info) as [data|]; [|constructor].
  destruct (ii_width info) as [width|]; [|constructor].
  destruct (ii_height info) as [height|]; [|constructor].
  destruct (Z.ltb_spec width 64); [constructor|].
  destruct (Z.ltb_spec height 64); constructor; [|constructor].
  simpl. repeat split; try assumption. apply mime_from_ext_prefix.
Qed.

Lemma prefix_nonempty p s : p <> "" -> String.prefix p s = true -> s <> "".
Proof. intros Hp H ->. destruct p; [contradiction | discriminate]. Qed.

(** X20.  The images that [parse_images] returns are at least 64
    pixels wide and 64 pixels high; their page numbers are page numbers
    of the document, counted from 1; their mime types start with
    ["image/"].  So [upload_image] never rejects an image of the parser
    for a document with a non-empty id: it makes its one [put_object]
    request, with the bytes and the mime type of the image.  A document
    that cannot be opened gives the error of [fitz.open]. *)
Theorem parsed_images_are_large_and_uploadable (doc : Document) :
  exists blocks,
    parse_images (Ok doc) = Ok blocks
    /\ Forall (fun img =>
                 64 <= ib_width_px img /\ 64 <= ib_height_px img
                 /\ 1 <= ib_page_number img <= Z.of_nat (List.length doc)
                 /\ String.prefix "image/" (ib_mime_type img) = true
                 /\ forall bucket obj_id put_object pdf_id,
                      pdf_id <> "" ->
                      exists request,
                        snd (upload_image bucket obj_id put_object (ib_image_bytes img)
                               (ib_mime_type img) pdf_id (ib_page_number img))
                        = [request]
                        /\ po_Body request = ib_image_bytes img
                        /\ po_ContentType request = ib_mime_type img)
              blocks
    /\ forall e, parse_images (Raise e) = Raise e.
Proof.
  eexists. split; [reflexivity|]. split; [|reflexivity].
  apply Forall_flat_map.
  eapply Forall_impl; [|apply (numbered_bounds doc 1)].
  intros [page_number pg] Hn. simpl fst in Hn.
  apply Forall_flat_map. apply Forall_forall. intros info _.
  eapply Forall_impl; [|apply image_item_checked].
  intros img [Hp [Hw [Hh Hm]]]. rewrite Hp.
  split; [exact Hw|]. split; [exact Hh|]. split; [lia|]. split; [exact Hm|].
  intros bucket obj_id put_object pdf_id Hid.
  eexists. rewrite upload_image_valid;
    [| apply (prefix_nonempty "image/"); [discriminate | exact Hm] | exact Hid | lia].
  cbv zeta. split; [reflexivity|]. split; reflexivity.
Qed.

(** X21.  [parse_text] returns one block per page, in page order: the
    block of the page at index [i] carries the page number [i + 1], the
    text of the page (the empty string when the page has none) and the
    span from 0 to the length of that text.  A document that cannot be
    opened gives the error of [fitz.open]. *)
Theorem parse_text_gives_one_block_per_page (doc : Document) :
  exists blocks,
    parse_text (Ok doc) = Ok blocks
    /\ List.length blocks = List.length doc
    /\ (forall i pg,
          nth_error doc i = Some pg ->
          exists b,
            nth_error blocks i = Some b
            /\ tb_page_number b = Z.of_nat i + 1
            /\ tb_text b = match pg_text pg with Some t => t | None => "" end
            /\ tb_char_start b = Some 0
            /\ tb_char_end b = Some (Z.of_nat (String.length (tb_text b))))
    /\ forall e, parse_text (Raise e) = Raise e.
Proof.
  eexists. split; [reflexivity|]. split; [|split; [|reflexivity]].
  - rewrite length_map. apply numbered_length.
  - intros i pg H.
    match goal with
    | |- exists b, nth_error (map ?f ?l) i = _ /\ _ =>
        pose proof (map_nth_error f i l (numbered_nth doc 1 i pg H)) as E
    end.
    eexists. split; [exact E|].
    cbv beta iota zeta delta [tb_page_number tb_text tb_char_start tb_char_end].
    split; [lia|]. repeat split.
Qed.
End Parser.

(* ===================================================================== *)
(** * The query route                                                     *)
(* ===================================================================== *)

Section QueryRoute.
Context {T : FloatTypes} {O : FloatOps} {V : VecOps}.
Import RoutesQuery.
Import QueryPipeline.

(** X22.  The query route validates the question once.  A question
    that is blank is answered with status 400 and no call is made.
    Otherwise the pipeline gets the question stripped, which passes the
    validation of the pipeline itself; the route returns the response
    of the pipeline, which echoes the stripped question, and turns any
    error, of the construction of the pipeline or of its run, into
    status 500 with the text of the error.  No other status is
    raised. *)
Theorem query_route_validates_once
        (env : Env) (constructed : result t) (req_question : string) (w : World) :
  (nonempty (strip req_question) = false ->
   query env constructed req_question w
   = (HTTPException 400 "question must be a non-empty string", w))
  /\ (nonempty (strip req_question) = true ->
      (forall e, constructed = Raise e ->
         query env constructed req_question w = (HTTPException 500 (str e), w))
      /\ (forall p, constructed = Ok p ->
            answer_question env p (strip req_question) w
            = (hits <- retrieve env p (strip req_question) ;;
               respond env p (strip req_question)
                 (text_ranked (fst hits)) (image_ranked (snd hits))) w
            /\ query env constructed req_question w
               = match answer_question env p (strip req_question) w with
                 | (Ok response, w') => (Returns response, w')
                 | (Raise e, w') => (HTTPException 500 (str e), w')
                 end))
  /\ match fst (query env constructed req_question w) with
     | Returns response => question response = strip req_question
     | HTTPException status_code _ => status_code = 400 \/ status_code = 500
     end.
Proof.
  split; [|split].
  - intros Hb. unfold query. rewrite Hb. reflexivity.
  - intros Hb. split.
    + intros e ->. unfold query. rewrite Hb. reflexivity.
    + intros p ->. split.
      * unfold answer_question. rewrite strip_idem, Hb. reflexivity.
      * unfold query. rewrite Hb. reflexivity.
  - unfold query. destruct (nonempty (strip req_question)); simpl; [|left; reflexivity].
    destruct constructed as [p | e]; simpl; [|right; reflexivity].
    destruct (answer_question env p (strip req_question) w) as [[resp | e] w'] eqn:E;
      simpl; [|right; reflexivity].
    apply answer_question_ok_inv in E as [_ [hits [w1 [_ E]]]].
    apply respond_ok_inv in E as [? [? [? [? [_ [_ [_ [_ [Eq _]]]]]]]]]. exact Eq.
Qed.
End QueryRoute.

Section QueryRouteOnIEEE.
Import IEEE.
Import Fixtures.
Import RoutesQuery.

(** A question of white space is rejected with status 400. *)
Lemma query_route_validates_once_witness :
  query quiet (Ok (pipeline gemini_up)) (String.append "  " nl) []
  = (HTTPException 400 "question must be a non-empty string", []).
Proof.
  apply (proj1 (query_route_validates_once quiet (Ok (pipeline gemini_up))
                  (String.append "  " nl) [])).
  reflexivity.
Defined.
End QueryRouteOnIEEE.

(* ===================================================================== *)
(** * The name of the text embedding model                                *)
(* ===================================================================== *)

Section ModelName.
Import TextEmbeddingInit.

Lemma prefix_slash c s : String.prefix "/" (String c s) = Ascii.eqb "/" c.
Proof.
  destruct c as [[] [] [] [] [] [] [] []]; destruct s; reflexivity.
Qed.

Lemma contains_slash_cons c s :
  contains "/" (String c s) = Ascii.eqb c "/" || contains "/" s.
Proof.
  change (contains "/" (String c s))
    with (String.prefix "/" (String c s) || contains "/" s).
  rewrite prefix_slash, Ascii.eqb_sym. reflexivity.
Qed.

Lemma last_segment_no_slash s : contains "/" (last_segment s) = false.
Proof.
  induction s as [|c s IH]; [reflexivity|]. simpl last_segment.
  destruct (contains "/" s) eqn:E; [exact IH|].
  destruct (Ascii.eqb c "/") eqn:Ec; [exact E|].
  rewrite contains_slash_cons, Ec, E. reflexivity.
Qed.

Lemma last_segment_suffix s : exists pre, s = String.append pre (last_segment s).
Proof.
  induction s as [|c s [pre IH]]; [exists ""; reflexivity|]. simpl last_segment.
  destruct (contains "/" s).
  - exists (String c pre). simpl. rewrite <- IH. reflexivity.
  - destruct (Ascii.eqb c "/").
    + exists (String c ""). reflexivity.
    + exists "". reflexivity.
Qed.

Lemma contains_slash_app pre v : contains "/" (String.append pre (String "/" v)) = true.
Proof.
  induction pre as [|c pre IH]; simpl String.append.
  - rewrite contains_slash_cons. reflexivity.
  - rewrite contains_slash_cons, IH. apply orb_true_r.
Qed.

Lemma last_segment_after_slash pre v :
  contains "/" v = false ->
  last_segment (String.append pre (String "/" v)) = v.
Proof.
  intros Hv. induction pre as [|c pre IH]; simpl String.append.
  - simpl last_segment. rewrite Hv. reflexivity.
  - simpl last_segment. rewrite contains_slash_app. exact IH.
Qed.

(** X23.  The name of the text embedding model is what follows the
    last slash of the configured value: a value [pre/v], where [v] has
    no slash, gives [v], whatever [pre] is, and a value without a slash
    is kept as it is; so the name never contains a slash.
    [google/text-embedding-004] gives [text-embedding-004], which is
    also the name when nothing is configured.  A configured value that
    ends with a slash gives the empty name. *)
Theorem model_name_is_the_last_segment (env_value : option string) :
  contains "/" (_model_name env_value) = false
  /\ (forall pre v,
        contains "/" v = false ->
        _model_name (Some (String.append pre (String "/" v))) = v)
  /\ (forall v, contains "/" v = false -> _model_name (Some v) = v)
  /\ _model_name (Some "google/text-embedding-004") = "text-embedding-004"
  /\ _model_name None = "text-embedding-004"
  /\ (forall v, _model_name (Some (String.append v "/")) = "").
Proof.
  assert (Hseg : forall pre v,
             contains "/" v = false ->
             _model_name (Some (String.append pre (String "/" v))) = v).
  { intros pre v Hv. unfold _model_name. cbv zeta.
    rewrite contains_slash_app. apply last_segment_after_slash, Hv. }
  split; [|split; [exact Hseg|split; [|split; [reflexivity|split; [reflexivity|]]]]].
  - unfold _model_name. cbv zeta.
    set (raw := match env_value with Some v => v | None => _ end).
    destruct (contains "/" raw) eqn:E; [apply last_segment_no_slash | exact E].
  - intros v Hv. unfold _model_name. cbv zeta. rewrite Hv. reflexivity.
  - intros v. apply (Hseg v ""). reflexivity.
Qed.
End ModelName.

(* ===================================================================== *)
(** * Pre-signed URLs                                                     *)
(* ===================================================================== *)

Section Presigning.
Import PresignedUrls.
Variables (environ : Environ) (s3 : S3).

Let bucket := or_else (AWS_S3_BUCKET environ) (S3_BUCKET_NAME environ).

(** The signing step, once the time to live is known. *)
Lemma signing_request s3_key ttl_seconds r :
  snd (generate_presigned_url environ s3 s3_key ttl_seconds) = r ->
  r = []
  \/ exists client request,
       r = [(client, request)]
       /\ fst (generate_presigned_url environ s3 s3_key ttl_seconds)
          = client_generate_presigned_url s3 client request
       /\ gp_Key request = s3_key
       /\ bucket = Some (gp_Bucket request)
       /\ gp_Bucket request <> ""
       /\ (client = GenericClient ->
           exists e, get_s3_client_for_bucket s3 (gp_Bucket request) = Raise e)
       /\ (forall ttl, ttl_seconds = Some ttl -> 0 < ttl -> gp_ExpiresIn request = ttl)
       /\ (ttl_seconds = None \/ (exists ttl, ttl_seconds = Some ttl /\ ttl <= 0) ->
           exists v, AWS_S3_PRESIGNED_URL_TTL_SECONDS environ = Some v
                     /\ int_of_str s3 v = Ok (gp_ExpiresIn request)).
Proof.
  intros <-. unfold generate_presigned_url. fold bucket.
  destruct s3_key as [|k0 k]; [left; reflexivity|].
  assert (Hsign : forall ttl (P : Z -> Prop), P ttl ->
    let run :=
      match bucket with
      | Some (String c b) =>
          match get_s3_client_for_bucket s3 (String c b) with
          | Ok _ =>
              (client_generate_presigned_url s3 BucketClient
                 {| gp_Bucket := String c b; gp_Key := String k0 k; gp_ExpiresIn := ttl |},
               [(BucketClient,
                 {| gp_Bucket := String c b; gp_Key := String k0 k;
                    gp_ExpiresIn := ttl |})])
          | Raise _ =>
              match get_s3_client s3 with
              | Ok _ =>
                  (client_generate_presigned_url s3 GenericClient
                     {| gp_Bucket := String c b; gp_Key := String k0 k;
                        gp_ExpiresIn := ttl |},
                   [(GenericClient,
                     {| gp_Bucket := String c b; gp_Key := String k0 k;
                        gp_ExpiresIn := ttl |})])
              | Raise e => (Raise e, [])
              end
          end
      | _ => (Raise (mk_exn ValueError "AWS_S3_BUCKET is missing"), [])
      end in
    snd run = []
    \/ exists client request,
         snd run = [(client, request)]
         /\ fst run = client_generate_presigned_url s3 client request
         /\ gp_Key request = String k0 k
         /\ bucket = Some (gp_Bucket request)
         /\ gp_Bucket request <> ""
         /\ (client = GenericClient ->
             exists e, get_s3_client_for_bucket s3 (gp_Bucket request) = Raise e)
         /\ P (gp_ExpiresIn request)).
  { intros ttl P HP. cbv zeta.
    destruct bucket as [[|c b]|]; try (left; reflexivity).
    destruct (get_s3_client_for_bucket s3 (String c b)) as [[] | e] eqn:Hb.
    - right. eexists. eexists. split; [reflexivity|]. simpl.
      repeat split; try assumption; discriminate.
    - destruct (get_s3_client s3) as [[] | e']; [|left; reflexivity].
      right. eexists. eexists. split; [reflexivity|]. simpl.
      repeat split; try assumption; try discriminate. intros _. eauto. }
  cbv zeta.
  destruct ttl_seconds as [ttl|].
  - destruct (Z.leb_spec ttl 0) as [Hle | Hgt].
    + destruct (AWS_S3_PRESIGNED_URL_TTL_SECONDS environ) as [[|c t]|] eqn:Hv;
        try (left; reflexivity).
      destruct (int_of_str s3 (String c t)) as [ttl' | e] eqn:Hi; [|left; reflexivity].
      destruct (Hsign ttl' (fun x => x = ttl') eq_refl) as [H | [cl [rq [H1 [H2 [H3 [H4 [H5 [H6 H7]]]]]]]]];
        [left; exact H|].
      right. exists cl, rq. repeat split; try assumption.
      * intros ttl0 E Hpos. injection E as <-. lia.
      * intros _. exists (String c t). rewrite H7. auto.
    + destruct (Hsign ttl (fun x => x = ttl) eq_refl) as [H | [cl [rq [H1 [H2 [H3 [H4 [H5 [H6 H7]]]]]]]]];
        [left; exact H|].
      right. exists cl, rq. repeat split; try assumption.
      * intros ttl0 E _. injection E as <-. exact H7.
      * intros [E | [ttl0 [E Hle]]]; [discriminate|]. injection E as <-. lia.
  - destruct (AWS_S3_PRESIGNED_URL_TTL_SECONDS environ) as [[|c t]|] eqn:Hv;
      try (left; reflexivity).
    destruct (int_of_str s3 (String c t)) as [ttl' | e] eqn:Hi; [|left; reflexivity].
    destruct (Hsign ttl' (fun x => x = ttl') eq_refl) as [H | [cl [rq [H1 [H2 [H3 [H4 [H5 [H6 H7]]]]]]]]];
      [left; exact H|].
    right. exists cl, rq. repeat split; try assumption.
    * intros ttl0 E. discriminate E.
    * intros _. exists (String c t). rewrite H7. auto.
Qed.

(** X24.  [generate_presigned_url] makes at most one signing request.
    The request is for the key it was given, in the bucket named by
    [AWS_S3_BUCKET] or else [S3_BUCKET_NAME], and its outcome is the
    outcome of the function; the generic client signs only when the
    client of the region of the bucket could not be built.  A positive
    time to live is used as it is.  A time to live that is absent or not
    positive is replaced by the value of
    [AWS_S3_PRESIGNED_URL_TTL_SECONDS], which is used as it is read,
    whatever its sign.  An empty key is rejected with a [ValueError]
    before anything else. *)
Theorem presigned_url_makes_one_request (s3_key : string) (ttl_seconds : option Z) :
  (snd (generate_presigned_url environ s3 s3_key ttl_seconds) = []
   \/ exists client request,
        snd (generate_presigned_url environ s3 s3_key ttl_seconds) = [(client, request)]
        /\ fst (generate_presigned_url environ s3 s3_key ttl_seconds)
           = client_generate_presigned_url s3 client request
        /\ gp_Key request = s3_key
        /\ or_else (AWS_S3_BUCKET environ) (S3_BUCKET_NAME environ)
           = Some (gp_Bucket request)
        /\ gp_Bucket request <> ""
        /\ (client = GenericClient ->
            exists e, get_s3_client_for_bucket s3 (gp_Bucket request) = Raise e)
        /\ (forall ttl, ttl_seconds = Some ttl -> 0 < ttl -> gp_ExpiresIn request = ttl)
        /\ (ttl_seconds = None \/ (exists ttl, ttl_seconds = Some ttl /\ ttl <= 0) ->
            exists v, AWS_S3_PRESIGNED_URL_TTL_SECONDS environ = Some v
                      /\ int_of_str s3 v = Ok (gp_ExpiresIn request)))
  /\ generate_presigned_url environ s3 "" ttl_seconds
     = (Raise (mk_exn ValueError "s3_key must be a non-empty string"), []).
Proof.
  split; [|reflexivity].
  exact (signing_request s3_key ttl_seconds _ eq_refl).
Qed.
End Presigning.

(* ===================================================================== *)
(** * Collections                                                         *)
(* ===================================================================== *)

Section EnsureCollections.
Import Collections.
Variable client : list Call -> Call -> result unit.

(** What [run] returns, read off the answers of the client: every call
    is answered from the calls made before it, and the first error ends
    the run. *)
Lemma run_answers todo : forall done,
  (forall u, fst (run client done todo) = Ok u ->
     snd (run client done todo) = done ++ todo
     /\ forall i c, nth_error todo i = Some c ->
                    client (done ++ firstn i todo) c = Ok tt)
  /\ (forall e, fst (run client done todo) = Raise e ->
        exists i c,
          nth_error todo i = Some c
          /\ snd (run client done todo) = done ++ firstn (S i) todo
          /\ client (done ++ firstn i todo) c = Raise e
          /\ forall j c', (j < i)%nat -> nth_error todo j = Some c' ->
                          client (done ++ firstn j todo) c' = Ok tt).
Proof.
  induction todo as [|c todo IH]; intros done.
  - split.
    + intros u _. simpl. rewrite app_nil_r. split; [reflexivity|].
      intros [|i] c' H; discriminate H.
    + intros e H. discriminate H.
  - simpl run. destruct (client done c) as [[] | e0] eqn:Ec.
    + destruct (IH (done ++ [c])) as [IHok IHerr]. split.
      * intros u Hu. destruct (IHok u Hu) as [E Hall]. split.
        -- rewrite E, <- app_assoc. reflexivity.
        -- intros [|i] c' Hn.
           ++ injection Hn as <-. simpl. rewrite app_nil_r. exact Ec.
           ++ simpl in Hn. specialize (Hall i c' Hn).
              rewrite <- app_assoc in Hall. exact Hall.
      * intros e He. destruct (IHerr e He) as [i [c' [Hn [E [Hc Hbefore]]]]].
        exists (S i), c'. split; [exact Hn|]. split.
        { rewrite E, <- app_assoc. reflexivity. }
        split.
        { rewrite <- app_assoc in Hc. exact Hc. }
        intros [|j] c'' Hj Hn'.
        -- injection Hn' as <-. simpl. rewrite app_nil_r. exact Ec.
        -- simpl in Hn'. assert (Hj' : (j < i)%nat) by lia.
           specialize (Hbefore j c'' Hj' Hn').
           rewrite <- app_assoc in Hbefore. exact Hbefore.
    + split.
      * intros u Hu. discriminate Hu.
      * intros e He. injection He as <-. exists 0%nat, c.
        split; [reflexivity|]. split; [reflexivity|]. split.
        { simpl. rewrite app_nil_r. exact Ec. }
        intros j c' Hj. lia.
Qed.

Lemma run_app todo1 todo2 : forall done,
  run client done (todo1 ++ todo2)
  = match run client done todo1 with
    | (Ok _, done') => run client done' todo2
    | (Raise e, done') => (Raise e, done')
    end.
Proof.
  induction todo1 as [|c todo1 IH]; intros done; [reflexivity|].
  simpl. destruct (client done c) as [[] | e]; [apply IH | reflexivity].
Qed.

Lemma creation_if_missing name size existing :
  created_if_missing name size existing
  = if missing name existing then creation name size else [].
Proof.
  unfold created_if_missing, missing. destruct (existsb _ _); reflexivity.
Qed.

(** [ensure_collections_exist] runs the calls of [creations]. *)
Lemma ensure_runs_creations text_name image_name text_dim existing :
  ensure_collections_exist text_name image_name (Ok text_dim) (Ok existing) client
  = run client [] (creations text_name image_name text_dim existing).
Proof.
  unfold ensure_collections_exist, creations.
  rewrite run_app, !creation_if_missing.
  destruct (missing text_name existing).
  - destruct (run client [] (creation text_name text_dim)) as [[[] | e] done];
      [|reflexivity].
    destruct (missing image_name existing); reflexivity.
  - cbn [run]. destruct (missing image_name existing); reflexivity.
Qed.

Lemma created_if_missing_names name size existing :
  Forall (fun c => ~ In (collection_of c) existing /\ collection_of c = name)
         (created_if_missing name size existing).
Proof.
  unfold created_if_missing.
  destruct (existsb (String.eqb name) existing) eqn:E; [constructor|].
  assert (H : ~ In name existing).
  { intros Hin. assert (Ht : existsb (String.eqb name) existing = true).
    { apply existsb_exists. exists name. split; [exact Hin | apply String.eqb_refl]. }
    rewrite Ht in E. discriminate E. }
  repeat constructor; exact H.
Qed.

Lemma created_if_present name size existing :
  In name existing -> created_if_missing name size existing = [].
Proof.
  intros Hin. unfold created_if_missing.
  replace (existsb (String.eqb name) existing) with true; [reflexivity|].
  symmetry. apply existsb_exists. exists name. split; [exact Hin | apply String.eqb_refl].
Qed.

(** X25.  [ensure_collections_exist] only creates what is missing.
    The calls it has to make, after the list of the collections has
    been read, are: the creation of the text collection with the
    configured dimension and its two payload indexes if its name is not
    in the list, then the same for the image collection, with 768
    dimensions.  It returns exactly when the client answers every one
    of these calls, each from the calls made before it, and all of them
    have then been made.  It fails exactly at the first of these calls
    that the client refuses: this call is the last one made, and its
    error is the error raised.  No call is about a collection that
    exists, and nothing is called when both exist.  An error of reading
    the list, or of reading the dimension when the text collection is
    missing, is raised before any call. *)
Theorem collections_are_created_only_when_missing
        (text_name image_name : string) (text_dim : Z) (existing : list string) :
  let outcome :=
    ensure_collections_exist text_name image_name (Ok text_dim) (Ok existing) client in
  let plan := creations text_name image_name text_dim existing in
  (forall u, fst outcome = Ok u ->
     snd outcome = plan
     /\ forall i c, nth_error plan i = Some c -> client (firstn i plan) c = Ok tt)
  /\ (forall e, fst outcome = Raise e ->
        exists i c,
          nth_error plan i = Some c
          /\ snd outcome = firstn (S i) plan
          /\ client (firstn i plan) c = Raise e
          /\ forall j c', (j < i)%nat -> nth_error plan j = Some c' ->
                          client (firstn j plan) c' = Ok tt)
  /\ Forall (fun c => ~ In (collection_of c) existing
                      /\ (collection_of c = text_name \/ collection_of c = image_name))
            (snd outcome)
  /\ (In text_name existing -> In image_name existing -> outcome = (Ok tt, []))
  /\ (forall e dim,
        ensure_collections_exist text_name image_name dim (Raise e) client
        = (Raise e, []))
  /\ (forall e,
        ~ In text_name existing ->
        ensure_collections_exist text_name image_name (Raise e) (Ok existing) client
        = (Raise e, [])).
Proof.
  intros outcome plan.
  assert (E : outcome = run client [] plan) by apply ensure_runs_creations.
  destruct (run_answers plan []) as [Hok Herr]. rewrite <- E in Hok, Herr.
  assert (Hplan : Forall (fun c => ~ In (collection_of c) existing
                                   /\ (collection_of c = text_name
                                       \/ collection_of c = image_name)) plan).
  { unfold plan, creations. apply Forall_app. split.
    - eapply Forall_impl; [|apply created_if_missing_names].
      intros c [H1 H2]. auto.
    - eapply Forall_impl; [|apply created_if_missing_names].
      intros c [H1 H2]. auto. }
  split; [exact Hok|]. split; [exact Herr|]. split; [|split; [|split]].
  - destruct (fst outcome) as [u | e] eqn:Ef.
    + destruct (Hok u eq_refl) as [-> _]. exact Hplan.
    + destruct (Herr e eq_refl) as [i [c [_ [-> _]]]].
      apply Forall_forall. intros x Hx. rewrite Forall_forall in Hplan.
      apply Hplan. rewrite <- (firstn_skipn (S i) plan).
      apply in_or_app. left. exact Hx.
  - intros Ht Hi. rewrite E. unfold plan, creations.
    rewrite !created_if_present by assumption. reflexivity.
  - intros e dim. reflexivity.
  - intros e Ht. unfold ensure_collections_exist.
    replace (missing text_name existing) with true; [reflexivity|].
    unfold missing. destruct (existsb (String.eqb text_name) existing) eqn:Ex;
      [|reflexivity].
    apply existsb_exists in Ex. destruct Ex as [x [Hin Hx]].
    apply String.eqb_eq in Hx. subst x. contradiction.
Qed.
End EnsureCollections.

Section EnsureCollectionsOnFixtures.
Import Collections.
Import Fixtures.

(** The image collection exists and the text collection does not; the
    client refuses the second call.  The text collection has been
    created, the first index has been asked for, and the error of that
    call is raised. *)
Lemma collections_are_created_only_when_missing_witness :
  ensure_collections_exist "text_chunks" "images" (Ok 1024) (Ok ["images"])
    FailureFixtures.second_call_fails
  = (Raise network_error,
     [create_collection "text_chunks" 1024;
      create_payload_index "text_chunks" "source_pdf_id" KEYWORD]).
Proof.
  destruct (proj1 (proj2 (collections_are_created_only_when_missing
                            FailureFixtures.second_call_fails
                            "text_chunks" "images" 1024 ["images"]))
              network_error eq_refl)
    as [i [c [Hn [Hs [Hc _]]]]].
  destruct i as [|[|i]].
  - discriminate Hc.
  - apply injective_projections; [reflexivity | exact Hs].
  - reflexivity.
Defined.
End EnsureCollectionsOnFixtures.

(* ===================================================================== *)
(** * The ingestion route                                                 *)
(* ===================================================================== *)

Section IngestionRoute.
Context {T : FloatTypes}.
Import RoutesQuery.
Import RoutesIngestion.

Lemma not_pdf_spec content_type :
  not_pdf content_type = false <-> content_type = Some "application/pdf".
Proof.
  unfold not_pdf. destruct content_type as [ct|]; [|split; discriminate].
  rewrite negb_false_iff, String.eqb_eq. split; [intros ->; reflexivity|].
  intros H. injection H as ->. reflexivity.
Qed.

(** X26.  The ingestion route, branch by branch.  A request whose
    content type is not [application/pdf] is answered with status 400,
    and so is one whose file is empty; no call is made.  Otherwise an
    identifier is drawn for the document.  If the pipeline cannot be
    constructed, the answer is status 500 with the text of the error.
    If [ingest_pdf] returns for the file and that identifier, with no
    title, the answer is the body [ingested] with the identifier; if it
    raises, the answer is status 500 with the text of its error.  So no
    other status is raised and a body is returned only for a document
    that was ingested.  With a pipeline at hand, the calls of the
    route are calls other than upserts followed by the batch
    upserts. *)
Theorem ingest_route_reports_what_was_stored
        (env : Env) (constructed : result IngestionPipeline.t)
        (content_type : option string) (data : bytes) (w : World) :
  (content_type <> Some "application/pdf" ->
   ingest_pdf env constructed content_type data w
   = (HTTPException 400 "Content-Type must be application/pdf", w))
  /\ (content_type = Some "application/pdf" ->
      (data = [] ->
       ingest_pdf env constructed content_type data w
       = (HTTPException 400 "Empty PDF file", w))
      /\ (data <> [] ->
          (forall e, constructed = Raise e ->
             ingest_pdf env constructed content_type data w
             = (HTTPException 500 (str e), w ++ [EvUuid4]))
          /\ (forall p, constructed = Ok p ->
                ingest_pdf env constructed content_type data w
                = match IngestionPipeline.ingest_pdf env p data (uuid4_hex env w) None
                          (w ++ [EvUuid4]) with
                  | (Ok _, w') =>
                      (Returns {| body_pdf_id := uuid4_hex env w;
                                  body_status := "ingested" |}, w')
                  | (Raise e, w') => (HTTPException 500 (str e), w')
                  end)))
  /\ match fst (ingest_pdf env constructed content_type data w) with
     | Returns body =>
         body_status body = "ingested"
         /\ body_pdf_id body = uuid4_hex env w
         /\ exists p,
              constructed = Ok p
              /\ IngestionPipeline.ingest_pdf env p data (uuid4_hex env w) None
                   (w ++ [EvUuid4])
                 = (Ok tt, snd (ingest_pdf env constructed content_type data w))
     | HTTPException status_code _ => status_code = 400 \/ status_code = 500
     end
  /\ (forall p,
        constructed = Ok p ->
        exists pre ups,
          snd (ingest_pdf env constructed content_type data w) = w ++ pre ++ ups
          /\ Forall not_upsert pre
          /\ batch_upserts (IngestionPipeline.qdrant_repo p) ups).
Proof.
  split; [|split; [|split]].
  - intros H. unfold ingest_pdf.
    destruct (not_pdf content_type) eqn:Ec; [reflexivity|].
    apply not_pdf_spec in Ec. contradiction.
  - intros Hc. apply not_pdf_spec in Hc. unfold ingest_pdf. rewrite Hc. split.
    + intros ->. reflexivity.
    + intros Hd. destruct data as [|b data']; [contradiction|]. split.
      * intros e ->. reflexivity.
      * intros p ->. reflexivity.
  - unfold ingest_pdf.
    destruct (not_pdf content_type); simpl; [left; reflexivity|].
    destruct data as [|b data']; simpl; [left; reflexivity|].
    destruct constructed as [p | e]; simpl; [|right; reflexivity].
    destruct (IngestionPipeline.ingest_pdf env p (b :: data') (uuid4_hex env w) None
                (w ++ [EvUuid4])) as [[[] | e] w'] eqn:E; simpl;
      [|right; reflexivity].
    repeat split. exists p. split; [reflexivity | first [exact E | reflexivity]].
  - intros p ->. unfold ingest_pdf.
    destruct (not_pdf content_type); simpl.
    { exists [], []. rewrite !app_nil_r. repeat split; [constructor|].
      exists [], []. reflexivity. }
    destruct data as [|b data']; simpl.
    { exists [], []. rewrite !app_nil_r. repeat split; [constructor|].
      exists [], []. reflexivity. }
    destruct (ingest_pdf_writes_last env p (b :: data') (uuid4_hex env w) None
                (w ++ [EvUuid4])) as [pre [ups [E [F [Hb _]]]]].
    exists (EvUuid4 :: pre), ups.
    destruct (IngestionPipeline.ingest_pdf env p (b :: data') (uuid4_hex env w) None
                (w ++ [EvUuid4])) as [[[] | e] w']; simpl in *; subst w';
      rewrite <- !app_assoc; simpl; repeat split; try assumption;
      constructor; try assumption; reflexivity.
Qed.
End IngestionRoute.

Section IngestionRouteOnIEEE.
Import IEEE.
Import Fixtures.
Import MoreFixtures.
Import RoutesQuery.
Import RoutesIngestion.

(** A document of one image: the route draws the identifier, the
    pipeline parses, uploads, embeds and upserts under that identifier,
    and the body carries it. *)
Lemma ingest_route_reports_what_was_stored_witness :
  ingest_pdf env_one_image (Ok ingestion) (Some "application/pdf") [Byte.x25] []
  = (Returns {| body_pdf_id := "00000000000000000000000000000000";
                body_status := "ingested" |},
     [EvUuid4; EvParseText [Byte.x25]; EvParseImages [Byte.x25];
      EvUploadImage [Byte.x89; Byte.x50] "image/png"
        "00000000000000000000000000000000" 1;
      EvEmbedImages [[Byte.x89; Byte.x50]];
      EvUuid4; EvNow;
      EvUpsert "images"
        [("00000000000000000000000000000000", [f_1],
          Schema.ImageP
            (Schema.build_image_payload "2025-01-01T00:00:00Z"
               "00000000000000000000000000000000"
               "00000000000000000000000000000000" 1 "images/doc/page_1/0.png"
               "image/png" 64 64 "openclip-ViT-L-14-openai" None None None None))]]).
Proof.
  assert (Hd : [Byte.x25] <> @nil Byte.byte) by discriminate.
  pose proof (proj2 (proj2 (proj1 (proj2 (ingest_route_reports_what_was_stored
                env_one_image (Ok ingestion) (Some "application/pdf") [Byte.x25] []))
                eq_refl) Hd) ingestion eq_refl) as E.
  rewrite E. reflexivity.
Defined.
End IngestionRouteOnIEEE.
